(** * Verification of the OVAL filesystem walker ([src/OVAL/probes/oval_fts.c])
      and of the objects of the definition model ([src/OVAL/oval_object.c])

    The walker composes a physical directory traversal (fts(3)) with the
    OVAL entity comparison, a recursion policy (direction, depth, file kind,
    filesystem) and a partial-match pruning over a compiled regular
    expression.  This file embeds [pathlen_from_ftse], [OVAL_FTSENT_new],
    [OVAL_FTS_localp], [oval_fts_open], [oval_fts_read] and [oval_fts_close]
    as Rocq functions and states the properties of the specification over
    them; it goes on with the traversal as a whole, with what
    [oval_fts_open] reads in the behaviours and with how it fails.  Of
    [oval_object.c], the module [Object] embeds the accessors, the setters
    with the lock of the model, [oval_object_new], [oval_object_is_valid],
    [oval_object_clone], [oval_object_to_print] and [oval_object_to_dom].

    C [int]s are [Z]; the lengths handed over by the driver are unsigned, so
    no arithmetic of the walker leaves the range of [int].  C strings are
    [string]; a [NULL] pointer is [None].  In [oval_fts_open] the two calls
    of [oscap_alloc] and [oscap_talloc] can return [NULL], which the code
    stores through unchecked; the copies that [strdup] makes, and the record
    that [OVAL_FTSENT_new] allocates, are taken to be made.

    Part I holds the definitions: the model of the walker and of what it
    calls, the objects, a sample world to run the walker on, and the
    properties of the specification.  Part II holds the lemmas and the
    theorems. *)

From Stdlib Require Import ZArith List String Ascii Bool Lia.
Import ListNotations.

Local Open Scope string_scope.
Local Open Scope list_scope.
Local Open Scope Z_scope.

Set Implicit Arguments.
Set Warnings "-register-all".

(* ================================================================== *)
(** * Strings *)

(** The first [n] bytes of a C string ([strncpy] followed by a terminating
    NUL, or the conversion ["%.*s"]). *)
Definition strn (n : Z) (s : string) : string := substring 0 (Z.to_nat n) s.

Definition strlen (s : string) : Z := Z.of_nat (String.length s).

Definition slash : ascii := "/"%char.

(** [strrchr s '/'], returned as the text that follows the last slash. *)
Fixpoint after_last_slash (s : string) : option string :=
  match s with
  | EmptyString => None
  | String c r =>
      match after_last_slash r with
      | Some t => Some t
      | None => if Ascii.eqb c slash then Some r else None
      end
  end.

Fixpoint last_char (s : string) : option ascii :=
  match s with
  | EmptyString => None
  | String c EmptyString => Some c
  | String _ r => last_char r
  end.

(* ================================================================== *)
(** * Constants of the headers *)

(** Modelled from the spec: the operation codes of [oval_types.h] (section 6,
    [get_operation]); the header is not part of the sources at hand. *)
Definition OVAL_OPERATION_EQUALS : Z := 1.
Definition OVAL_OPERATION_NOT_EQUAL : Z := 2.
Definition OVAL_OPERATION_CASE_INSENSITIVE_EQUALS : Z := 3.
Definition OVAL_OPERATION_PATTERN_MATCH : Z := 11.

(** Modelled from the spec: the behaviour codes of [oval_fts.h] (section 3,
    Behaviors).  [recurse] is a bit set tested with [&]. *)
Definition OVAL_RECURSE_DIRECTION_NONE : Z := 0.
Definition OVAL_RECURSE_DIRECTION_DOWN : Z := 1.
Definition OVAL_RECURSE_DIRECTION_UP : Z := 2.

Definition OVAL_RECURSE_FILES : Z := 1.
Definition OVAL_RECURSE_DIRS : Z := 2.
Definition OVAL_RECURSE_SYMLINKS : Z := 4.
Definition OVAL_RECURSE_SYMLINKS_AND_DIRS : Z :=
  Z.lor OVAL_RECURSE_SYMLINKS OVAL_RECURSE_DIRS.
Definition OVAL_RECURSE_FILES_AND_DIRS : Z :=
  Z.lor OVAL_RECURSE_FILES OVAL_RECURSE_DIRS.

Definition OVAL_RECURSE_FS_LOCAL : Z := 0.
Definition OVAL_RECURSE_FS_DEFINED : Z := 1.
Definition OVAL_RECURSE_FS_ALL : Z := 2.

(** [<fts.h>] *)
Definition FTS_COMFOLLOW : Z := 1.
Definition FTS_PHYSICAL : Z := 16.
Definition FTS_XDEV : Z := 64.

(** [<pcre.h>] *)
Definition PCRE_PARTIAL : Z := 32768.
Definition PCRE_ERROR_NOMATCH : Z := -1.
Definition PCRE_ERROR_PARTIAL : Z := -12.
Definition PCRE_ERROR_BADPARTIAL : Z := -13.

(** [<errno.h>] *)
Definition EINVAL : Z := 22.
Definition ERANGE : Z := 34.

Inductive oval_result_t :=
| OVAL_RESULT_TRUE
| OVAL_RESULT_FALSE
| OVAL_RESULT_UNKNOWN
| OVAL_RESULT_ERROR
| OVAL_RESULT_NOT_EVALUATED
| OVAL_RESULT_NOT_APPLICABLE.

Definition oval_result_is_true (r : oval_result_t) : bool :=
  match r with OVAL_RESULT_TRUE => true | _ => false end.

(* ================================================================== *)
(** * [pathlen_from_ftse] *)

Definition pathlen_from_ftse (fts_pathlen fts_namelen : Z) : Z :=
  if fts_pathlen >? fts_namelen then
    let pathlen := fts_pathlen - fts_namelen in
    if pathlen >? 1 then pathlen - 1 (* strip last slash *) else pathlen
  else fts_pathlen.

(** The length as the specification words it (section 3, invariant on the
    path/name split). *)
Definition spec_pathlen (fts_pathlen fts_namelen : Z) : Z :=
  if fts_pathlen >? fts_namelen + 1 then fts_pathlen - fts_namelen - 1
  else if fts_pathlen >? fts_namelen then fts_pathlen - fts_namelen
  else fts_pathlen.

(* ================================================================== *)
(** * Entities and behaviours (S-expressions handed over by the probe) *)

Inductive SEXP_val :=
| SEXP_string (s : string)
| SEXP_number (n : Z).

(** An entity: its optional [operation] attribute and its optional value. *)
Record SEXP_ent := mkEnt {
  ent_operation : option Z;
  ent_val : option SEXP_val
}.

(** The behaviours entity, seen through [probe_ent_getattrval]: a missing
    attribute is [None]. *)
Record SEXP_behaviors := mkBehaviors {
  bh_max_depth : option string;
  bh_recurse_direction : option string;
  bh_recurse : option string;
  bh_recurse_file_system : option string
}.

(* ================================================================== *)
(** * The file tree and the traversal driver (fts(3)) *)

(** The driver is fts(3) of the C library, which the specification describes
    in section 4.3: a cursor over a forest that returns one entry per step,
    tagged [D], [DP], [DC], [F], [SL] or [SLNONE], takes the instructions
    [Skip] and [Follow] on the entry it has just returned, and is opened
    physical, following the links given as roots, and optionally without
    crossing devices.  It is modelled here over a finite tree of files, with
    a list of the work left to do; [fts_open], [fts_read] and [fts_set] keep
    their names. *)

Record stat := mkStat { st_dev : Z }.

(** What the operating system shows at a name.  [Missing] is a name at which
    [stat] fails; a symbolic link whose target is [Missing] dangles; [Loop]
    is a directory that is one of its own ancestors. *)
Inductive node :=
| Missing
| File (st : stat)
| Dir (st : stat) (entries : list (string * node))
| Symlink (st : stat) (target : node)
| Loop (st : stat).

Inductive fts_info_t :=
| FTS_D | FTS_DC | FTS_DP | FTS_F | FTS_NS | FTS_SL | FTS_SLNONE.

Definition fts_info_eqb (a b : fts_info_t) : bool :=
  match a, b with
  | FTS_D, FTS_D | FTS_DC, FTS_DC | FTS_DP, FTS_DP | FTS_F, FTS_F
  | FTS_NS, FTS_NS | FTS_SL, FTS_SL | FTS_SLNONE, FTS_SLNONE => true
  | _, _ => false
  end.

Inductive fts_instr_t := FTS_NOINSTR | FTS_FOLLOW | FTS_SKIP.

Inductive FTSENT := mkFTSENT {
  fts_info : fts_info_t;
  fts_path : string;
  fts_pathlen : Z;
  fts_name : string;
  fts_namelen : Z;
  fts_level : Z;
  fts_statp : option stat;
  fts_parent : option FTSENT
}.

Record FTSENT_obj := mkObj { obj_ent : FTSENT; obj_node : node }.

(** Work that the driver still has to do: visit an entry read from a
    directory (or a starting root), or come back to a directory once its
    contents are done (the post-order visit). *)
Inductive fts_work :=
| Visit (e : FTSENT) (n : node)
| Leave (e : FTSENT) (n : node).

(** The stream [FTS]: the entry last returned ([fts_cur]) with the
    instruction [fts_set] attached to it, and the entries still to come. *)
Record FTS := mkFTS {
  fts_options : Z;
  fts_dev : Z;
  fts_cur : option FTSENT_obj;
  fts_instr : fts_instr_t;
  fts_todo : list fts_work
}.

Definition isset (options flag : Z) : bool := negb (Z.land options flag =? 0).

(** [stat(2)] goes through symbolic links. *)
Fixpoint resolve (n : node) : node :=
  match n with
  | Symlink _ t => resolve t
  | _ => n
  end.

Definition node_info (n : node) : fts_info_t * stat :=
  match n with
  | Missing => (FTS_NS, mkStat 0)
  | File st => (FTS_F, st)
  | Dir st _ => (FTS_D, st)
  | Symlink st _ => (FTS_SL, st)
  | Loop st => (FTS_DC, st)
  end.

(** [fts_stat]: the tag and the [stat] buffer of an object, and the object
    the entry stands for afterwards.  With [follow], a link is replaced by
    what it resolves to; a link that resolves to nothing keeps its own
    [lstat] buffer and is tagged [FTS_SLNONE]. *)
Definition fts_stat (follow : bool) (n : node) : fts_info_t * stat * node :=
  match n with
  | Symlink st t =>
      if follow then
        match resolve t with
        | Missing => (FTS_SLNONE, st, n)
        | r => (node_info r, r)
        end
      else (FTS_SL, st, n)
  | _ => (node_info n, n)
  end.

(** The name of a starting root, as [fts_load] cuts it out of the path. *)
Definition fts_root_name (path : string) : string :=
  if String.eqb path "/" then path
  else match after_last_slash path with
       | Some t => t
       | None => path
       end.

Definition fts_root (options : Z) (path : string) (n : node) : fts_work :=
  let '(info, st, obj) := fts_stat (isset options FTS_COMFOLLOW) n in
  let name := fts_root_name path in
  Visit (mkFTSENT info path (strlen path) name (strlen name) 0 (Some st) None) obj.

(** [NAPPEND]: where the name of a child is appended to the path of its
    parent. *)
Definition NAPPEND (p : FTSENT) : Z :=
  match last_char (fts_path p) with
  | Some c => if Ascii.eqb c slash then fts_pathlen p - 1 else fts_pathlen p
  | None => fts_pathlen p
  end.

Definition fts_child (p : FTSENT) (name : string) (n : node) : fts_work :=
  let '(info, st, obj) := fts_stat false n in
  let path := (strn (NAPPEND p) (fts_path p) ++ "/" ++ name)%string in
  Visit (mkFTSENT info path (strlen path) name (strlen name)
                  (fts_level p + 1) (Some st) (Some p)) obj.

Definition fts_build (p : FTSENT) (entries : list (string * node)) : list fts_work :=
  map (fun en => fts_child p (fst en) (snd en)) entries.

Definition set_info (i : fts_info_t) (p : FTSENT) : FTSENT :=
  mkFTSENT i (fts_path p) (fts_pathlen p) (fts_name p) (fts_namelen p)
           (fts_level p) (fts_statp p) (fts_parent p).

Definition ent_dev (p : FTSENT) : Z :=
  match fts_statp p with Some st => st_dev st | None => 0 end.

(** Move to the next entry at this level, or up to the parent. *)
Definition fts_next (sp : FTS) : option FTSENT * FTS :=
  match fts_todo sp with
  | [] => (None, mkFTS (fts_options sp) (fts_dev sp) None FTS_NOINSTR [])
  | Visit e n :: rest =>
      let dev := if fts_level e =? 0 then ent_dev e else fts_dev sp in
      (Some e, mkFTS (fts_options sp) dev (Some (mkObj e n)) FTS_NOINSTR rest)
  | Leave d n :: rest =>
      let d' := set_info FTS_DP d in
      (Some d', mkFTS (fts_options sp) (fts_dev sp) (Some (mkObj d' n)) FTS_NOINSTR rest)
  end.

(** Modelled from the spec: [fts_read] (section 4.3).  An entry that was
    told to be followed is looked up again, through the link, and returned
    once more with the tag of what it resolves to.  A directory that was told
    to be skipped, that is on another device under [FTS_XDEV], or that is
    empty, is returned again as its post-order visit; any other directory is
    read, and its first entry is returned.  Otherwise the next entry at this
    level is returned, or the post-order visit of the parent. *)
Definition fts_read (sp : FTS) : option FTSENT * FTS :=
  match fts_cur sp with
  | None => fts_next sp
  | Some (mkObj p n) =>
      let leave :=
        let d' := set_info FTS_DP p in
        (Some d', mkFTS (fts_options sp) (fts_dev sp) (Some (mkObj d' n))
                        FTS_NOINSTR (fts_todo sp)) in
      match fts_instr sp, fts_info p with
      | FTS_FOLLOW, FTS_SL | FTS_FOLLOW, FTS_SLNONE =>
          let '(info, st, obj) := fts_stat true n in
          let p' := mkFTSENT info (fts_path p) (fts_pathlen p) (fts_name p)
                             (fts_namelen p) (fts_level p) (Some st) (fts_parent p) in
          (Some p', mkFTS (fts_options sp) (fts_dev sp) (Some (mkObj p' obj))
                          FTS_NOINSTR (fts_todo sp))
      | FTS_SKIP, FTS_D => leave
      | _, FTS_D =>
          if isset (fts_options sp) FTS_XDEV && negb (ent_dev p =? fts_dev sp)
          then leave
          else match n with
               | Dir _ (en :: ens) =>
                   fts_next (mkFTS (fts_options sp) (fts_dev sp) (fts_cur sp) FTS_NOINSTR
                                   (fts_build p (en :: ens) ++ Leave p n :: fts_todo sp))
               | _ => leave
               end
      | _, _ => fts_next sp
      end
  end.

(** [fts_set]: [p] is the entry last returned. *)
Definition fts_set (sp : FTS) (p : FTSENT) (instr : fts_instr_t) : FTS :=
  mkFTS (fts_options sp) (fts_dev sp) (fts_cur sp) instr (fts_todo sp).

(* ================================================================== *)
(** * The collaborators of the walker *)

(** A compiled regular expression and its study data are opaque; they are
    named by the pattern they were made from. *)
Record pcre := mkPcre { pcre_pattern : string }.
Record pcre_extra := mkPcreExtra { pcre_studied : string }.

(** Modelled from the spec: the device set of [fsdev.h] (sections 3 and 4.1),
    a snapshot of the device ids of the local filesystems. *)
Definition fsdev_t := list Z.

(** The world around the walker: the regular expression engine, the entity
    matcher of the probe API, and the operating system. *)
Class World := mkWorld {
  (** [pcre_compile(pattern, 0, ...)]; [None] for a malformed pattern *)
  pcre_compile : string -> option pcre;
  pcre_study : pcre -> option pcre_extra;
  (** the value [pcre_fullinfo(..., PCRE_INFO_FIRSTBYTE, &firstbyte)] stores *)
  pcre_firstbyte : pcre -> option pcre_extra -> Z;
  (** [pcre_exec(re, extra, subject, length, 0, options, svec, 1)] *)
  pcre_exec : pcre -> option pcre_extra -> string -> Z -> Z -> Z;
  (** [probe_entobj_cmp(entity, string)] *)
  probe_entobj_cmp : SEXP_ent -> string -> oval_result_t;
  (** the object found at a path name *)
  fs_lookup : string -> node;
  (** [fts_open] runs out of memory *)
  fts_open_fails : bool;
  (** [oscap_talloc(OVAL_FTS)] returns [NULL] *)
  oscap_talloc_fails : bool;
  (** [oscap_alloc], called for the vector of starting paths, returns
      [NULL] *)
  oscap_alloc_fails : bool;
  (** what [fsdev_init(NULL, 0)] returns *)
  fsdev_init : option fsdev_t;
  (** the [int] found in memory that [malloc] hands out *)
  malloc_junk : Z
}.

(** Modelled from the spec: [fsdev_search] and [fsdev_path] of section 4.1
    ([contains_id], [contains_path]); 1 for a member, 0 otherwise, -1 when
    the path cannot be resolved. *)
Definition fsdev_search (lfs : fsdev_t) (id : Z) : Z :=
  if existsb (Z.eqb id) lfs then 1 else 0.

Definition fsdev_path `{World} (lfs : fsdev_t) (path : string) : Z :=
  match resolve (fs_lookup path) with
  | Missing => -1
  | n => fsdev_search lfs (st_dev (snd (node_info n)))
  end.

(* ================================================================== *)
(** * The walker handle and the entry record *)

Record OVAL_FTS := mkOVAL_FTS {
  ofts_fts : FTS;
  ofts_st_path : option (list string);
  ofts_st_path_count : Z;
  ofts_st_path_index : Z;
  ofts_spath : option SEXP_ent;
  ofts_sfilename : option SEXP_ent;
  ofts_sfilepath : option SEXP_ent;
  ofts_path_regex : option pcre;
  ofts_path_regex_extra : option pcre_extra;
  ofts_path_op : Z;
  max_depth : Z;
  direction : Z;
  recurse : Z;
  filesystem : Z;
  localdevs : option fsdev_t
}.

Record OVAL_FTSENT := mkOVAL_FTSENT {
  path : string;
  path_len : Z;
  file : option string;
  file_len : Z
}.

Definition is_set {A : Type} (p : option A) : bool :=
  match p with Some _ => true | None => false end.

Definition set_fts (ofts : OVAL_FTS) (sp : FTS) : OVAL_FTS :=
  mkOVAL_FTS sp (ofts_st_path ofts) (ofts_st_path_count ofts)
             (ofts_st_path_index ofts) (ofts_spath ofts) (ofts_sfilename ofts)
             (ofts_sfilepath ofts) (ofts_path_regex ofts)
             (ofts_path_regex_extra ofts) (ofts_path_op ofts) (max_depth ofts)
             (direction ofts) (recurse ofts) (filesystem ofts) (localdevs ofts).

Definition OVAL_FTSENT_new (ofts : OVAL_FTS) (fts_ent : FTSENT) : OVAL_FTSENT :=
  if is_set (ofts_sfilename ofts) || is_set (ofts_sfilepath ofts) then
    let path_len := pathlen_from_ftse (fts_pathlen fts_ent) (fts_namelen fts_ent) in
    mkOVAL_FTSENT (strn path_len (fts_path fts_ent)) path_len
                  (Some (fts_name fts_ent)) (fts_namelen fts_ent)
  else
    mkOVAL_FTSENT (fts_path fts_ent) (fts_pathlen fts_ent) None (-1).

(** [OVAL_FTS_localp]; [id] is the address of [st_dev], or [NULL].  The
    device set is dereferenced by [fsdev_search]: it is there whenever
    [filesystem] is [OVAL_RECURSE_FS_LOCAL] (see [oval_fts_open_inl]). *)
Definition OVAL_FTS_localp `{World} (ofts : OVAL_FTS) (path : option string)
           (id : option Z) : bool :=
  match localdevs ofts with
  | None => false
  | Some lfs =>
      match id, path with
      | Some dev, _ => fsdev_search lfs dev =? 1
      | None, Some p => fsdev_path lfs p =? 1
      | None, None => false
      end
  end.

(* ================================================================== *)
(** * [oval_fts_read] *)

Section Read.
Context `{W : World}.

(** Lines 413-440: the partial-match optimisation. *)
Inductive prune_t :=
| Prune_none       (* no regex, not a directory or link, or a match *)
| Prune_nomatch    (* goto __skip_file *)
| Prune_partial    (* continue *)
| Prune_error.     (* return (NULL) *)

Definition prune_pathlen (ofts : OVAL_FTS) (fts_ent : FTSENT) : Z :=
  if negb (is_set (ofts_sfilename ofts)) then fts_pathlen fts_ent
  else pathlen_from_ftse (fts_pathlen fts_ent) (fts_namelen fts_ent).

Definition oval_fts_prune (ofts : OVAL_FTS) (fts_ent : FTSENT) : prune_t :=
  match ofts_path_regex ofts with
  | Some regex =>
      if fts_info_eqb (fts_info fts_ent) FTS_D
         || fts_info_eqb (fts_info fts_ent) FTS_SL then
        let ret := pcre_exec regex (ofts_path_regex_extra ofts)
                             (fts_path fts_ent) (prune_pathlen ofts fts_ent)
                             PCRE_PARTIAL in
        if ret <? 0 then
          if ret =? PCRE_ERROR_NOMATCH then Prune_nomatch
          else if ret =? PCRE_ERROR_PARTIAL then Prune_partial
          else Prune_error
        else Prune_none
      else Prune_none
  | None => Prune_none
  end.

Definition cmp_true (ent : SEXP_ent) (s : string) : bool :=
  oval_result_is_true (probe_entobj_cmp ent s).

(** Lines 442-482: is the entry reported?  [ofts_spath] is set whenever
    [ofts_sfilepath] is not. *)
Definition oval_fts_match (ofts : OVAL_FTS) (fts_ent : FTSENT) : bool :=
  if fts_info_eqb (fts_info fts_ent) FTS_SL then false
  else
    match ofts_sfilepath ofts with
    | Some sfilepath =>
        negb (fts_info_eqb (fts_info fts_ent) FTS_D)
        && cmp_true sfilepath (fts_path fts_ent)
    | None =>
        if (is_set (ofts_sfilename ofts)
            && negb (fts_info_eqb (fts_info fts_ent) FTS_D))
           || (negb (is_set (ofts_sfilename ofts))
               && fts_info_eqb (fts_info fts_ent) FTS_D)
        then
          let stmp :=
            if negb (is_set (ofts_sfilename ofts)) then fts_path fts_ent
            else strn (pathlen_from_ftse (fts_pathlen fts_ent)
                                         (fts_namelen fts_ent))
                      (fts_path fts_ent) in
          let match1 :=
            match ofts_spath ofts with
            | Some spath => cmp_true spath stmp
            | None => false
            end in
          let match2 :=
            if ofts_path_op ofts =? OVAL_OPERATION_EQUALS
            then true (* repulsive hack *) else match1 in
          match ofts_sfilename ofts with
          | Some sfilename =>
              match2 && cmp_true sfilename (fts_name fts_ent)
          | None => match2
          end
        else false
    end.

(** Lines 484-583: the calls of [fts_set] made by the [switch] on the
    direction, in order.  [goto __skip_file] is [[FTS_SKIP]]. *)
Definition oval_fts_recurse (ofts : OVAL_FTS) (fts_ent : FTSENT)
  : list fts_instr_t :=
  if direction ofts =? OVAL_RECURSE_DIRECTION_NONE then
    if negb (ofts_path_op ofts =? OVAL_OPERATION_EQUALS) then []
    else if negb (is_set (ofts_sfilename ofts))
            && negb (is_set (ofts_sfilepath ofts)) then [FTS_SKIP]
    else if fts_level fts_ent >? 0 then [FTS_SKIP]
    else []
  else if direction ofts =? OVAL_RECURSE_DIRECTION_DOWN then
    if (fts_level fts_ent =? 0) && is_set (ofts_sfilename ofts) then []
    else if (fts_level fts_ent <=? max_depth ofts) || (max_depth ofts =? -1) then
      let local :=
        if filesystem ofts =? OVAL_RECURSE_FS_LOCAL then
          if negb (OVAL_FTS_localp ofts (Some (fts_path fts_ent))
                                   (option_map st_dev (fts_statp fts_ent)))
          then [FTS_SKIP] else []
        else [] in
      match fts_info fts_ent with
      | FTS_D =>
          if Z.land (recurse ofts) OVAL_RECURSE_DIRS =? 0 then [FTS_SKIP]
          else local
      | FTS_SL =>
          if Z.land (recurse ofts) OVAL_RECURSE_SYMLINKS =? 0 then [FTS_SKIP]
          else FTS_FOLLOW :: local
      | _ => []
      end
    else [FTS_SKIP]
  else if direction ofts =? OVAL_RECURSE_DIRECTION_UP then [FTS_SKIP]
  else [].

Definition fts_set_all (sp : FTS) (fts_ent : FTSENT) (l : list fts_instr_t) : FTS :=
  fold_left (fun sp i => fts_set sp fts_ent i) l sp.

(** One turn of the [for (;;)] loop. *)
Inductive turn_t :=
| Turn_null (ofts : OVAL_FTS)                     (* return (NULL) *)
| Turn_continue (ofts : OVAL_FTS)                 (* next turn *)
| Turn_break (ofts_ent : OVAL_FTSENT) (ofts : OVAL_FTS).

Definition oval_fts_turn (ofts : OVAL_FTS) : turn_t :=
  match fts_read (ofts_fts ofts) with
  | (None, sp) => Turn_null (set_fts ofts sp)
  | (Some fts_ent, sp) =>
      match fts_info fts_ent with
      | FTS_DP | FTS_DC => Turn_continue (set_fts ofts sp)
      | _ =>
          match oval_fts_prune ofts fts_ent with
          | Prune_nomatch =>
              Turn_continue (set_fts ofts (fts_set sp fts_ent FTS_SKIP))
          | Prune_partial =>
              if fts_info_eqb (fts_info fts_ent) FTS_SL
              then Turn_continue (set_fts ofts (fts_set sp fts_ent FTS_FOLLOW))
              else Turn_continue (set_fts ofts sp)
          | Prune_error => Turn_null (set_fts ofts sp)
          | Prune_none =>
              let sp' := fts_set_all sp fts_ent (oval_fts_recurse ofts fts_ent) in
              if oval_fts_match ofts fts_ent
              then Turn_break (OVAL_FTSENT_new ofts fts_ent) (set_fts ofts sp')
              else Turn_continue (set_fts ofts sp')
          end
      end
  end.

(** The loop; [None] when [fuel] turns were not enough. *)
Fixpoint oval_fts_read_loop (fuel : nat) (ofts : OVAL_FTS)
  : option (option OVAL_FTSENT * OVAL_FTS) :=
  match fuel with
  | O => None
  | S fuel' =>
      match oval_fts_turn ofts with
      | Turn_null ofts' => Some (None, ofts')
      | Turn_continue ofts' => oval_fts_read_loop fuel' ofts'
      | Turn_break ofts_ent ofts' => Some (Some ofts_ent, ofts')
      end
  end.

End Read.

(* ================================================================== *)
(** * Termination measure of the driver *)

(** What an object can still make the driver return once an entry for it
    has been handed out. *)
Fixpoint node_weight (n : node) : nat :=
  match n with
  | Dir _ entries =>
      (fix sum (l : list (string * node)) : nat :=
         match l with
         | [] => O
         | en :: r => (2 + node_weight (snd en) + sum r)%nat
         end) entries
  | Symlink _ t => S (node_weight t)
  | _ => O
  end.

Definition pending_weight (p : FTSENT) (n : node) : nat :=
  match fts_info p with
  | FTS_D | FTS_SL => S (node_weight n)
  | _ => O
  end.

Definition work_weight (w : fts_work) : nat :=
  match w with
  | Visit e n => S (pending_weight e n)
  | Leave _ _ => 1%nat
  end.

Definition fts_weight (sp : FTS) : nat :=
  (match fts_cur sp with
   | Some (mkObj p n) => pending_weight p n
   | None => O
   end + list_sum (map work_weight (fts_todo sp)))%nat.

(** [oval_fts_read] on a handle that is not [NULL]: the entry returned (or
    [NULL]) and the handle afterwards.  The loop is given one turn more than
    the driver has work left, which is enough ([oval_fts_read_loop_total]). *)
Definition oval_fts_read `{World} (ofts : OVAL_FTS) : option OVAL_FTSENT * OVAL_FTS :=
  match oval_fts_read_loop (S (fts_weight (ofts_fts ofts))) ofts with
  | Some r => r
  | None => (None, ofts)
  end.

(* ================================================================== *)
(** * Memory: what a call holds, and [errno] *)

Inductive resource :=
| Res_sexp            (* an S-expression returned by [probe_ent_getattrval] *)
| Res_paths           (* the vector of starting paths *)
| Res_path (i : nat)  (* the string [paths[i]] *)
| Res_ofts            (* the [OVAL_FTS] structure *)
| Res_fts             (* the stream opened by [fts_open] *)
| Res_regex
| Res_regex_extra
| Res_localdevs
| Res_ref_path        (* references taken with [SEXP_ref] *)
| Res_ref_filename
| Res_ref_filepath.

Definition resource_eqb (a b : resource) : bool :=
  match a, b with
  | Res_sexp, Res_sexp | Res_paths, Res_paths | Res_ofts, Res_ofts
  | Res_fts, Res_fts | Res_regex, Res_regex
  | Res_regex_extra, Res_regex_extra | Res_localdevs, Res_localdevs
  | Res_ref_path, Res_ref_path | Res_ref_filename, Res_ref_filename
  | Res_ref_filepath, Res_ref_filepath => true
  | Res_path i, Res_path j => Nat.eqb i j
  | _, _ => false
  end.

Record mem := mkMem { live : list resource; errno : Z }.

Inductive exit_t :=
| Exit_null   (* return (NULL) *)
| Exit_segv.  (* a NULL pointer is dereferenced *)

(** Computations that run to the end with a value or leave early. *)
Definition M (A : Type) : Type := mem -> (A + exit_t) * mem.

Definition ret {A : Type} (a : A) : M A := fun m => (inl a, m).

Definition bind {A B : Type} (c : M A) (k : A -> M B) : M B :=
  fun m =>
    match c m with
    | (inl a, m') => k a m'
    | (inr e, m') => (inr e, m')
    end.

Notation "x <- c ;; k" := (bind c (fun x => k))
  (at level 61, c at next level, right associativity).
Notation "c ;;; k" := (bind c (fun _ => k))
  (at level 61, right associativity).

Definition return_null {A : Type} : M A := fun m => (inr Exit_null, m).
Definition segv {A : Type} : M A := fun m => (inr Exit_segv, m).

(** An allocation that has been made is recorded, and a release is. *)
Definition acquire (r : resource) : M unit :=
  fun m => (inl tt, mkMem (r :: live m) (errno m)).

Fixpoint remove1 (r : resource) (l : list resource) : list resource :=
  match l with
  | [] => []
  | x :: l' => if resource_eqb r x then l' else x :: remove1 r l'
  end.

Definition release (r : resource) : M unit :=
  fun m => (inl tt, mkMem (remove1 r (live m)) (errno m)).

Definition get_errno : M Z := fun m => (inl (errno m), m).
Definition set_errno (e : Z) : M unit := fun m => (inl tt, mkMem (live m) e).

Definition when (b : bool) (c : M unit) : M unit := if b then c else ret tt.

(* ================================================================== *)
(** * [strtol] in base 10, on a machine with 64-bit [long] and 32-bit [int] *)

Definition LONG_MAX : Z := 2 ^ 63 - 1.
Definition LONG_MIN : Z := - 2 ^ 63.

Definition isspace (c : ascii) : bool :=
  let n := nat_of_ascii c in
  Nat.eqb n 32 || (Nat.leb 9 n && Nat.leb n 13).

Definition digit_of (c : ascii) : option Z :=
  let n := nat_of_ascii c in
  if Nat.leb 48 n && Nat.leb n 57 then Some (Z.of_nat n - 48) else None.

Fixpoint skip_spaces (s : string) : string :=
  match s with
  | String c r => if isspace c then skip_spaces r else s
  | EmptyString => s
  end.

Fixpoint read_digits (acc : Z) (s : string) : Z :=
  match s with
  | String c r =>
      match digit_of c with
      | Some d => read_digits (10 * acc + d) r
      | None => acc
      end
  | EmptyString => acc
  end.

Definition strtol (s : string) : M Z :=
  let s1 := skip_spaces s in
  let v :=
    match s1 with
    | String "-" r => - read_digits 0 r
    | String "+" r => read_digits 0 r
    | _ => read_digits 0 s1
    end in
  if v >? LONG_MAX then set_errno ERANGE ;;; ret LONG_MAX
  else if v <? LONG_MIN then set_errno ERANGE ;;; ret LONG_MIN
  else ret v.

(** The conversion of a [long] to [int]. *)
Definition int_of_long (z : Z) : Z := (z + 2 ^ 31) mod 2 ^ 32 - 2 ^ 31.

(* ================================================================== *)
(** * [oval_fts_open] and [oval_fts_close] *)

(** Modelled from the spec: the macro [PROBE_ENT_STRVAL] of [_probe-api.h]
    (section 6, [get_string]).  It copies the string value of an entity and
    tells apart an entity without a string value and a string of length
    zero.  The values are taken to fit the buffers they are copied to. *)
Inductive strval_t :=
| Strval_invalid
| Strval_zerolen
| Strval (s : string).

Definition PROBE_ENT_STRVAL (ent : option SEXP_ent) : strval_t :=
  match ent with
  | Some e =>
      match ent_val e with
      | Some (SEXP_string s) =>
          if String.eqb s "" then Strval_zerolen else Strval s
      | _ => Strval_invalid
      end
  | None => Strval_invalid
  end.

Section Open.
Context `{W : World}.

(** [fts_open(paths, options, NULL)]: the roots are looked up, through a
    link when [FTS_COMFOLLOW] is set.  An empty path is refused. *)
Definition fts_open (paths : list string) (options : Z) : option FTS :=
  if fts_open_fails || existsb (String.eqb "") paths then None
  else Some (mkFTS options 0 None FTS_NOINSTR
                   (map (fun p => fts_root options p (fs_lookup p)) paths)).

(** The structure comes from [oscap_talloc]; the store of line 56,
    [ofts->ofts_fts = fts_open (...)], goes through the pointer unchecked. *)
Definition OVAL_FTS_new (fts_paths : list string) (fts_paths_count : Z)
           (fts_options : Z) : M (option OVAL_FTS) :=
  when oscap_talloc_fails
       (when (is_set (fts_open fts_paths fts_options)) (acquire Res_fts) ;;;
        segv) ;;;
  acquire Res_ofts ;;;
  match fts_open fts_paths fts_options with
  | None => release Res_ofts ;;; ret None
  | Some sp =>
      acquire Res_fts ;;;
      ret (Some (mkOVAL_FTS sp (Some fts_paths) fts_paths_count 0
                            None None None None None 0
                            (-1) (-1) malloc_junk (-1) None))
  end.

(** The behaviours as [oval_fts_open] reads them: [max_depth], [direction],
    [recurse], [filesystem] and the options for [fts_open]. *)
Record parsed_behaviors := mkParsed {
  p_max_depth : Z;
  p_direction : Z;
  p_recurse : Z;
  p_filesystem : Z;
  p_fts_options : Z
}.

(** Lines 209-293.  The texts of the behaviours are taken to fit the buffer
    [cstr_buff] that they are copied to. *)
Definition parse_behaviors (behaviors : SEXP_behaviors) (fts_options : Z)
  : M parsed_behaviors :=
  (* max_depth *)
  cstr_buff <- match bh_max_depth behaviors with
               | Some s => acquire Res_sexp ;;; ret s
               | None => return_null
               end ;;
  l <- strtol cstr_buff ;;
  e <- get_errno ;;
  when ((e =? EINVAL) || (e =? ERANGE)) (release Res_sexp ;;; return_null) ;;;
  release Res_sexp ;;;
  (* recurse_direction *)
  cstr_buff <- match bh_recurse_direction behaviors with
               | Some s => acquire Res_sexp ;;; ret s
               | None => return_null
               end ;;
  direction <- (if String.eqb cstr_buff "none" then ret OVAL_RECURSE_DIRECTION_NONE
                else if String.eqb cstr_buff "down" then ret OVAL_RECURSE_DIRECTION_DOWN
                else if String.eqb cstr_buff "up" then ret OVAL_RECURSE_DIRECTION_UP
                else release Res_sexp ;;; return_null) ;;
  release Res_sexp ;;;
  (* recurse *)
  recurse <- match bh_recurse behaviors with
             | Some cstr_buff =>
                 acquire Res_sexp ;;;
                 r <- (if String.eqb cstr_buff "symlinks and directories"
                       then ret OVAL_RECURSE_SYMLINKS_AND_DIRS
                       else if String.eqb cstr_buff "files and directories"
                       then ret OVAL_RECURSE_FILES_AND_DIRS
                       else if String.eqb cstr_buff "symlinks"
                       then ret OVAL_RECURSE_SYMLINKS
                       else if String.eqb cstr_buff "directories"
                       then ret OVAL_RECURSE_DIRS
                       else release Res_sexp ;;; return_null) ;;
                 release Res_sexp ;;; ret r
             | None => ret OVAL_RECURSE_SYMLINKS_AND_DIRS
             end ;;
  (* recurse_file_system *)
  fs <- match bh_recurse_file_system behaviors with
        | Some cstr_buff =>
            acquire Res_sexp ;;;
            r <- (if String.eqb cstr_buff "local"
                  then ret (OVAL_RECURSE_FS_LOCAL, fts_options)
                  else if String.eqb cstr_buff "all"
                  then ret (OVAL_RECURSE_FS_ALL, fts_options)
                  else if String.eqb cstr_buff "defined"
                  then ret (OVAL_RECURSE_FS_DEFINED, Z.lor fts_options FTS_XDEV)
                  else release Res_sexp ;;; return_null) ;;
            release Res_sexp ;;; ret r
        | None => ret (OVAL_RECURSE_FS_ALL, fts_options)
        end ;;
  ret (mkParsed (int_of_long l) direction recurse (fst fs) (snd fs)).

(** Lines 313-353: the regex kept for the partial-match optimisation. *)
Definition prunable (firstbyte rc : Z) : bool :=
  negb ((negb (firstbyte =? 47) && negb (firstbyte =? -2))
        || (rc =? PCRE_ERROR_BADPARTIAL)).

Definition open_regex (cstr_path : string)
  : M (option pcre * option pcre_extra) :=
  match pcre_compile cstr_path with
  | None => return_null
  | Some regex =>
      acquire Res_regex ;;;
      let extra := pcre_study regex in
      when (is_set extra) (acquire Res_regex_extra) ;;;
      let firstbyte := pcre_firstbyte regex extra in
      let rc := pcre_exec regex extra "/f0o/bar/baz" 12 PCRE_PARTIAL in
      if prunable firstbyte rc then ret (Some regex, extra)
      else
        release Res_regex ;;;
        when (is_set extra) (release Res_regex_extra) ;;;
        ret (None, None)
  end.

(** [oval_fts_open].  [assume_d] gives up with its second argument when
    the arguments are not as assumed; the behaviours are not [NULL].  The
    vector of starting paths comes from [oscap_alloc], which can return
    [NULL]; the copy of the root that [strdup] makes is taken to be made. *)
Definition oval_fts_open (path filename filepath : option SEXP_ent)
           (behaviors : SEXP_behaviors) : M OVAL_FTS :=
  when (negb ((negb (is_set path) && negb (is_set filename) && is_set filepath)
              || (is_set path && negb (is_set filepath)))) return_null ;;;
  let fts_options := Z.lor FTS_PHYSICAL FTS_COMFOLLOW in
  path_op <- match ent_operation
                     (match path, filepath with
                      | Some e, _ => e
                      | None, Some e => e
                      | None, None => mkEnt None None
                      end) with
             | Some n => acquire Res_sexp ;;; release Res_sexp ;;; ret n
             | None => ret OVAL_OPERATION_EQUALS
             end ;;
  cfg <- (if is_set path then (* filepath == NULL *)
            cstr_path <- match PROBE_ENT_STRVAL path with
                         | Strval s => ret s
                         | _ => return_null
                         end ;;
            nilfilename <- match PROBE_ENT_STRVAL filename with
                           | Strval _ => ret false
                           | Strval_zerolen => ret true
                           | Strval_invalid => return_null
                           end ;;
            b <- parse_behaviors behaviors fts_options ;;
            ret (cstr_path, nilfilename, b)
          else (* filepath != NULL *)
            cstr_path <- match PROBE_ENT_STRVAL filepath with
                         | Strval s => ret s
                         | _ => return_null
                         end ;;
            ret (cstr_path, false, mkParsed (-1) (-1) (-1) (-1) fts_options)) ;;
  let '(cstr_path, nilfilename, b) := cfg in
  (* paths = oscap_alloc (...); paths[0] = strdup (...): the store goes
     through the pointer unchecked *)
  when oscap_alloc_fails (acquire (Res_path 0) ;;; segv) ;;;
  acquire Res_paths ;;;
  acquire (Res_path 0) ;;;
  let paths :=
    [if path_op =? OVAL_OPERATION_EQUALS then cstr_path else "/"] in
  new <- OVAL_FTS_new paths 1 (p_fts_options b) ;;
  ofts <- match new with
          | Some ofts => ret ofts
          | None => segv (* ofts->ofts_st_path = paths *)
          end ;;
  re <- (if path_op =? OVAL_OPERATION_PATTERN_MATCH
         then open_regex cstr_path else ret (None, None)) ;;
  if is_set path then (* filepath == NULL *)
    devs <- (if p_filesystem b =? OVAL_RECURSE_FS_LOCAL then
               match fsdev_init with
               | Some lfs => acquire Res_localdevs ;;; ret (Some lfs)
               | None => return_null
               end
             else ret None) ;;
    acquire Res_ref_path ;;;
    when (negb nilfilename) (acquire Res_ref_filename) ;;;
    ret (mkOVAL_FTS (ofts_fts ofts) (Some paths) 1 0
                    path (if nilfilename then None else filename) None
                    (fst re) (snd re) path_op
                    (p_max_depth b) (p_direction b) (p_recurse b)
                    (p_filesystem b) devs)
  else (* filepath != NULL *)
    acquire Res_ref_filepath ;;;
    ret (mkOVAL_FTS (ofts_fts ofts) (Some paths) 1 0
                    None None filepath
                    (fst re) (snd re) path_op
                    (max_depth ofts) (direction ofts) (recurse ofts)
                    (filesystem ofts) (localdevs ofts)).

(** [oval_fts_close]; it returns 0. *)
Definition oval_fts_close (ofts : OVAL_FTS) : M Z :=
  when (ofts_st_path_count ofts >? 0)
       (fold_right (fun i k => release (Res_path i) ;;; k) (ret tt)
                   (seq 0 (Z.to_nat (ofts_st_path_count ofts))) ;;;
        release Res_paths) ;;;
  when (is_set (ofts_path_regex ofts)) (release Res_regex) ;;;
  when (is_set (ofts_path_regex_extra ofts)) (release Res_regex_extra) ;;;
  when (is_set (ofts_spath ofts)) (release Res_ref_path) ;;;
  when (is_set (ofts_sfilename ofts)) (release Res_ref_filename) ;;;
  when (is_set (ofts_sfilepath ofts)) (release Res_ref_filepath) ;;;
  when (is_set (localdevs ofts)) (release Res_localdevs) ;;;
  (* OVAL_FTS_free *)
  release Res_fts ;;;
  release Res_ofts ;;;
  ret 0.

End Open.

(* ================================================================== *)
(** * The iteration of a caller *)

(** The entry the driver returned last: the one a record just returned by
    [oval_fts_read] was made from. *)
Definition last_entry (ofts : OVAL_FTS) : option FTSENT :=
  option_map obj_ent (fts_cur (ofts_fts ofts)).

(** The handles a caller holds in the course of an iteration: the one that
    [oval_fts_open] returned, and the one left by each call of
    [oval_fts_read] that returned an entry. *)
Inductive walked `{World} (ofts0 : OVAL_FTS) : OVAL_FTS -> Prop :=
| walked_open : walked ofts0 ofts0
| walked_read ofts ofts_ent ofts' :
    walked ofts0 ofts ->
    oval_fts_read ofts = (Some ofts_ent, ofts') ->
    walked ofts0 ofts'.

(** The loop of the probes, [while ((ent = oval_fts_read(ofts)) != NULL)],
    cut after [n] entries: the records with the driver entries they were
    made from. *)
Fixpoint oval_fts_read_all `{World} (n : nat) (ofts : OVAL_FTS)
  : list (OVAL_FTSENT * option FTSENT) :=
  match n with
  | O => []
  | S n' =>
      match oval_fts_read ofts with
      | (Some ofts_ent, ofts') =>
          (ofts_ent, last_entry ofts') :: oval_fts_read_all n' ofts'
      | (None, _) => []
      end
  end.

(** A handle returned by [oval_fts_open]. *)
Definition opened `{World} (path filename filepath : option SEXP_ent)
           (behaviors : SEXP_behaviors) (ofts : OVAL_FTS) : Prop :=
  exists m m', oval_fts_open path filename filepath behaviors m = (inl ofts, m').

(** The string value of an entity. *)
Definition ent_string (ent : option SEXP_ent) : option string :=
  match PROBE_ENT_STRVAL ent with
  | Strval s => Some s
  | _ => None
  end.

(** The operation of an entity, [OVAL_OPERATION_EQUALS] by default. *)
Definition ent_op (ent : option SEXP_ent) : Z :=
  match ent with
  | Some e =>
      match ent_operation e with
      | Some n => n
      | None => OVAL_OPERATION_EQUALS
      end
  | None => OVAL_OPERATION_EQUALS
  end.

(* ================================================================== *)
(** * One turn, seen from outside *)

Section TurnDefs.
Context `{W : World}.

Definition final_instr (l : list fts_instr_t) : fts_instr_t := last l FTS_NOINSTR.

(** The instruction that one turn of the loop leaves on the entry it has
    read: from the partial-match optimisation, or else the last one of the
    recursion step. *)
Definition turn_instr (ofts : OVAL_FTS) (fts_ent : FTSENT) : fts_instr_t :=
  match fts_info fts_ent with
  | FTS_DP | FTS_DC => FTS_NOINSTR
  | _ =>
      match oval_fts_prune ofts fts_ent with
      | Prune_nomatch => FTS_SKIP
      | Prune_partial =>
          if fts_info_eqb (fts_info fts_ent) FTS_SL then FTS_FOLLOW else FTS_NOINSTR
      | Prune_error => FTS_NOINSTR
      | Prune_none => final_instr (oval_fts_recurse ofts fts_ent)
      end
  end.

Definition after_turn (ofts : OVAL_FTS) (fts_ent : FTSENT) (sp : FTS) : OVAL_FTS :=
  set_fts ofts (mkFTS (fts_options sp) (fts_dev sp) (fts_cur sp)
                      (turn_instr ofts fts_ent) (fts_todo sp)).

(** Turns that go on to the next one. *)
Inductive continues : OVAL_FTS -> OVAL_FTS -> Prop :=
| continues_refl ofts : continues ofts ofts
| continues_step ofts ofts1 ofts2 :
    oval_fts_turn ofts = Turn_continue ofts1 ->
    continues ofts1 ofts2 ->
    continues ofts ofts2.

(** The configuration of a handle: everything but the driver. *)
Definition same_config (ofts ofts' : OVAL_FTS) : Prop :=
  ofts' = set_fts ofts (ofts_fts ofts').

End TurnDefs.


(* ================================================================== *)
(** * Decimal text: the conversion ["%d"], [snprintf] and [atoi] *)

(** The character of a decimal digit. *)
Definition digit_char (d : Z) : ascii := ascii_of_nat (48 + Z.to_nat d).

(** The decimal digits of [n], written in front of [acc]; [fuel] bounds the
    number of digits after the first. *)
Fixpoint print_digits (fuel : nat) (n : Z) (acc : string) : string :=
  let acc' := String (digit_char (n mod 10)) acc in
  match fuel with
  | O => acc'
  | S f => if n <? 10 then acc' else print_digits f (n / 10) acc'
  end.

(** The conversion ["%d"]: a number has no more decimal digits than binary
    ones. *)
Definition decimal (z : Z) : string :=
  if z <? 0 then String "-" (print_digits (Z.to_nat (Z.log2 (- z))) (- z) "")
  else print_digits (Z.to_nat (Z.log2 z)) z "".

(** [snprintf(buf, size, ...)] for a [size] above 0: what is left in [buf]
    of the text that the format stands for. *)
Definition snprintf (size : Z) (text : string) : string := strn (size - 1) text.

(** [atoi(s)] is [(int) strtol(s, NULL, 10)]. *)
Definition atoi (s : string) : M Z :=
  l <- strtol s ;; ret (int_of_long l).

(* ================================================================== *)
(** * Objects of the definition model ([src/OVAL/oval_object.c]) *)

Module Object.

(** [oval_types.h] *)
Definition OVAL_SUBTYPE_UNKNOWN : Z := 0.

(** What [oval_object.c] calls and does not define: the definition model
    with its lock and its table of objects, the behaviours and the contents
    of objects, the names of subtypes and families, and the allocator.  A
    collection ([oval_collection_impl.h]) is taken as the list of its items
    in the order of iteration, to which [oval_collection_add] adds at the
    end. *)
Class Env := mkEnv {
  oval_definition_model : Type;
  oval_behavior : Type;
  oval_object_content : Type;
  (** [oval_definition_model_is_locked(model)] *)
  oval_definition_model_is_locked : option oval_definition_model -> bool;
  (** [oscap_alloc] returns [NULL] *)
  oscap_alloc_fails : bool;
  oval_behavior_clone : option oval_definition_model -> oval_behavior -> oval_behavior;
  oval_object_content_clone :
    option oval_definition_model -> oval_object_content -> oval_object_content;
  oval_behavior_is_valid : oval_behavior -> bool;
  oval_object_content_is_valid : oval_object_content -> bool;
  oval_subtype_get_text : Z -> string;
  oval_family_get_text : Z -> string;
  oval_behavior_get_key : oval_behavior -> string;
  oval_behavior_get_value : oval_behavior -> string;
  (** what [oval_behavior_to_print] and [oval_object_content_to_print]
      print *)
  oval_behavior_to_print : oval_behavior -> string -> Z -> list string;
  oval_object_content_to_print : oval_object_content -> string -> Z -> list string;
  (** the name space of the definitions, and what [xmlSearchNsByHref] finds
      for it *)
  OVAL_DEFINITIONS_NAMESPACE : string;
  xmlSearchNsByHref : string -> option string
}.

Section Functions.
Context `{E : Env}.

Record oval_object := mkObject {
  model : option oval_definition_model;
  subtype : Z;
  notes : list string;
  comment : option string;
  id : option string;
  deprecated : Z;
  version : Z;
  object_content : list oval_object_content;
  behaviors : list oval_behavior
}.

(** [oval_definition_model_get_object(model, id)]: the object that the
    model holds under an id. *)
Variable oval_definition_model_get_object :
  option oval_definition_model -> option string -> option oval_object.

(** Integer division of C rounds towards zero. *)
Definition oval_object_get_family (object : oval_object) : Z :=
  Z.quot (subtype object) 1000 * 1000.

Definition oval_object_get_subtype (object : oval_object) : Z := subtype object.

Definition oval_object_get_name (object : oval_object) : string :=
  oval_subtype_get_text (subtype object).

Definition oval_object_get_notes (object : oval_object) : list string :=
  notes object.

Definition oval_object_get_comment (object : oval_object) : option string :=
  comment object.

Definition oval_object_get_id (object : oval_object) : option string := id object.

(** The [int] is returned as a [bool]. *)
Definition oval_object_get_deprecated (object : oval_object) : bool :=
  negb (deprecated object =? 0).

Definition oval_object_get_version (object : oval_object) : Z := version object.

Definition oval_object_get_object_contents (object : oval_object)
  : list oval_object_content := object_content object.

Definition oval_object_get_behaviors (object : oval_object) : list oval_behavior :=
  behaviors object.

(** [oval_object_new]; the object is entered into the table of the model
    by [oval_definition_model_add_object], outside this file. *)
Definition oval_object_new (mdl : option oval_definition_model)
           (an_id : option string) : option oval_object :=
  if is_set mdl && oval_definition_model_is_locked mdl then None
  else if oscap_alloc_fails then None
  else Some (mkObject mdl OVAL_SUBTYPE_UNKNOWN [] None an_id 0 0 [] []).

(** The loops of [oval_object_is_valid]: they stop at the first item that
    is not valid. *)
Fixpoint validate {A : Type} (item_is_valid : A -> bool) (itr : list A) : bool :=
  match itr with
  | [] => true
  | item :: rest =>
      if negb (item_is_valid item) then false (* break *)
      else validate item_is_valid rest
  end.

Definition oval_object_is_valid (object : option oval_object) : bool :=
  match object with
  | None => false
  | Some o =>
      if oval_object_get_subtype o =? OVAL_SUBTYPE_UNKNOWN then false
      else if negb (validate oval_object_content_is_valid
                             (oval_object_get_object_contents o)) then false
      else if negb (validate oval_behavior_is_valid (oval_object_get_behaviors o))
      then false
      else true
  end.

Definition oval_object_is_locked (object : oval_object) : bool :=
  oval_definition_model_is_locked (model object).

(** The setters change the object when it is there and its model is not
    locked; the object after the call is returned. *)
Definition oval_object_set_subtype (object : option oval_object) (a_subtype : Z)
  : option oval_object :=
  match object with
  | Some o =>
      if negb (oval_object_is_locked o)
      then Some (mkObject (model o) a_subtype (notes o) (comment o) (id o)
                          (deprecated o) (version o) (object_content o) (behaviors o))
      else object
  | None => object
  end.

Definition oval_object_add_note (object : option oval_object) (note : string)
  : option oval_object :=
  match object with
  | Some o =>
      if negb (oval_object_is_locked o)
      then Some (mkObject (model o) (subtype o) (notes o ++ [note]) (comment o) (id o)
                          (deprecated o) (version o) (object_content o) (behaviors o))
      else object
  | None => object
  end.

Definition oval_object_set_comment (object : option oval_object) (comm : option string)
  : option oval_object :=
  match object with
  | Some o =>
      if negb (oval_object_is_locked o)
      then Some (mkObject (model o) (subtype o) (notes o) comm (id o)
                          (deprecated o) (version o) (object_content o) (behaviors o))
      else object
  | None => object
  end.

Definition oval_object_set_deprecated (object : option oval_object) (is_deprecated : bool)
  : option oval_object :=
  match object with
  | Some o =>
      if negb (oval_object_is_locked o)
      then Some (mkObject (model o) (subtype o) (notes o) (comment o) (id o)
                          (if is_deprecated then 1 else 0) (version o)
                          (object_content o) (behaviors o))
      else object
  | None => object
  end.

Definition oval_object_set_version (object : option oval_object) (a_version : Z)
  : option oval_object :=
  match object with
  | Some o =>
      if negb (oval_object_is_locked o)
      then Some (mkObject (model o) (subtype o) (notes o) (comment o) (id o)
                          (deprecated o) a_version (object_content o) (behaviors o))
      else object
  | None => object
  end.

Definition oval_object_add_object_content (object : option oval_object)
           (content : oval_object_content) : option oval_object :=
  match object with
  | Some o =>
      if negb (oval_object_is_locked o)
      then Some (mkObject (model o) (subtype o) (notes o) (comment o) (id o)
                          (deprecated o) (version o) (object_content o ++ [content])
                          (behaviors o))
      else object
  | None => object
  end.

Definition oval_object_add_behavior (object : option oval_object)
           (behavior : oval_behavior) : option oval_object :=
  match object with
  | Some o =>
      if negb (oval_object_is_locked o)
      then Some (mkObject (model o) (subtype o) (notes o) (comment o) (id o)
                          (deprecated o) (version o) (object_content o)
                          (behaviors o ++ [behavior]))
      else object
  | None => object
  end.

(** [oval_object_clone]: the object that the new model holds under the id,
    or a new one made like the old one. *)
Definition oval_object_clone (new_model : option oval_definition_model)
           (old_object : oval_object) : option oval_object :=
  match oval_definition_model_get_object new_model (id old_object) with
  | Some new_object => Some new_object
  | None =>
      let new_object := oval_object_new new_model (id old_object) in
      let new_object := oval_object_set_comment new_object (comment old_object) in
      let new_object := oval_object_set_subtype new_object (subtype old_object) in
      let new_object :=
        oval_object_set_deprecated new_object (negb (deprecated old_object =? 0)) in
      let new_object := oval_object_set_version new_object (version old_object) in
      let new_object :=
        fold_left (fun o behavior =>
                     oval_object_add_behavior o (oval_behavior_clone new_model behavior))
                  (oval_object_get_behaviors old_object) new_object in
      let new_object :=
        fold_left oval_object_add_note (oval_object_get_notes old_object) new_object in
      let new_object :=
        fold_left (fun o content =>
                     oval_object_add_object_content
                       o (oval_object_content_clone new_model content))
                  (oval_object_get_object_contents old_object) new_object in
      new_object
  end.

(** The conversion ["%s"]; the C library prints a [NULL] pointer as
    [(null)]. *)
Definition percent_s (s : option string) : string :=
  match s with
  | Some t => t
  | None => "(null)"
  end.

Definition newline : string := String (ascii_of_nat 10) "".

(** The text of an attribute made with [xmlNewProp]: none for a [NULL]
    pointer. *)
Definition prop_text (s : option string) : string :=
  match s with
  | Some t => t
  | None => ""
  end.

(** [nxtindent], the prefix of the lines that [oval_object_to_print]
    prints (lines 419-427). *)
Definition nxtindent (indent : string) (idx : Z) : string :=
  let indent := if strlen indent >? 80 then "...." else indent in
  if idx =? 0 then snprintf 100 (indent ++ "OBJECT.")
  else snprintf 100 (indent ++ "OBJECT[" ++ decimal idx ++ "].").

(** The items of a collection with their numbers, from [idx] on. *)
Fixpoint numbered {A : Type} (idx : Z) (itr : list A) : list (Z * A) :=
  match itr with
  | [] => []
  | item :: rest => (idx, item) :: numbered (idx + 1) rest
  end.

(** [oval_object_to_print]: the lines handed to [oscap_dprintf]. *)
Definition oval_object_to_print (object : oval_object) (indent : string) (idx : Z)
  : list string :=
  let nxt := nxtindent indent idx in
  [nxt ++ "ID         = " ++ percent_s (oval_object_get_id object) ++ newline;
   nxt ++ "FAMILY     = " ++ decimal (oval_object_get_family object) ++ newline;
   nxt ++ "SUBTYPE    = " ++ decimal (oval_object_get_subtype object) ++ newline;
   nxt ++ "VERSION    = " ++ decimal (oval_object_get_version object) ++ newline;
   nxt ++ "COMMENT    = " ++ percent_s (oval_object_get_comment object) ++ newline;
   nxt ++ "DEPRECATED = "
       ++ decimal (if oval_object_get_deprecated object then 1 else 0) ++ newline]%string
  ++ map (fun note => (nxt ++ "NOTE[" ++ decimal (fst note) ++ "]    = "
                           ++ snd note ++ newline)%string)
         (numbered 1 (oval_object_get_notes object))
  ++ flat_map (fun behavior => oval_behavior_to_print (snd behavior) nxt (fst behavior))
              (numbered 1 (oval_object_get_behaviors object))
  ++ flat_map (fun content =>
                 oval_object_content_to_print (snd content) nxt (fst content))
              (numbered 1 (oval_object_get_object_contents object)).

(** A node of the document: its name, the name space it is in, its
    attributes, its text and its children. *)
Inductive xmlNode := mkNode {
  node_name : string;
  node_ns : option string;
  node_props : list (string * string);
  node_content : option string;
  node_children : list xmlNode
}.

(** [oval_object_content_to_dom(content, doc, parent)]: the node it adds to
    the parent. *)
Variable oval_object_content_to_dom : oval_object_content -> xmlNode.

(** [strcat] into an array of [size] bytes; [None] when the text and its
    terminating NUL do not fit. *)
Definition strcat (size : Z) (dest src : string) : option string :=
  if strlen dest + strlen src + 1 <=? size then Some (dest ++ src)%string else None.

(** [oval_object_to_dom]: the node made for the object; [None] when an
    array overflows. *)
Definition oval_object_to_dom (object : oval_object) : option xmlNode :=
  let subtype_text := oval_subtype_get_text (oval_object_get_subtype object) in
  match strcat (strlen subtype_text + 8) "" subtype_text with
  | None => None
  | Some object_name =>
  match strcat (strlen subtype_text + 8) object_name "_object" with
  | None => None
  | Some object_name =>
  let family_text := oval_family_get_text (oval_object_get_family object) in
  let size := strlen OVAL_DEFINITIONS_NAMESPACE + strlen family_text + 2 in
  match strcat size "" OVAL_DEFINITIONS_NAMESPACE with
  | None => None
  | Some family_uri =>
  match strcat size family_uri "#" with
  | None => None
  | Some family_uri =>
  match strcat size family_uri family_text with
  | None => None
  | Some family_uri =>
      let ns_family := Some family_uri in
      let props :=
        [("id", prop_text (oval_object_get_id object));
         ("version", snprintf 10 (decimal (oval_object_get_version object)))]
        ++ match oval_object_get_comment object with
           | Some comm => [("comment", comm)]
           | None => []
           end
        ++ (if oval_object_get_deprecated object then [("deprecated", "true")] else []) in
      let notes_nodes :=
        match oval_object_get_notes object with
        | [] => []
        | note :: rest =>
            let ns_definitions := xmlSearchNsByHref OVAL_DEFINITIONS_NAMESPACE in
            [mkNode "notes" ns_definitions [] None
                    (map (fun n => mkNode "note" ns_definitions [] (Some n) [])
                         (note :: rest))]
        end in
      let behaviors_nodes :=
        match oval_object_get_behaviors object with
        | [] => []
        | behavior :: rest =>
            [mkNode "behaviors" ns_family
                    (map (fun b => (oval_behavior_get_key b, oval_behavior_get_value b))
                         (behavior :: rest))
                    None []]
        end in
      Some (mkNode object_name ns_family props None
                   (notes_nodes ++ behaviors_nodes
                    ++ map oval_object_content_to_dom
                           (oval_object_get_object_contents object)))
  end end end end end.

(** The value of an attribute of a node ([xmlTextReaderGetAttribute] on a
    reader at the node). *)
Fixpoint get_attribute (name : string) (props : list (string * string))
  : option string :=
  match props with
  | [] => None
  | (k, v) :: rest => if String.eqb k name then Some v else get_attribute name rest
  end.

(** The calls that change an object. *)
Inductive update :=
| Set_subtype (a_subtype : Z)
| Add_note (note : string)
| Set_comment (comm : option string)
| Set_deprecated (is_deprecated : bool)
| Set_version (a_version : Z)
| Add_object_content (content : oval_object_content)
| Add_behavior (behavior : oval_behavior).

Definition call (object : option oval_object) (u : update) : option oval_object :=
  match u with
  | Set_subtype a_subtype => oval_object_set_subtype object a_subtype
  | Add_note note => oval_object_add_note object note
  | Set_comment comm => oval_object_set_comment object comm
  | Set_deprecated is_deprecated => oval_object_set_deprecated object is_deprecated
  | Set_version a_version => oval_object_set_version object a_version
  | Add_object_content content => oval_object_add_object_content object content
  | Add_behavior behavior => oval_object_add_behavior object behavior
  end.

End Functions.

(** An environment to run the functions in: models are numbered and the
    even ones are locked, behaviours are pairs of a key and a value, and the
    contents of objects are names. *)
Definition sample_env : Env :=
  {| oval_definition_model := Z;
     oval_behavior := string * string;
     oval_object_content := string;
     oval_definition_model_is_locked :=
       fun mdl => match mdl with Some k => Z.even k | None => false end;
     oscap_alloc_fails := false;
     oval_behavior_clone := fun _ b => b;
     oval_object_content_clone := fun _ c => c;
     oval_behavior_is_valid := fun b => negb (String.eqb (fst b) "");
     oval_object_content_is_valid := fun c => negb (String.eqb c "");
     oval_subtype_get_text := fun t => if t =? 7006 then "textfilecontent" else "file";
     oval_family_get_text := fun f => if f =? 7000 then "independent" else "unix";
     oval_behavior_get_key := fst;
     oval_behavior_get_value := snd;
     oval_behavior_to_print := fun _ _ _ => [];
     oval_object_content_to_print := fun _ _ _ => [];
     OVAL_DEFINITIONS_NAMESPACE := "http://oval.mitre.org/XMLSchema/oval-definitions-5";
     xmlSearchNsByHref := fun href => Some href |}.

Definition sample_object : @oval_object sample_env :=
  @mkObject sample_env (Some 1) 7006 ["a note"] (Some "the hosts file")
            (Some "oval:x:obj:1") 0 3 ["path"; "filename"]
            [("max_depth", "1")].

Definition sample_content_to_dom (content : string) : xmlNode :=
  mkNode content None [] None [].

End Object.
(* ================================================================== *)
(** * A sample world, to run the walker on *)

(** A regular expression engine for patterns that are a literal text after
    an optional [^]: the subject matches when it is the text, and matches
    partially when it is a proper prefix of it. *)
Definition sample_literal (pattern : string) : string :=
  match pattern with
  | String "^" r => r
  | _ => pattern
  end.

Definition sample_pcre_exec (re : pcre) (extra : option pcre_extra)
           (subject : string) (length options : Z) : Z :=
  let s := strn length subject in
  let t := sample_literal (pcre_pattern re) in
  if String.eqb s t then 0
  else if String.prefix s t then
         if isset options PCRE_PARTIAL then PCRE_ERROR_PARTIAL else PCRE_ERROR_NOMATCH
       else PCRE_ERROR_NOMATCH.

Definition sample_firstbyte (re : pcre) (extra : option pcre_extra) : Z :=
  match pcre_pattern re with
  | String "^" _ => -2
  | String c _ => Z.of_nat (nat_of_ascii c)
  | EmptyString => -1
  end.

(** An entity matcher for the operations [equals], [not equal] and
    [pattern match] (on literal patterns). *)
Definition sample_entobj_cmp (ent : SEXP_ent) (s : string) : oval_result_t :=
  match ent_val ent with
  | Some (SEXP_string v) =>
      match ent_operation ent with
      | None | Some 1 =>
          if String.eqb v s then OVAL_RESULT_TRUE else OVAL_RESULT_FALSE
      | Some 2 =>
          if String.eqb v s then OVAL_RESULT_FALSE else OVAL_RESULT_TRUE
      | Some 11 =>
          if String.eqb (sample_literal v) s then OVAL_RESULT_TRUE else OVAL_RESULT_FALSE
      | _ => OVAL_RESULT_ERROR
      end
  | _ => OVAL_RESULT_ERROR
  end.

Definition dev_local : stat := mkStat 1.
Definition dev_remote : stat := mkStat 2.

(** The sample file system.

    [/a/b.txt], [/a/c/d.txt]; [/d/broken], a dangling link, and [/d/link],
    a link to a directory that holds [target]; [/r/x], [/r/s/y], [/r/s/t/z];
    [/mnt/local/f], and [/mnt/remote/f] on a device that is not local;
    [/vmlinuz]; [/etc/passwd], [/etc/group]; and [passwd] in the working
    directory. *)
Definition sample_fs (path : string) : node :=
  if String.eqb path "/a" then
    Dir dev_local [("b.txt", File dev_local);
                   ("c", Dir dev_local [("d.txt", File dev_local)])]
  else if String.eqb path "/d" then
    Dir dev_local [("broken", Symlink dev_local Missing);
                   ("link", Symlink dev_local
                              (Dir dev_local [("target", File dev_local)]))]
  else if String.eqb path "/r" then
    Dir dev_local [("x", File dev_local);
                   ("s", Dir dev_local
                           [("y", File dev_local);
                            ("t", Dir dev_local [("z", File dev_local)])])]
  else if String.eqb path "/mnt" then
    Dir dev_local [("local", Dir dev_local [("f", File dev_local)]);
                   ("remote", Dir dev_remote [("f", File dev_remote)])]
  else if String.eqb path "/" then
    Dir dev_local [("vmlinuz", File dev_local);
                   ("a", Dir dev_local [("b.txt", File dev_local)]);
                   ("etc", Dir dev_local [("passwd", File dev_local)])]
  else if String.eqb path "/mnt/remote" then
    Dir dev_remote [("f", File dev_remote)]
  else if String.eqb path "/etc" then
    Dir dev_local [("passwd", File dev_local); ("group", File dev_local)]
  else if String.eqb path "passwd" then File dev_local
  else Missing.

Definition sample_world : World :=
  {| pcre_compile := fun p => if String.eqb p "(" then None else Some (mkPcre p);
     pcre_study := fun _ => None;
     pcre_firstbyte := sample_firstbyte;
     pcre_exec := sample_pcre_exec;
     probe_entobj_cmp := sample_entobj_cmp;
     fs_lookup := sample_fs;
     fts_open_fails := false;
     oscap_talloc_fails := false;
     oscap_alloc_fails := false;
     fsdev_init := Some [1];
     malloc_junk := 0 |}.

(** The same world, in which no device set can be made. *)
Definition sample_world_nodevs : World :=
  {| pcre_compile := fun p => if String.eqb p "(" then None else Some (mkPcre p);
     pcre_study := fun _ => None;
     pcre_firstbyte := sample_firstbyte;
     pcre_exec := sample_pcre_exec;
     probe_entobj_cmp := sample_entobj_cmp;
     fs_lookup := sample_fs;
     fts_open_fails := false;
     oscap_talloc_fails := false;
     oscap_alloc_fails := false;
     fsdev_init := None;
     malloc_junk := 0 |}.

(** The same world, in which [fts_open] fails. *)
Definition sample_world_nofts : World :=
  {| pcre_compile := fun p => if String.eqb p "(" then None else Some (mkPcre p);
     pcre_study := fun _ => None;
     pcre_firstbyte := sample_firstbyte;
     pcre_exec := sample_pcre_exec;
     probe_entobj_cmp := sample_entobj_cmp;
     fs_lookup := sample_fs;
     fts_open_fails := true;
     oscap_talloc_fails := false;
     oscap_alloc_fails := false;
     fsdev_init := Some [1];
     malloc_junk := 0 |}.

(** A second engine, for patterns made of bytes and of classes of bytes
    [[...]], after an optional [^].  Without the [^] the pattern is looked for
    at every offset of the subject, as the engine of the library does. *)
Inductive sample_item :=
| Item_byte (c : ascii)
| Item_class (cs : list ascii).

Fixpoint sample_items (class : option (list ascii)) (pattern : string)
  : list sample_item :=
  match pattern with
  | EmptyString => []
  | String c r =>
      match class with
      | Some cs =>
          if Ascii.eqb c "]" then Item_class cs :: sample_items None r
          else sample_items (Some (c :: cs)) r
      | None =>
          if Ascii.eqb c "[" then sample_items (Some []) r
          else Item_byte c :: sample_items None r
      end
  end.

Definition item_takes (i : sample_item) (c : ascii) : bool :=
  match i with
  | Item_byte b => Ascii.eqb b c
  | Item_class cs => existsb (Ascii.eqb c) cs
  end.

(** The items against the start of the subject: 0 for a match, a partial
    match when the subject ends within the items after a byte was taken. *)
Fixpoint items_at (items : list sample_item) (s : string) (taken : bool) : Z :=
  match items, s with
  | [], _ => 0
  | _ :: _, EmptyString =>
      if taken then PCRE_ERROR_PARTIAL else PCRE_ERROR_NOMATCH
  | i :: items', String c r =>
      if item_takes i c then items_at items' r true else PCRE_ERROR_NOMATCH
  end.

(** The items at every offset; a match goes before a partial match. *)
Fixpoint items_search (items : list sample_item) (s : string) : Z :=
  let here := items_at items s false in
  match s with
  | EmptyString => here
  | String _ r =>
      if here =? 0 then 0
      else
        let later := items_search items r in
        if later =? 0 then 0
        else if here =? PCRE_ERROR_PARTIAL then PCRE_ERROR_PARTIAL else later
  end.

Definition class_pcre_exec (re : pcre) (extra : option pcre_extra)
           (subject : string) (length options : Z) : Z :=
  let s := strn length subject in
  let rc := match pcre_pattern re with
            | String "^" r => items_at (sample_items None r) s false
            | p => items_search (sample_items None p) s
            end in
  if (rc =? PCRE_ERROR_PARTIAL) && negb (isset options PCRE_PARTIAL)
  then PCRE_ERROR_NOMATCH else rc.

(** [PCRE_INFO_FIRSTBYTE] as the manual of the library has it: the first
    byte of every match when there is one fixed byte, and -2 both for a
    pattern that is anchored and for a pattern that has no fixed first byte
    (-1 is kept for patterns compiled for several lines). *)
Definition class_firstbyte (re : pcre) (extra : option pcre_extra) : Z :=
  match pcre_pattern re with
  | String "^" _ => -2
  | p =>
      match sample_items None p with
      | Item_byte c :: _ => Z.of_nat (nat_of_ascii c)
      | _ => -2
      end
  end.

(** The entity matcher, with [pattern match] left to the second engine. *)
Definition class_entobj_cmp (ent : SEXP_ent) (s : string) : oval_result_t :=
  match ent_val ent, ent_operation ent with
  | Some (SEXP_string v), Some 11 =>
      if 0 <=? class_pcre_exec (mkPcre v) None s (strlen s) 0
      then OVAL_RESULT_TRUE else OVAL_RESULT_FALSE
  | _, _ => sample_entobj_cmp ent s
  end.

(** The sample world with the second engine. *)
Definition sample_world_classes : World :=
  {| pcre_compile := fun p => Some (mkPcre p);
     pcre_study := fun _ => None;
     pcre_firstbyte := class_firstbyte;
     pcre_exec := class_pcre_exec;
     probe_entobj_cmp := class_entobj_cmp;
     fs_lookup := sample_fs;
     fts_open_fails := false;
     oscap_talloc_fails := false;
     oscap_alloc_fails := false;
     fsdev_init := Some [1];
     malloc_junk := 0 |}.

Definition sample_ent (op : option Z) (s : string) : option SEXP_ent :=
  Some (mkEnt op (Some (SEXP_string s))).

Definition sample_behaviors (depth dir : string) (fs : option string)
  : SEXP_behaviors :=
  mkBehaviors (Some depth) (Some dir) None fs.

Definition mem0 : mem := mkMem [] 0.

(** The handle that [oval_fts_open] returns in the sample world; a handle
    on nothing when it returns none. *)
Definition null_fts : OVAL_FTS :=
  mkOVAL_FTS (mkFTS 0 0 None FTS_NOINSTR []) None 0 0 None None None None None
             0 (-1) (-1) 0 (-1) None.

Definition sample_open (path filename filepath : option SEXP_ent)
           (behaviors : SEXP_behaviors) : OVAL_FTS :=
  match @oval_fts_open sample_world path filename filepath behaviors mem0 with
  | (inl ofts, _) => ofts
  | _ => null_fts
  end.

(** The records of a whole iteration in the sample world. *)
Definition sample_run (path filename filepath : option SEXP_ent)
           (behaviors : SEXP_behaviors) : list OVAL_FTSENT :=
  map fst (@oval_fts_read_all sample_world 64
                              (sample_open path filename filepath behaviors)).

(* ================================================================== *)
(** * The properties of the specification *)

Section Entities.
Context `{W : World}.

(** The directory portion of an entry, in the mode path + filename. *)
Definition dir_portion (fts_ent : FTSENT) : string :=
  strn (pathlen_from_ftse (fts_pathlen fts_ent) (fts_namelen fts_ent))
       (fts_path fts_ent).

Definition ent_accepts (ent : option SEXP_ent) (s : string) : Prop :=
  exists e, ent = Some e /\ probe_entobj_cmp e s = OVAL_RESULT_TRUE.

(** Every configured entity accepts its part of the entry.  With [strict]
    the path entity is asked whatever its operation is; without, it is not
    asked when the operation is [OVAL_OPERATION_EQUALS]. *)
Definition entities_accept (strict : bool) (ofts : OVAL_FTS) (fts_ent : FTSENT)
  : Prop :=
  let spath_accepts (s : string) :=
    strict = false /\ ofts_path_op ofts = OVAL_OPERATION_EQUALS
    \/ ent_accepts (ofts_spath ofts) s in
  match ofts_sfilepath ofts, ofts_sfilename ofts with
  | Some _, _ => ent_accepts (ofts_sfilepath ofts) (fts_path fts_ent)
  | None, Some _ =>
      spath_accepts (dir_portion fts_ent)
      /\ ent_accepts (ofts_sfilename ofts) (fts_name fts_ent)
  | None, None => spath_accepts (fts_path fts_ent)
  end.

End Entities.

(** The tags by which the driver marks an entry as a symbolic link:
    [FTS_SL], a symbolic link, and [FTS_SLNONE], a symbolic link with a
    target that does not exist. *)
Definition symlink_tag (i : fts_info_t) : bool :=
  match i with
  | FTS_SL | FTS_SLNONE => true
  | _ => false
  end.

(** The entity that carries the path: [path], or [filepath] when there is
    no [path]. *)
Definition open_entity (path filepath : option SEXP_ent) : option SEXP_ent :=
  match path with
  | Some _ => path
  | None => filepath
  end.

(** The starting root of the specification (section 4.4.1, step 4): the
    literal path under [equals], and [/] under every other operation. *)
Definition starting_root (path filepath : option SEXP_ent) (literal : string)
  : string :=
  if ent_op (open_entity path filepath) =? OVAL_OPERATION_EQUALS
  then literal else "/".

Definition work_ent (w : fts_work) : FTSENT :=
  match w with
  | Visit e _ => e
  | Leave e _ => e
  end.


(** Section 4.2, in the words of the specification: a pattern is prunable
    iff its first literal byte is [/] or the pattern is anchored at the
    start, and the engine takes the partial-match probe ([rc] is what the
    probe returned). *)
Definition is_meta (c : ascii) : bool :=
  existsb (Ascii.eqb c)
          (list_ascii_of_string "\^$.[|()?*+{").

Definition first_literal_byte (pattern : string) : option ascii :=
  match pattern with
  | String c _ => if is_meta c then None else Some c
  | EmptyString => None
  end.

Definition start_anchored (pattern : string) : bool :=
  match pattern with
  | String "^" _ => true
  | _ => false
  end.

Definition prunable_spec (pattern : string) (rc : Z) : Prop :=
  (first_literal_byte pattern = Some slash \/ start_anchored pattern = true)
  /\ rc <> PCRE_ERROR_BADPARTIAL.

(** The handle as it is when the compiled pattern has been discarded. *)
Definition regex_discarded (ofts : OVAL_FTS) : OVAL_FTS :=
  mkOVAL_FTS (ofts_fts ofts) (ofts_st_path ofts) (ofts_st_path_count ofts)
             (ofts_st_path_index ofts)
             (ofts_spath ofts) (ofts_sfilename ofts) (ofts_sfilepath ofts)
             None None (ofts_path_op ofts)
             (max_depth ofts) (direction ofts) (recurse ofts)
             (filesystem ofts) (localdevs ofts).

(** The instruction left on an entry when only the partial-match
    optimisation steers the driver. *)
Definition prune_instr `{World} (ofts : OVAL_FTS) (fts_ent : FTSENT) : fts_instr_t :=
  match oval_fts_prune ofts fts_ent with
  | Prune_nomatch => FTS_SKIP
  | Prune_partial =>
      if fts_info_eqb (fts_info fts_ent) FTS_SL then FTS_FOLLOW else FTS_NOINSTR
  | _ => FTS_NOINSTR
  end.

(** An invariant of the driver, from a property [P] of the entries it hands
    out and a licence [Q] for reading a directory.  Every entry still to
    come has [P]; the current entry has [P], and [Q] when it is a directory
    that was not told to be skipped. *)
Definition fts_inv (P Q : FTSENT -> Prop) (sp : FTS) : Prop :=
  Forall (fun w => P (work_ent w)) (fts_todo sp) /\
  match fts_cur sp with
  | Some o =>
      P (obj_ent o) /\
      (fts_info (obj_ent o) = FTS_D -> fts_instr sp <> FTS_SKIP -> Q (obj_ent o))
  | None => True
  end.

(** The path and the name of a driver entry belong together: the lengths
    are the lengths, and the path is the name alone or ends in a slash and
    the name. *)
Definition ent_wf (e : FTSENT) : Prop :=
  fts_pathlen e = strlen (fts_path e) /\
  fts_namelen e = strlen (fts_name e) /\
  (fts_path e = fts_name e
   \/ exists pre, fts_path e = (pre ++ "/" ++ fts_name e)%string).

(** Joining a path and a file with a single slash. *)
Definition join_slash (path file : string) : string :=
  (path ++ "/" ++ file)%string.

(** A driver with nothing left to return but the post-order visit of the
    current directory. *)
Definition spent (sp : FTS) : Prop :=
  fts_todo sp = [] /\
  match fts_cur sp with
  | Some o =>
      fts_instr sp <> FTS_FOLLOW /\
      (fts_info (obj_ent o) = FTS_D -> fts_instr sp = FTS_SKIP)
  | None => True
  end.

(** A driver that is spent, or has just been opened on one root. *)
Definition spent_or_fresh (sp : FTS) : Prop :=
  spent sp \/ (fts_cur sp = None /\ exists w, fts_todo sp = [w]).

(** The mode in which the path itself is the target, with no recursion. *)
Definition path_only_none (ofts : OVAL_FTS) : Prop :=
  direction ofts = OVAL_RECURSE_DIRECTION_NONE /\
  ofts_path_op ofts = OVAL_OPERATION_EQUALS /\
  ofts_sfilename ofts = None /\ ofts_sfilepath ofts = None /\
  ofts_path_regex ofts = None.

(** The entry resides on a device of the device set of the handle. *)
Definition on_local_device (ofts : OVAL_FTS) (e : FTSENT) : Prop :=
  exists lfs st,
    localdevs ofts = Some lfs /\ fts_statp e = Some st /\ In (st_dev st) lfs.

(** The level from which the entries returned have come through the
    filesystem test of the recursion step: the root is exempt when a
    filename is given. *)
Definition checked_level (ofts : OVAL_FTS) : Z :=
  if is_set (ofts_sfilename ofts) then 2 else 1.

(** The entry was read from a directory on a device of the device set. *)
Definition read_from_local_dir (ofts : OVAL_FTS) (e : FTSENT) : Prop :=
  exists p, fts_parent e = Some p /\ fts_info p = FTS_D /\ on_local_device ofts p.

Definition is_symlink (n : node) : bool :=
  match n with
  | Symlink _ _ => true
  | _ => false
  end.

(** An entry tagged as a link that was not followed stands for a link. *)
Definition work_ok (w : fts_work) : Prop :=
  match w with
  | Visit e n => fts_info e = FTS_SL -> is_symlink n = true
  | Leave _ _ => True
  end.

(** The driver as the walker keeps it: entries tagged [FTS_SL] stand for
    links, and only such an entry is told to be followed. *)
Definition fts_wf (sp : FTS) : Prop :=
  Forall work_ok (fts_todo sp) /\
  match fts_cur sp with
  | Some o =>
      (fts_info (obj_ent o) = FTS_SL -> is_symlink (obj_node o) = true) /\
      (fts_instr sp = FTS_FOLLOW -> fts_info (obj_ent o) = FTS_SL)
  | None => True
  end.

(** What a handle holds: the references to its entities, its device set,
    its compiled pattern, the stream of the driver, the structure itself and
    the starting paths. *)
Definition owned (ofts : OVAL_FTS) : list resource :=
  (if is_set (ofts_sfilepath ofts) then [Res_ref_filepath] else []) ++
  (if is_set (ofts_sfilename ofts) then [Res_ref_filename] else []) ++
  (if is_set (ofts_spath ofts) then [Res_ref_path] else []) ++
  (if is_set (localdevs ofts) then [Res_localdevs] else []) ++
  (if is_set (ofts_path_regex_extra ofts) then [Res_regex_extra] else []) ++
  (if is_set (ofts_path_regex ofts) then [Res_regex] else []) ++
  [Res_fts; Res_ofts; Res_path 0; Res_paths].

(** The walker grants the licence [Q]: a directory that a turn does not
    tell the driver to skip has [Q]. *)
Definition grants `{World} (P Q : FTSENT -> Prop) (ofts : OVAL_FTS) : Prop :=
  forall e, P e -> fts_info e = FTS_D -> turn_instr ofts e <> FTS_SKIP -> Q e.

(* ================================================================== *)
(** * Further properties of the walker *)

(** A path without the slash it may end in (what [NAPPEND] keeps of the
    path of a directory). *)
Definition strip_slash (s : string) : string :=
  match last_char s with
  | Some c => if Ascii.eqb c slash then strn (strlen s - 1) s else s
  | None => s
  end.

(** The path is the root, or lies below it. *)
Definition under_root (root s : string) : Prop :=
  s = root \/ exists rest, s = (strip_slash root ++ "/" ++ rest)%string.

(** The length fields of a record are the lengths of its strings. *)
Definition lengths_agree (ofts_ent : OVAL_FTSENT) : Prop :=
  path_len ofts_ent = strlen (path ofts_ent) /\
  match file ofts_ent with
  | Some f => file_len ofts_ent = strlen f
  | None => file_len ofts_ent = -1
  end.

(** How far below the starting root an entry can be when no directory but
    the root is entered: the root is entered only on the way to a file. *)
Definition root_reach (ofts : OVAL_FTS) : Z :=
  if is_set (ofts_sfilename ofts) then 1 else 0.

(** The number that [strtol] reads in a text, before it is brought into the
    range of [long]. *)
Definition strtol_text (s : string) : Z :=
  let s1 := skip_spaces s in
  match s1 with
  | String "-" r => - read_digits 0 r
  | String "+" r => read_digits 0 r
  | _ => read_digits 0 s1
  end.

(** The values of the behaviours and their codes (lines 227-289). *)
Definition decoded_direction (text : option string) (code : Z) : Prop :=
  text = Some "none" /\ code = OVAL_RECURSE_DIRECTION_NONE
  \/ text = Some "down" /\ code = OVAL_RECURSE_DIRECTION_DOWN
  \/ text = Some "up" /\ code = OVAL_RECURSE_DIRECTION_UP.

Definition decoded_recurse (text : option string) (code : Z) : Prop :=
  text = None /\ code = OVAL_RECURSE_SYMLINKS_AND_DIRS
  \/ text = Some "symlinks and directories" /\ code = OVAL_RECURSE_SYMLINKS_AND_DIRS
  \/ text = Some "files and directories" /\ code = OVAL_RECURSE_FILES_AND_DIRS
  \/ text = Some "symlinks" /\ code = OVAL_RECURSE_SYMLINKS
  \/ text = Some "directories" /\ code = OVAL_RECURSE_DIRS.

(** [options] are the options that the driver is opened with. *)
Definition decoded_filesystem (text : option string) (code options : Z) : Prop :=
  text = None /\ code = OVAL_RECURSE_FS_ALL
    /\ options = Z.lor FTS_PHYSICAL FTS_COMFOLLOW
  \/ text = Some "local" /\ code = OVAL_RECURSE_FS_LOCAL
    /\ options = Z.lor FTS_PHYSICAL FTS_COMFOLLOW
  \/ text = Some "all" /\ code = OVAL_RECURSE_FS_ALL
    /\ options = Z.lor FTS_PHYSICAL FTS_COMFOLLOW
  \/ text = Some "defined" /\ code = OVAL_RECURSE_FS_DEFINED
    /\ options = Z.lor (Z.lor FTS_PHYSICAL FTS_COMFOLLOW) FTS_XDEV.

(** The behaviours that [oval_fts_open] takes (lines 209-293): [max_depth]
    holds a number in the range of [long], and each of the others one of its
    texts. *)
Definition behaviors_accepted (behaviors : SEXP_behaviors) : Prop :=
  (exists s, bh_max_depth behaviors = Some s /\
             LONG_MIN <= strtol_text s <= LONG_MAX) /\
  (exists code, decoded_direction (bh_recurse_direction behaviors) code) /\
  (exists code, decoded_recurse (bh_recurse behaviors) code) /\
  (exists code options,
      decoded_filesystem (bh_recurse_file_system behaviors) code options).

(** The calls that [oval_fts_open] takes.  Either a path is given and no
    filepath, or a filepath alone.  The entity that carries the path has a
    string that is not empty, which compiles when it is a pattern.  With a
    path, the filename has a string (which may be empty), the behaviours are
    as above, [errno] does not hold [EINVAL] or [ERANGE] from before, and
    the device set can be made when the filesystem is [local].  Memory is
    there for the starting paths, the structure and the stream. *)
Definition open_accepts `{World} (path filename filepath : option SEXP_ent)
           (behaviors : SEXP_behaviors) (m : mem) : Prop :=
  match path, filepath with
  | Some _, None =>
      PROBE_ENT_STRVAL filename <> Strval_invalid /\
      errno m <> EINVAL /\ errno m <> ERANGE /\
      behaviors_accepted behaviors /\
      (bh_recurse_file_system behaviors = Some "local" -> fsdev_init <> None)
  | None, Some _ => filename = None
  | _, _ => False
  end /\
  (exists literal,
      ent_string (open_entity path filepath) = Some literal /\
      (ent_op (open_entity path filepath) = OVAL_OPERATION_PATTERN_MATCH ->
       pcre_compile literal <> None)) /\
  oscap_alloc_fails = false /\ oscap_talloc_fails = false /\
  fts_open_fails = false.

(* ================================================================== *)
(** * The traversal as a whole *)

(** What the driver puts in front of the work left, once it has handed out
    the entry [p] for the object [n] and been given the instruction [instr]:
    the branches of [fts_read]. *)
Definition fts_expand (options dev : Z) (instr : fts_instr_t) (p : FTSENT)
           (n : node) : list fts_work :=
  match instr, fts_info p with
  | FTS_FOLLOW, FTS_SL | FTS_FOLLOW, FTS_SLNONE =>
      let '(info, st, obj) := fts_stat true n in
      [Visit (mkFTSENT info (fts_path p) (fts_pathlen p) (fts_name p)
                       (fts_namelen p) (fts_level p) (Some st) (fts_parent p)) obj]
  | FTS_SKIP, FTS_D => [Leave p n]
  | _, FTS_D =>
      if isset options FTS_XDEV && negb (ent_dev p =? dev) then [Leave p n]
      else match n with
           | Dir _ (en :: ens) => fts_build p (en :: ens) ++ [Leave p n]
           | _ => [Leave p n]
           end
  | _, _ => []
  end.

(** The entries that the driver hands out for a piece of work, in order,
    when [steer] gives the instruction for each entry handed out: the entry,
    and then what comes of the work put in front of the rest.  [fuel] bounds
    the depth. *)
Fixpoint fts_walk (options dev : Z) (steer : FTSENT -> fts_instr_t)
         (fuel : nat) (w : fts_work) : list FTSENT :=
  match fuel with
  | O => []
  | S f =>
      match w with
      | Leave d _ => [set_info FTS_DP d]
      | Visit e n =>
          e :: flat_map (fts_walk options dev steer f)
                        (fts_expand options dev (steer e) e n)
      end
  end.

(** An entry that a turn of the loop reports (lines 399-482). *)
Definition reported `{World} (ofts : OVAL_FTS) (fts_ent : FTSENT) : bool :=
  match fts_info fts_ent with
  | FTS_DP | FTS_DC => false
  | _ =>
      match oval_fts_prune ofts fts_ent with
      | Prune_none => oval_fts_match ofts fts_ent
      | _ => false
      end
  end.

(** The entries that the driver hands out in a whole iteration on a handle
    just opened, steered by the turns of the loop. *)
Definition oval_fts_walk `{World} (ofts : OVAL_FTS) : list FTSENT :=
  flat_map (fun w => fts_walk (fts_options (ofts_fts ofts)) (ent_dev (work_ent w))
                              (turn_instr ofts) (S (work_weight w)) w)
           (fts_todo (ofts_fts ofts)).

(** The records of a whole iteration, each with the driver entry it was made
    from. *)
Definition oval_fts_expected `{World} (ofts : OVAL_FTS)
  : list (OVAL_FTSENT * option FTSENT) :=
  map (fun e => (OVAL_FTSENT_new ofts e, Some e))
      (filter (reported ofts) (oval_fts_walk ofts)).

(** The driver as a stack of work. *)
Inductive drains (options dev : Z) (steer : FTSENT -> fts_instr_t)
  : list fts_work -> list FTSENT -> Prop :=
| drains_nil : drains options dev steer [] []
| drains_visit e n rest l :
    drains options dev steer (fts_expand options dev (steer e) e n ++ rest) l ->
    drains options dev steer (Visit e n :: rest) (e :: l)
| drains_leave d n rest l :
    drains options dev steer rest l ->
    drains options dev steer (Leave d n :: rest) (set_info FTS_DP d :: l).

(** The driver, read to the end under the instructions of [steer]. *)
Inductive fts_run (steer : FTSENT -> fts_instr_t) : FTS -> list FTSENT -> Prop :=
| fts_run_end sp sp' :
    fts_read sp = (None, sp') -> fts_run steer sp []
| fts_run_step sp sp' e l :
    fts_read sp = (Some e, sp') ->
    fts_run steer (fts_set sp' e (steer e)) l ->
    fts_run steer sp (e :: l).

(** The work that the driver has in front of it. *)
Definition pending (sp : FTS) : list fts_work :=
  match fts_cur sp with
  | Some (mkObj p n) =>
      fts_expand (fts_options sp) (fts_dev sp) (fts_instr sp) p n ++ fts_todo sp
  | None => fts_todo sp
  end.

(** Below the starting roots. *)
Definition visit_below (w : fts_work) : Prop :=
  match w with
  | Visit e _ => 0 < fts_level e
  | Leave _ _ => True
  end.

(** The entries below a starting root that the driver comes to: the root;
    what a directory holds, when the directory is not told to be skipped and
    is on the device of the root if devices are not to be crossed; and what
    a link resolves to, when the link is told to be followed. *)
Inductive comes_to (options dev : Z) (steer : FTSENT -> fts_instr_t)
          (e0 : FTSENT) (n0 : node) : FTSENT -> node -> Prop :=
| comes_to_root : comes_to options dev steer e0 n0 e0 n0
| comes_to_entry p st ens name c :
    comes_to options dev steer e0 n0 p (Dir st ens) ->
    fts_info p = FTS_D ->
    steer p <> FTS_SKIP ->
    isset options FTS_XDEV && negb (ent_dev p =? dev) = false ->
    In (name, c) ens ->
    comes_to options dev steer e0 n0 (work_ent (fts_child p name c)) c
| comes_to_target p l info st obj :
    comes_to options dev steer e0 n0 p l ->
    fts_info p = FTS_SL ->
    steer p = FTS_FOLLOW ->
    fts_stat true l = (info, st, obj) ->
    comes_to options dev steer e0 n0
             (mkFTSENT info (fts_path p) (fts_pathlen p) (fts_name p)
                       (fts_namelen p) (fts_level p) (Some st) (fts_parent p)) obj.
(* ================================================================== *)
(*                                                                    *)
(*   Part II.  Lemmas and theorems                                    *)
(*                                                                    *)
(* ================================================================== *)
(** * Facts about the driver and one turn of the loop *)

Lemma fts_info_eqb_eq (a b : fts_info_t) : fts_info_eqb a b = true <-> a = b.
Proof. destruct a, b; simpl; split; intro E; congruence. Qed.

Lemma fts_info_eqb_neq (a b : fts_info_t) : fts_info_eqb a b = false <-> a <> b.
Proof. destruct a, b; simpl; split; intro E; congruence. Qed.

Lemma set_fts_fts (ofts : OVAL_FTS) (sp : FTS) : ofts_fts (set_fts ofts sp) = sp.
Proof. reflexivity. Qed.

Lemma set_fts_set_fts (ofts : OVAL_FTS) (sp sp' : FTS) :
  set_fts (set_fts ofts sp) sp' = set_fts ofts sp'.
Proof. reflexivity. Qed.

Lemma set_fts_self (ofts : OVAL_FTS) : set_fts ofts (ofts_fts ofts) = ofts.
Proof. destruct ofts; reflexivity. Qed.


Lemma last_nonempty {A : Type} (x : A) (l : list A) (d d' : A) :
  last (x :: l) d = last (x :: l) d'.
Proof.
  revert x. induction l as [|y l IH]; intros x; [reflexivity|].
  change (last (y :: l) d = last (y :: l) d'). apply IH.
Qed.

Lemma fts_set_all_spec (fts_ent : FTSENT) (l : list fts_instr_t) (sp : FTS) :
  fts_set_all sp fts_ent l =
  mkFTS (fts_options sp) (fts_dev sp) (fts_cur sp) (last l (fts_instr sp)) (fts_todo sp).
Proof.
  unfold fts_set_all. revert sp.
  induction l as [|i l IH]; intros sp.
  - destruct sp; reflexivity.
  - cbn [fold_left]. rewrite IH. unfold fts_set; cbn [fts_options fts_dev fts_cur fts_instr fts_todo].
    f_equal. destruct l as [|j l]; [reflexivity|].
    change (last (j :: l) i = last (j :: l) (fts_instr sp)). apply last_nonempty.
Qed.

(** What [fts_read] leaves behind when it returns an entry: the entry is the
    current one and carries no instruction. *)
Lemma fts_next_some (sp sp' : FTS) (e : FTSENT) :
  fts_next sp = (Some e, sp') ->
  fts_instr sp' = FTS_NOINSTR /\
  fts_options sp' = fts_options sp /\
  exists w rest n, fts_todo sp = w :: rest /\ fts_todo sp' = rest /\
                   fts_cur sp' = Some (mkObj e n) /\
                   ((w = Visit e n) \/ (exists d, w = Leave d n /\ e = set_info FTS_DP d)).
Proof.
  unfold fts_next. destruct (fts_todo sp) as [|[e0 n0|d n0] rest] eqn:E; intro H;
    inversion H; subst; clear H; simpl; repeat split.
  - exists (Visit e n0), rest, n0. repeat split; auto.
  - exists (Leave d n0), rest, n0. repeat split; auto. right. exists d. auto.
Qed.

Lemma fts_read_some (sp sp' : FTS) (e : FTSENT) :
  fts_read sp = (Some e, sp') ->
  fts_instr sp' = FTS_NOINSTR /\ fts_options sp' = fts_options sp /\
  exists n, fts_cur sp' = Some (mkObj e n).
Proof.
  unfold fts_read. intro H.
  assert (Hn : forall sp0, fts_options sp0 = fts_options sp ->
               fts_next sp0 = (Some e, sp') ->
               fts_instr sp' = FTS_NOINSTR /\ fts_options sp' = fts_options sp /\
               exists n, fts_cur sp' = Some (mkObj e n)).
  { intros sp0 Ho Hx. apply fts_next_some in Hx.
    destruct Hx as (Hi & Ho' & w & rest & n & _ & _ & Hc & _).
    repeat split; try congruence. exists n. exact Hc. }
  destruct (fts_cur sp) as [[p n]|]; [|apply (Hn sp); auto].
  destruct (fts_stat true n) as [[info st] obj] eqn:Es.
  assert (Hl : (Some (set_info FTS_DP p),
                mkFTS (fts_options sp) (fts_dev sp)
                      (Some (mkObj (set_info FTS_DP p) n)) FTS_NOINSTR (fts_todo sp))
               = (Some e, sp') ->
               fts_instr sp' = FTS_NOINSTR /\ fts_options sp' = fts_options sp /\
               exists n, fts_cur sp' = Some (mkObj e n)).
  { intro Hx. inversion Hx; subst; simpl. repeat split. eexists; reflexivity. }
  destruct (fts_instr sp), (fts_info p);
    try (apply (Hn sp); [reflexivity|exact H]);
    try (apply Hl; exact H);
    try (inversion H; subst; simpl; repeat split; eexists; reflexivity);
    try (destruct (isset (fts_options sp) FTS_XDEV && negb (ent_dev p =? fts_dev sp));
         [apply Hl; exact H|];
         destruct n as [|?|? [|en ens]|? ?|?]; try (apply Hl; exact H);
         eapply Hn; [|exact H]; reflexivity).
Qed.

Section Turn.
Context `{W : World}.


Lemma oval_fts_turn_entry (ofts : OVAL_FTS) (e : FTSENT) (sp : FTS) :
  fts_read (ofts_fts ofts) = (Some e, sp) ->
  (oval_fts_turn ofts = Turn_break (OVAL_FTSENT_new ofts e) (after_turn ofts e sp)
   /\ oval_fts_match ofts e = true
   /\ oval_fts_prune ofts e = Prune_none
   /\ fts_info e <> FTS_DP /\ fts_info e <> FTS_DC)
  \/ oval_fts_turn ofts = Turn_continue (after_turn ofts e sp)
  \/ oval_fts_turn ofts = Turn_null (after_turn ofts e sp).
Proof.
  intro Hr. unfold oval_fts_turn, after_turn, turn_instr. rewrite Hr.
  destruct (fts_read_some _ Hr) as (Hi & _ & _).
  assert (Hsp : sp = mkFTS (fts_options sp) (fts_dev sp) (fts_cur sp)
                           FTS_NOINSTR (fts_todo sp))
    by (destruct sp; simpl in *; subst; reflexivity).
  assert (Hgen :
    match oval_fts_prune ofts e with
    | Prune_nomatch => FTS_SKIP
    | Prune_partial =>
        if fts_info_eqb (fts_info e) FTS_SL then FTS_FOLLOW else FTS_NOINSTR
    | Prune_error => FTS_NOINSTR
    | Prune_none => final_instr (oval_fts_recurse ofts e)
    end = turn_instr ofts e \/ fts_info e = FTS_DP \/ fts_info e = FTS_DC).
  { unfold turn_instr. destruct (fts_info e); auto. }
  destruct (fts_info e) eqn:Ei;
    try (right; left; rewrite Hsp at 1; reflexivity);
    (destruct (oval_fts_prune ofts e) eqn:Ep;
     [ rewrite fts_set_all_spec, Hi; fold (final_instr (oval_fts_recurse ofts e));
       destruct (oval_fts_match ofts e) eqn:Em;
       [ left; repeat split; congruence | right; left; reflexivity ]
     | right; left; reflexivity
     | right; left; simpl fts_info_eqb; cbv iota; try reflexivity;
       rewrite Hsp at 1; reflexivity
     | right; right; rewrite Hsp at 1; reflexivity ]).
Qed.

Lemma oval_fts_turn_end (ofts : OVAL_FTS) (sp : FTS) :
  fts_read (ofts_fts ofts) = (None, sp) ->
  oval_fts_turn ofts = Turn_null (set_fts ofts sp).
Proof. intro Hr. unfold oval_fts_turn. rewrite Hr. reflexivity. Qed.


Lemma oval_fts_read_loop_some (fuel : nat) (ofts ofts' : OVAL_FTS)
      (r : option OVAL_FTSENT) :
  oval_fts_read_loop fuel ofts = Some (r, ofts') ->
  exists ofts1, continues ofts ofts1 /\
    match r with
    | Some ofts_ent => oval_fts_turn ofts1 = Turn_break ofts_ent ofts'
    | None => oval_fts_turn ofts1 = Turn_null ofts'
    end.
Proof.
  revert ofts. induction fuel as [|fuel IH]; intros ofts H; [discriminate|].
  simpl in H. destruct (oval_fts_turn ofts) as [o|o|e o] eqn:Et.
  - inversion H; subst. exists ofts. split; [constructor|exact Et].
  - destruct (IH _ H) as (o1 & Hc & Hr). exists o1. split; [|exact Hr].
    econstructor; eassumption.
  - inversion H; subst. exists ofts. split; [constructor|exact Et].
Qed.

Lemma oval_fts_read_some (ofts ofts' : OVAL_FTS) (ofts_ent : OVAL_FTSENT) :
  oval_fts_read ofts = (Some ofts_ent, ofts') ->
  exists ofts1, continues ofts ofts1 /\
                oval_fts_turn ofts1 = Turn_break ofts_ent ofts'.
Proof.
  unfold oval_fts_read. intro H.
  destruct (oval_fts_read_loop _ ofts) as [[r o]|] eqn:El; [|discriminate].
  inversion H; subst. apply (oval_fts_read_loop_some _ _ El).
Qed.

(** An entry is returned by the turn that has read it from the driver. *)
Lemma oval_fts_turn_break (ofts ofts' : OVAL_FTS) (ofts_ent : OVAL_FTSENT) :
  oval_fts_turn ofts = Turn_break ofts_ent ofts' ->
  exists fts_ent sp,
    fts_read (ofts_fts ofts) = (Some fts_ent, sp) /\
    ofts' = after_turn ofts fts_ent sp /\
    ofts_ent = OVAL_FTSENT_new ofts fts_ent /\
    last_entry ofts' = Some fts_ent /\
    oval_fts_match ofts fts_ent = true /\
    oval_fts_prune ofts fts_ent = Prune_none /\
    fts_info fts_ent <> FTS_DP /\ fts_info fts_ent <> FTS_DC.
Proof.
  intro Ht. destruct (fts_read (ofts_fts ofts)) as [[e|] sp] eqn:Hr.
  - destruct (oval_fts_turn_entry _ Hr) as [(Hb & Hm & Hp & Hd1 & Hd2)|[Hc|Hn]];
      try congruence.
    rewrite Hb in Ht. inversion Ht; subst. exists e, sp.
    repeat split; auto.
    unfold last_entry, after_turn. simpl.
    destruct (fts_read_some _ Hr) as (_ & _ & n & Hc). rewrite Hc. reflexivity.
  - rewrite (oval_fts_turn_end _ Hr) in Ht. discriminate.
Qed.


Lemma same_config_refl (ofts : OVAL_FTS) : same_config ofts ofts.
Proof. unfold same_config. symmetry. apply set_fts_self. Qed.

Lemma same_config_trans (a b c : OVAL_FTS) :
  same_config a b -> same_config b c -> same_config a c.
Proof. unfold same_config. intros H1 H2. rewrite H2, H1. reflexivity. Qed.

Lemma oval_fts_turn_config (ofts : OVAL_FTS) :
  match oval_fts_turn ofts with
  | Turn_null o | Turn_continue o | Turn_break _ o => same_config ofts o
  end.
Proof.
  destruct (fts_read (ofts_fts ofts)) as [[e|] sp] eqn:Hr.
  - destruct (oval_fts_turn_entry _ Hr) as [(Hb & _)|[Hc|Hn]];
      [rewrite Hb|rewrite Hc|rewrite Hn]; reflexivity.
  - rewrite (oval_fts_turn_end _ Hr). reflexivity.
Qed.

Lemma continues_config (ofts ofts' : OVAL_FTS) :
  continues ofts ofts' -> same_config ofts ofts'.
Proof.
  induction 1 as [o|o o1 o2 Ht _ IH]; [apply same_config_refl|].
  pose proof (oval_fts_turn_config o) as Hc. rewrite Ht in Hc.
  eapply same_config_trans; eassumption.
Qed.

Lemma oval_fts_read_config (ofts ofts' : OVAL_FTS) (r : option OVAL_FTSENT) :
  oval_fts_read ofts = (r, ofts') -> same_config ofts ofts'.
Proof.
  unfold oval_fts_read. intro H.
  destruct (oval_fts_read_loop _ ofts) as [[r0 o]|] eqn:El.
  - inversion H; subst. destruct (oval_fts_read_loop_some _ _ El) as (o1 & Hc & Hr).
    apply continues_config in Hc.
    pose proof (oval_fts_turn_config o1) as Hk.
    destruct r; rewrite Hr in Hk; eapply same_config_trans; eassumption.
  - inversion H; subst. apply same_config_refl.
Qed.

Lemma walked_config (ofts0 ofts : OVAL_FTS) :
  walked ofts0 ofts -> same_config ofts0 ofts.
Proof.
  induction 1 as [|o e o' _ IH Hr]; [apply same_config_refl|].
  eapply same_config_trans; [exact IH|]. eapply oval_fts_read_config; eassumption.
Qed.

(** An invariant of the turns holds of every handle of an iteration. *)
Lemma walked_invariant (I : OVAL_FTS -> Prop) (ofts0 : OVAL_FTS) :
  (forall o o', I o -> oval_fts_turn o = Turn_continue o' -> I o') ->
  (forall o e o', I o -> oval_fts_turn o = Turn_break e o' -> I o') ->
  I ofts0 ->
  forall ofts, walked ofts0 ofts -> I ofts.
Proof.
  intros Hc Hb H0 ofts Hw. induction Hw as [|o e o' _ IH Hr]; [exact H0|].
  destruct (oval_fts_read_some _ Hr) as (o1 & Hk & Ht).
  apply (Hb o1 e o'); [|exact Ht].
  clear Ht Hr. induction Hk as [o|o oa ob Ht _ IHk]; [exact IH|].
  apply IHk. eapply Hc; eassumption.
Qed.

Lemma continues_invariant (I : OVAL_FTS -> Prop) (ofts ofts' : OVAL_FTS) :
  (forall o o', I o -> oval_fts_turn o = Turn_continue o' -> I o') ->
  I ofts -> continues ofts ofts' -> I ofts'.
Proof.
  intros Hc H0 Hk. induction Hk as [o|o oa ob Ht _ IHk]; [exact H0|].
  apply IHk. eapply Hc; eassumption.
Qed.

End Turn.

(* ================================================================== *)
(** * What every returned entry went through *)

Section Yield.
Context `{W : World}.

Lemma oval_fts_match_config (a b : OVAL_FTS) (e : FTSENT) :
  same_config a b -> oval_fts_match b e = oval_fts_match a e.
Proof. unfold same_config. intros ->. reflexivity. Qed.

Lemma oval_fts_prune_config (a b : OVAL_FTS) (e : FTSENT) :
  same_config a b -> oval_fts_prune b e = oval_fts_prune a e.
Proof. unfold same_config. intros ->. reflexivity. Qed.

Lemma oval_fts_recurse_config (a b : OVAL_FTS) (e : FTSENT) :
  same_config a b -> oval_fts_recurse b e = oval_fts_recurse a e.
Proof. unfold same_config. intros ->. reflexivity. Qed.

Lemma turn_instr_config (a b : OVAL_FTS) (e : FTSENT) :
  same_config a b -> turn_instr b e = turn_instr a e.
Proof. unfold same_config. intros ->. reflexivity. Qed.

Lemma OVAL_FTSENT_new_config (a b : OVAL_FTS) (e : FTSENT) :
  same_config a b -> OVAL_FTSENT_new b e = OVAL_FTSENT_new a e.
Proof. unfold same_config. intros ->. reflexivity. Qed.

(** A record returned by [oval_fts_read] was made from the entry the driver
    returned last, and that entry went through the partial-match test and
    the candidate evaluation. *)
Lemma oval_fts_read_yield (ofts ofts' : OVAL_FTS) (ofts_ent : OVAL_FTSENT) :
  oval_fts_read ofts = (Some ofts_ent, ofts') ->
  exists fts_ent,
    last_entry ofts' = Some fts_ent /\
    ofts_ent = OVAL_FTSENT_new ofts fts_ent /\
    oval_fts_match ofts fts_ent = true /\
    oval_fts_prune ofts fts_ent = Prune_none /\
    fts_info fts_ent <> FTS_DP /\ fts_info fts_ent <> FTS_DC /\
    fts_instr (ofts_fts ofts') = final_instr (oval_fts_recurse ofts fts_ent).
Proof.
  intro Hr. destruct (oval_fts_read_some _ Hr) as (o1 & Hk & Ht).
  apply continues_config in Hk.
  destruct (oval_fts_turn_break _ Ht) as (e & sp & _ & Ho & He & Hl & Hm & Hp & Hd1 & Hd2).
  exists e. rewrite (oval_fts_match_config _ Hk) in Hm.
  rewrite (oval_fts_prune_config _ Hk) in Hp.
  rewrite (OVAL_FTSENT_new_config _ Hk) in He.
  repeat split; auto.
  rewrite Ho. unfold after_turn. simpl. rewrite (turn_instr_config _ Hk).
  unfold turn_instr. rewrite Hp. destruct (fts_info e); congruence.
Qed.

End Yield.

(* ================================================================== *)
(** * Inversion of [oval_fts_open] *)

Lemma bind_inl {A B : Type} (c : M A) (k : A -> M B) (m m2 : mem) (b : B) :
  bind c k m = (inl b, m2) ->
  exists a m1, c m = (inl a, m1) /\ k a m1 = (inl b, m2).
Proof.
  unfold bind. destruct (c m) as [[a|e] m1]; intro H; [|discriminate].
  exists a, m1. split; [reflexivity|exact H].
Qed.

Lemma ret_inl {A : Type} (a b : A) (m m' : mem) :
  ret a m = (inl b, m') -> b = a /\ m' = m.
Proof. unfold ret. intro H. inversion H. split; reflexivity. Qed.

Lemma when_inl (b : bool) (c : M unit) (m m' : mem) (u : unit) :
  when b c m = (inl u, m') -> (b = false /\ m' = m) \/ (b = true /\ c m = (inl u, m')).
Proof.
  destruct b; simpl; intro H; [right; split; [reflexivity|exact H]|].
  left. apply ret_inl in H. destruct H as [_ ->]. split; reflexivity.
Qed.

(** A guard that ends in a crash has not been entered when the run goes on. *)
Lemma when_segv_inl (b : bool) (c : M unit) (m m' : mem) (u : unit) :
  when b (c ;;; segv) m = (inl u, m') -> b = false /\ m' = m.
Proof.
  intro H. apply when_inl in H. destruct H as [H|[_ H]]; [exact H|].
  apply bind_inl in H. destruct H as (a & m1 & _ & H). discriminate.
Qed.

(** Takes a successful run of a sequence apart, one step at a time. *)
Ltac bind_step H :=
  let a := fresh "a" in
  let m := fresh "m" in
  let Hc := fresh "Hc" in
  apply bind_inl in H; destruct H as (a & m & Hc & H).

Tactic Notation "bind_inv" hyp(H) "as" ident(a) ident(Hc) :=
  let m := fresh "m" in
  apply bind_inl in H; destruct H as (a & m & Hc & H).

Tactic Notation "bind_mem" hyp(H) "as" ident(a) ident(m) ident(Hc) :=
  apply bind_inl in H; destruct H as (a & m & Hc & H).

Section OpenInversion.
Context `{W : World}.

Lemma parse_behaviors_inl (behaviors : SEXP_behaviors) (fts_options : Z)
      (m m' : mem) (b : parsed_behaviors) :
  parse_behaviors behaviors fts_options m = (inl b, m') ->
  (p_direction b = OVAL_RECURSE_DIRECTION_NONE
   \/ p_direction b = OVAL_RECURSE_DIRECTION_DOWN
   \/ p_direction b = OVAL_RECURSE_DIRECTION_UP)
  /\ (p_fts_options b = fts_options
      \/ p_fts_options b = Z.lor fts_options FTS_XDEV)
  /\ (p_filesystem b = OVAL_RECURSE_FS_LOCAL
      <-> bh_recurse_file_system behaviors = Some "local").
Proof.
  unfold parse_behaviors. intro H.
  bind_step H. bind_step H. bind_step H. bind_step H. bind_step H.
  bind_step H. bind_step H. bind_step H. bind_step H. bind_step H.
  apply ret_inl in H. destruct H as [-> _]. simpl.
  split; [|split].
  - clear - Hc5.
    destruct (String.eqb a4 "none"); [apply ret_inl in Hc5; tauto|].
    destruct (String.eqb a4 "down"); [apply ret_inl in Hc5; tauto|].
    destruct (String.eqb a4 "up"); [apply ret_inl in Hc5; tauto|].
    discriminate.
  - clear - Hc8.
    destruct (bh_recurse_file_system behaviors) as [s|];
      [|apply ret_inl in Hc8; destruct Hc8 as [-> _]; left; reflexivity].
    bind_step Hc8. bind_step Hc8. bind_step Hc8.
    apply ret_inl in Hc8. destruct Hc8 as [-> _].
    destruct (String.eqb s "local"); [apply ret_inl in Hc0; destruct Hc0 as [-> _]; auto|].
    destruct (String.eqb s "all"); [apply ret_inl in Hc0; destruct Hc0 as [-> _]; auto|].
    destruct (String.eqb s "defined"); [apply ret_inl in Hc0; destruct Hc0 as [-> _]; auto|].
    discriminate.
  - clear - Hc8.
    destruct (bh_recurse_file_system behaviors) as [s|].
    + bind_step Hc8. bind_step Hc8. bind_step Hc8.
      apply ret_inl in Hc8. destruct Hc8 as [-> _].
      destruct (String.eqb s "local") eqn:E1.
      { apply ret_inl in Hc0. destruct Hc0 as [-> _]. simpl.
        apply String.eqb_eq in E1. subst. split; reflexivity. }
      assert (Hne : Some s <> Some "local").
      { intro Hs. inversion Hs. subst. discriminate. }
      destruct (String.eqb s "all");
        [apply ret_inl in Hc0; destruct Hc0 as [-> _]; simpl; split; [discriminate|tauto]|].
      destruct (String.eqb s "defined");
        [apply ret_inl in Hc0; destruct Hc0 as [-> _]; simpl; split; [discriminate|tauto]|].
      discriminate.
    + apply ret_inl in Hc8. destruct Hc8 as [-> _]. simpl.
      split; discriminate.
Qed.

Lemma open_regex_inl (cstr_path : string) (m m' : mem)
      (re : option pcre * option pcre_extra) :
  open_regex cstr_path m = (inl re, m') ->
  exists regex, pcre_compile cstr_path = Some regex /\
    re = if prunable (pcre_firstbyte regex (pcre_study regex))
                     (pcre_exec regex (pcre_study regex) "/f0o/bar/baz" 12 PCRE_PARTIAL)
         then (Some regex, pcre_study regex) else (None, None).
Proof.
  unfold open_regex. destruct (pcre_compile cstr_path) as [regex|]; [|discriminate].
  intro H. exists regex. split; [reflexivity|].
  bind_step H. bind_step H.
  destruct (prunable _ _).
  - apply ret_inl in H. destruct H as [-> _]. reflexivity.
  - bind_step H. bind_step H. apply ret_inl in H. destruct H as [-> _]. reflexivity.
Qed.

Lemma OVAL_FTS_new_inl (paths : list string) (count options : Z) (m m' : mem)
      (ofts : OVAL_FTS) (r : option OVAL_FTS) :
  OVAL_FTS_new paths count options m = (inl r, m') ->
  r = Some ofts ->
  ofts = mkOVAL_FTS (mkFTS options 0 None FTS_NOINSTR
                           (map (fun p => fts_root options p (fs_lookup p)) paths))
                    (Some paths) count 0 None None None None None 0
                    (-1) (-1) malloc_junk (-1) None.
Proof.
  unfold OVAL_FTS_new, fts_open. intros H ->. bind_step H. bind_step H.
  destruct (fts_open_fails || existsb (String.eqb "") paths).
  - bind_step H. apply ret_inl in H. destruct H as [H _]. discriminate.
  - bind_step H. apply ret_inl in H. destruct H as [H _]. inversion H. reflexivity.
Qed.

(** What [oval_fts_open] has put into the handle it returns. *)
Lemma oval_fts_open_inl (path filename filepath : option SEXP_ent)
      (behaviors : SEXP_behaviors) (m m' : mem) (ofts : OVAL_FTS) :
  oval_fts_open path filename filepath behaviors m = (inl ofts, m') ->
  exists cstr_path options,
    ent_string (open_entity path filepath) = Some cstr_path /\
    ofts_path_op ofts = ent_op (open_entity path filepath) /\
    ofts_st_path ofts = Some [starting_root path filepath cstr_path] /\
    ofts_st_path_count ofts = 1 /\
    ofts_fts ofts =
      mkFTS options 0 None FTS_NOINSTR
            [fts_root options (starting_root path filepath cstr_path)
                      (fs_lookup (starting_root path filepath cstr_path))] /\
    isset options FTS_COMFOLLOW = true /\
    (ofts_path_op ofts <> OVAL_OPERATION_PATTERN_MATCH ->
     ofts_path_regex ofts = None /\ ofts_path_regex_extra ofts = None) /\
    (ofts_path_op ofts = OVAL_OPERATION_PATTERN_MATCH ->
     exists regex, pcre_compile cstr_path = Some regex /\
       (ofts_path_regex ofts, ofts_path_regex_extra ofts) =
       if prunable (pcre_firstbyte regex (pcre_study regex))
                   (pcre_exec regex (pcre_study regex) "/f0o/bar/baz" 12 PCRE_PARTIAL)
       then (Some regex, pcre_study regex) else (None, None)) /\
    match path with
    | Some _ =>
        filepath = None /\
        ofts_spath ofts = path /\ ofts_sfilepath ofts = None /\
        (ofts_sfilename ofts = None /\ PROBE_ENT_STRVAL filename = Strval_zerolen
         \/ ofts_sfilename ofts = filename /\ ent_string filename <> None) /\
        (direction ofts = OVAL_RECURSE_DIRECTION_NONE
         \/ direction ofts = OVAL_RECURSE_DIRECTION_DOWN
         \/ direction ofts = OVAL_RECURSE_DIRECTION_UP) /\
        (filesystem ofts = OVAL_RECURSE_FS_LOCAL <->
         bh_recurse_file_system behaviors = Some "local") /\
        (if filesystem ofts =? OVAL_RECURSE_FS_LOCAL
         then exists lfs, fsdev_init = Some lfs /\ localdevs ofts = Some lfs
         else localdevs ofts = None)
    | None =>
        filename = None /\ filepath <> None /\
        ofts_sfilepath ofts = filepath /\
        ofts_spath ofts = None /\ ofts_sfilename ofts = None /\
        max_depth ofts = -1 /\ direction ofts = -1 /\ filesystem ofts = -1 /\
        recurse ofts = malloc_junk /\ localdevs ofts = None
    end.
Proof.
  unfold oval_fts_open. intro H.
  bind_inv H as u Hpre.
  apply when_inl in Hpre. destruct Hpre as [[Hpre _]|[_ Hpre]]; [|discriminate].
  bind_inv H as path_op Hop. bind_inv H as cfg Hcfg.
  destruct cfg as [[cstr_path nilfilename] b].
  bind_inv H as u0 Hq0.
  bind_inv H as u1 Hq1. bind_inv H as u2 Hq2. bind_inv H as new Hnew.
  bind_inv H as o Ho. bind_inv H as re Hre.
  destruct new as [o'|]; [|discriminate].
  apply ret_inl in Ho. destruct Ho as [-> _].
  pose proof (OVAL_FTS_new_inl _ _ _ _ Hnew eq_refl) as Ho. clear Hnew Hq0 Hq1 Hq2.
  assert (Hop' : path_op = ent_op (open_entity path filepath)).
  { clear - Hop Hpre. unfold ent_op, open_entity.
    destruct path as [e|].
    - destruct (ent_operation e).
      + bind_inv Hop as x1 Hx1. bind_inv Hop as x2 Hx2. apply ret_inl in Hop. tauto.
      + apply ret_inl in Hop. tauto.
    - destruct filepath as [e|]; [|destruct filename; discriminate].
      destruct (ent_operation e).
      + bind_inv Hop as x1 Hx1. bind_inv Hop as x2 Hx2. apply ret_inl in Hop. tauto.
      + apply ret_inl in Hop. tauto. }
  assert (Hre' : (path_op <> OVAL_OPERATION_PATTERN_MATCH -> re = (None, None)) /\
                 (path_op = OVAL_OPERATION_PATTERN_MATCH ->
                  exists regex, pcre_compile cstr_path = Some regex /\
                    re = if prunable (pcre_firstbyte regex (pcre_study regex))
                                     (pcre_exec regex (pcre_study regex)
                                                "/f0o/bar/baz" 12 PCRE_PARTIAL)
                         then (Some regex, pcre_study regex) else (None, None))).
  { clear - Hre. destruct (path_op =? OVAL_OPERATION_PATTERN_MATCH) eqn:E.
    - apply Z.eqb_eq in E. split; [congruence|]. intros _.
      apply (open_regex_inl _ _ Hre).
    - apply Z.eqb_neq in E. apply ret_inl in Hre. destruct Hre as [-> _].
      split; [reflexivity|congruence]. }
  clear Hre Hop.
  assert (Hroot : (if path_op =? OVAL_OPERATION_EQUALS then cstr_path else "/")
                  = starting_root path filepath cstr_path).
  { unfold starting_root. rewrite Hop'. reflexivity. }
  rewrite Hroot in *. clear Hroot.
  assert (Hregex :
    forall o2, ofts_path_op o2 = path_op -> ofts_path_regex o2 = fst re ->
               ofts_path_regex_extra o2 = snd re ->
      (ofts_path_op o2 <> OVAL_OPERATION_PATTERN_MATCH ->
       ofts_path_regex o2 = None /\ ofts_path_regex_extra o2 = None) /\
      (ofts_path_op o2 = OVAL_OPERATION_PATTERN_MATCH ->
       exists regex, pcre_compile cstr_path = Some regex /\
         (ofts_path_regex o2, ofts_path_regex_extra o2) =
         if prunable (pcre_firstbyte regex (pcre_study regex))
                     (pcre_exec regex (pcre_study regex) "/f0o/bar/baz" 12 PCRE_PARTIAL)
         then (Some regex, pcre_study regex) else (None, None))).
  { intros o2 -> -> ->. destruct Hre' as [Hn Hy]. split.
    - intro Hne. rewrite (Hn Hne). split; reflexivity.
    - intro He. destruct (Hy He) as (regex & Hcomp & Ha). exists regex.
      split; [exact Hcomp|]. rewrite Ha. destruct (prunable _ _); reflexivity. }
  clear Hre'.
  destruct path as [pe|]; simpl is_set in *; cbv iota in *.
  - (* path + filename *)
    destruct filepath; [discriminate|]. clear Hpre.
    bind_inv Hcfg as s1 Hs1. bind_inv Hcfg as nf Hnf. bind_inv Hcfg as pb Hpb.
    apply ret_inl in Hcfg. destruct Hcfg as [Hcfg _].
    inversion Hcfg; subst s1 nf pb. clear Hcfg.
    bind_inv H as devs Hdevs. bind_inv H as u3 Hq3. bind_inv H as u4 Hq4.
    apply ret_inl in H. destruct H as [-> _].
    destruct (parse_behaviors_inl _ _ _ Hpb) as (Hdir & Hopt & Hfs).
    exists cstr_path, (p_fts_options b).
    split.
    { unfold ent_string, open_entity.
      destruct (PROBE_ENT_STRVAL (Some pe)); try discriminate.
      apply ret_inl in Hs1. destruct Hs1 as [-> _]. reflexivity. }
    split; [exact Hop'|]. split; [reflexivity|]. split; [reflexivity|].
    split; [cbn [ofts_fts]; rewrite Ho; reflexivity|].
    split.
    { destruct Hopt as [-> | ->]; reflexivity. }
    split; [apply Hregex; reflexivity|].
    split; [apply Hregex; reflexivity|].
    cbn [ofts_spath ofts_sfilename ofts_sfilepath direction filesystem localdevs].
    split; [reflexivity|]. split; [reflexivity|]. split; [reflexivity|].
    split.
    { unfold ent_string. destruct (PROBE_ENT_STRVAL filename); try discriminate;
        apply ret_inl in Hnf; destruct Hnf as [Hnf _]; inversion Hnf; subst.
      - left. split; reflexivity.
      - right. split; [reflexivity|discriminate]. }
    split; [exact Hdir|]. split; [exact Hfs|].
    destruct (p_filesystem b =? OVAL_RECURSE_FS_LOCAL).
    + destruct fsdev_init as [lfs|]; [|discriminate].
      bind_inv Hdevs as u5 Hq5. apply ret_inl in Hdevs. destruct Hdevs as [-> _].
      exists lfs. split; reflexivity.
    + apply ret_inl in Hdevs. destruct Hdevs as [-> _]. reflexivity.
  - (* filepath *)
    destruct filename; [discriminate|].
    destruct filepath as [fe|]; [|discriminate]. clear Hpre.
    bind_inv Hcfg as s1 Hs1. apply ret_inl in Hcfg. destruct Hcfg as [Hcfg _].
    inversion Hcfg; subst s1 nilfilename b. clear Hcfg.
    bind_inv H as u3 Hq3. apply ret_inl in H. destruct H as [-> _].
    exists cstr_path, (Z.lor FTS_PHYSICAL FTS_COMFOLLOW).
    split.
    { unfold ent_string, open_entity.
      destruct (PROBE_ENT_STRVAL (Some fe)); try discriminate.
      apply ret_inl in Hs1. destruct Hs1 as [-> _]. reflexivity. }
    split; [exact Hop'|]. split; [reflexivity|]. split; [reflexivity|].
    split; [cbn [ofts_fts]; rewrite Ho; reflexivity|].
    split; [reflexivity|].
    split; [apply Hregex; reflexivity|].
    split; [apply Hregex; reflexivity|].
    rewrite Ho. cbn. repeat split; discriminate.
Qed.

End OpenInversion.

(* ================================================================== *)
(** * Invariants of the driver under the walker *)

Lemma fts_child_ent (p : FTSENT) (name : string) (n : node) :
  exists info st,
    work_ent (fts_child p name n) =
    mkFTSENT info (strn (NAPPEND p) (fts_path p) ++ "/" ++ name)
             (strlen (strn (NAPPEND p) (fts_path p) ++ "/" ++ name))
             name (strlen name) (fts_level p + 1) (Some st) (Some p).
Proof.
  unfold fts_child. destruct (fts_stat false n) as [[info st] obj].
  exists info, st. reflexivity.
Qed.

Lemma fts_root_path (options : Z) (p : string) (n : node) :
  fts_path (work_ent (fts_root options p n)) = p
  /\ fts_level (work_ent (fts_root options p n)) = 0.
Proof.
  unfold fts_root. destruct (fts_stat (isset options FTS_COMFOLLOW) n) as [[i st] obj].
  split; reflexivity.
Qed.

Section DriverInvariant.
Variables P Q : FTSENT -> Prop.

Hypothesis P_stat : forall p i st,
    P p -> P (mkFTSENT i (fts_path p) (fts_pathlen p) (fts_name p) (fts_namelen p)
                       (fts_level p) (Some st) (fts_parent p)).
Hypothesis P_info : forall p i, P p -> P (set_info i p).
Hypothesis P_child : forall p name n,
    P p -> Q p -> fts_info p = FTS_D -> P (work_ent (fts_child p name n)).

Lemma fts_next_inv (sp sp' : FTS) (r : option FTSENT) :
  Forall (fun w => P (work_ent w)) (fts_todo sp) ->
  fts_next sp = (r, sp') ->
  Forall (fun w => P (work_ent w)) (fts_todo sp') /\
  fts_instr sp' = FTS_NOINSTR /\
  match r with
  | Some e => P e /\ exists n, fts_cur sp' = Some (mkObj e n)
  | None => fts_cur sp' = None
  end.
Proof.
  unfold fts_next. intros Hall H.
  destruct (fts_todo sp) as [|[e n|d n] rest]; inversion H; subst; clear H; simpl.
  - repeat split. constructor.
  - inversion Hall; subst. repeat split; auto. exists n. reflexivity.
  - inversion Hall; subst. repeat split; auto. exists n. reflexivity.
Qed.

Lemma fts_read_inv (sp sp' : FTS) (r : option FTSENT) :
  fts_inv P Q sp ->
  fts_read sp = (r, sp') ->
  Forall (fun w => P (work_ent w)) (fts_todo sp') /\
  fts_instr sp' = FTS_NOINSTR /\
  match r with
  | Some e => P e /\ exists n, fts_cur sp' = Some (mkObj e n)
  | None => fts_cur sp' = None
  end.
Proof.
  unfold fts_inv, fts_read. intros [Hall Hcur] H.
  destruct (fts_cur sp) as [[p n]|] eqn:Ec; [|apply (fts_next_inv _ Hall H)].
  simpl in Hcur. destruct Hcur as [Hp Hq].
  assert (Hleave :
    (Some (set_info FTS_DP p),
     mkFTS (fts_options sp) (fts_dev sp) (Some (mkObj (set_info FTS_DP p) n))
           FTS_NOINSTR (fts_todo sp)) = (r, sp') ->
    Forall (fun w => P (work_ent w)) (fts_todo sp') /\
    fts_instr sp' = FTS_NOINSTR /\
    match r with
    | Some e => P e /\ exists n, fts_cur sp' = Some (mkObj e n)
    | None => fts_cur sp' = None
    end).
  { intro Hx. inversion Hx; subst; simpl. repeat split; auto.
    exists n. reflexivity. }
  assert (Hfollow :
    (let '(info, st, obj) := fts_stat true n in
     (Some (mkFTSENT info (fts_path p) (fts_pathlen p) (fts_name p) (fts_namelen p)
                     (fts_level p) (Some st) (fts_parent p)),
      mkFTS (fts_options sp) (fts_dev sp)
            (Some (mkObj (mkFTSENT info (fts_path p) (fts_pathlen p) (fts_name p)
                                   (fts_namelen p) (fts_level p) (Some st)
                                   (fts_parent p)) obj))
            FTS_NOINSTR (fts_todo sp))) = (r, sp') ->
    Forall (fun w => P (work_ent w)) (fts_todo sp') /\
    fts_instr sp' = FTS_NOINSTR /\
    match r with
    | Some e => P e /\ exists n, fts_cur sp' = Some (mkObj e n)
    | None => fts_cur sp' = None
    end).
  { destruct (fts_stat true n) as [[info st] obj]. intro Hx.
    inversion Hx; subst; simpl. repeat split; auto. exists obj. reflexivity. }
  assert (Hdir :
    fts_info p = FTS_D -> fts_instr sp <> FTS_SKIP ->
    (if isset (fts_options sp) FTS_XDEV && negb (ent_dev p =? fts_dev sp)
     then (Some (set_info FTS_DP p),
           mkFTS (fts_options sp) (fts_dev sp) (Some (mkObj (set_info FTS_DP p) n))
                 FTS_NOINSTR (fts_todo sp))
     else match n with
          | Dir _ (en :: ens) =>
              fts_next (mkFTS (fts_options sp) (fts_dev sp) (Some (mkObj p n)) FTS_NOINSTR
                              (fts_build p (en :: ens) ++ Leave p n :: fts_todo sp))
          | _ => (Some (set_info FTS_DP p),
                  mkFTS (fts_options sp) (fts_dev sp)
                        (Some (mkObj (set_info FTS_DP p) n))
                        FTS_NOINSTR (fts_todo sp))
          end) = (r, sp') ->
    Forall (fun w => P (work_ent w)) (fts_todo sp') /\
    fts_instr sp' = FTS_NOINSTR /\
    match r with
    | Some e => P e /\ exists n, fts_cur sp' = Some (mkObj e n)
    | None => fts_cur sp' = None
    end).
  { intros Hd Hns.
    destruct (isset (fts_options sp) FTS_XDEV && negb (ent_dev p =? fts_dev sp));
      [exact Hleave|].
    destruct n as [|?|st [|en ens]|? ?|?]; try exact Hleave.
    apply fts_next_inv. cbn [fts_todo].
    apply Forall_app. split.
    - unfold fts_build. apply Forall_map. apply Forall_forall. intros x _.
      apply P_child; auto.
    - constructor; [exact Hp|exact Hall]. }
  destruct (fts_instr sp) eqn:Ei; destruct (fts_info p) eqn:Ep;
    try (apply (fts_next_inv _ Hall H));
    try (apply Hleave; exact H);
    try (apply Hfollow; exact H);
    try (apply Hdir; [reflexivity|discriminate|exact H]).
Qed.

End DriverInvariant.

Section WalkerInvariant.
Context `{W : World}.
Variables P Q : FTSENT -> Prop.

Hypothesis P_stat : forall p i st,
    P p -> P (mkFTSENT i (fts_path p) (fts_pathlen p) (fts_name p) (fts_namelen p)
                       (fts_level p) (Some st) (fts_parent p)).
Hypothesis P_info : forall p i, P p -> P (set_info i p).
Hypothesis P_child : forall p name n,
    P p -> Q p -> fts_info p = FTS_D -> P (work_ent (fts_child p name n)).

Lemma grants_config (a b : OVAL_FTS) : same_config a b -> grants P Q a -> grants P Q b.
Proof.
  intros Hc Hg e Hp Hd Hi. apply (Hg e Hp Hd).
  rewrite <- (turn_instr_config _ Hc). exact Hi.
Qed.

Lemma oval_fts_turn_inv (ofts : OVAL_FTS) :
  grants P Q ofts ->
  fts_inv P Q (ofts_fts ofts) ->
  match oval_fts_turn ofts with
  | Turn_null o | Turn_continue o | Turn_break _ o => fts_inv P Q (ofts_fts o)
  end.
Proof.
  intros Hg Hinv.
  destruct (fts_read (ofts_fts ofts)) as [[e|] sp] eqn:Hr.
  - destruct (fts_read_inv P_stat P_info P_child Hinv Hr)
      as (Hall & _ & Hp & n & Hc).
    assert (Hafter : fts_inv P Q (ofts_fts (after_turn ofts e sp))).
    { unfold after_turn, fts_inv. cbn. rewrite Hc. cbn.
      split; [exact Hall|]. split; [exact Hp|]. intros Hd Hi. apply Hg; assumption. }
    destruct (oval_fts_turn_entry _ Hr) as [(Hb & _)|[Hk|Hn]];
      [rewrite Hb|rewrite Hk|rewrite Hn]; exact Hafter.
  - rewrite (oval_fts_turn_end _ Hr).
    destruct (fts_read_inv P_stat P_info P_child Hinv Hr) as (Hall & _ & Hc).
    unfold fts_inv. cbn. rewrite Hc. split; [exact Hall|exact I].
Qed.

(** The invariant holds of every handle of an iteration. *)
Lemma walked_fts_inv (ofts0 ofts : OVAL_FTS) :
  grants P Q ofts0 ->
  fts_inv P Q (ofts_fts ofts0) ->
  walked ofts0 ofts ->
  fts_inv P Q (ofts_fts ofts).
Proof.
  intros Hg H0 Hw.
  assert (H : same_config ofts0 ofts /\ fts_inv P Q (ofts_fts ofts)).
  { apply (walked_invariant (fun o => same_config ofts0 o /\ fts_inv P Q (ofts_fts o)))
      with (ofts0 := ofts0); auto.
    - intros o o' [Hc Hi] Ht.
      pose proof (oval_fts_turn_config o) as Hk. rewrite Ht in Hk.
      pose proof (oval_fts_turn_inv (grants_config Hc Hg) Hi) as Hx. rewrite Ht in Hx.
      split; [eapply same_config_trans; eassumption|exact Hx].
    - intros o e o' [Hc Hi] Ht.
      pose proof (oval_fts_turn_config o) as Hk. rewrite Ht in Hk.
      pose proof (oval_fts_turn_inv (grants_config Hc Hg) Hi) as Hx. rewrite Ht in Hx.
      split; [eapply same_config_trans; eassumption|exact Hx].
    - split; [apply same_config_refl|exact H0]. }
  apply H.
Qed.

(** Every entry returned in the course of an iteration has [P]. *)
Lemma walked_yield (ofts0 ofts ofts' : OVAL_FTS) (ofts_ent : OVAL_FTSENT) :
  grants P Q ofts0 ->
  fts_inv P Q (ofts_fts ofts0) ->
  walked ofts0 ofts ->
  oval_fts_read ofts = (Some ofts_ent, ofts') ->
  exists fts_ent,
    last_entry ofts' = Some fts_ent /\
    ofts_ent = OVAL_FTSENT_new ofts0 fts_ent /\
    oval_fts_match ofts0 fts_ent = true /\
    P fts_ent.
Proof.
  intros Hg H0 Hw Hr.
  destruct (oval_fts_read_yield _ Hr) as (e & Hl & He & Hm & _).
  pose proof (walked_config Hw) as Hc.
  exists e. split; [exact Hl|].
  rewrite (OVAL_FTSENT_new_config _ Hc) in He.
  rewrite (oval_fts_match_config _ Hc) in Hm.
  split; [exact He|]. split; [exact Hm|].
  assert (Hw' : walked ofts0 ofts') by (econstructor; eassumption).
  pose proof (walked_fts_inv Hg H0 Hw') as [_ Hcur].
  unfold last_entry in Hl. destruct (fts_cur (ofts_fts ofts')) as [o|]; [|discriminate].
  simpl in Hl. inversion Hl; subst. apply Hcur.
Qed.

End WalkerInvariant.

(* ================================================================== *)
(** * C1: the entities of a handle against the entries it returns *)

(** C1, as amended.  For every entry returned by [oval_fts_read], the
    configured entities accept their parts of the driver entry: in filepath
    mode [sfilepath] the full path; in path + filename mode [sfilename] the
    basename and [spath] the directory portion; in path-only mode [spath] the
    full path -- except that [spath] is not asked when the operation of the
    path is [equals]. *)
Theorem C1_entities_accept_unless_equals `{W : World}
        (ofts ofts' : OVAL_FTS) (ofts_ent : OVAL_FTSENT) :
  oval_fts_read ofts = (Some ofts_ent, ofts') ->
  exists fts_ent,
    last_entry ofts' = Some fts_ent /\
    ofts_ent = OVAL_FTSENT_new ofts fts_ent /\
    entities_accept false ofts fts_ent.
Proof.
  intro Hr. destruct (oval_fts_read_yield _ Hr) as (e & Hl & He & Hm & _).
  exists e. split; [exact Hl|]. split; [exact He|].
  unfold oval_fts_match in Hm. unfold entities_accept, ent_accepts, dir_portion.
  destruct (fts_info_eqb (fts_info e) FTS_SL); [discriminate|].
  destruct (ofts_sfilepath ofts) as [sfp|].
  - apply andb_prop in Hm. destruct Hm as [_ Hc]. exists sfp. split; [reflexivity|].
    unfold cmp_true in Hc. destruct (probe_entobj_cmp sfp (fts_path e)); try discriminate.
    reflexivity.
  - destruct (ofts_sfilename ofts) as [sfn|]; simpl in Hm.
    + rewrite orb_false_r in Hm.
      destruct (negb (fts_info_eqb (fts_info e) FTS_D)); [|discriminate].
      apply andb_prop in Hm. destruct Hm as [Hp Hf]. split.
      * destruct (ofts_path_op ofts =? OVAL_OPERATION_EQUALS) eqn:Eo.
        -- left. split; [reflexivity|]. apply Z.eqb_eq. exact Eo.
        -- right. destruct (ofts_spath ofts) as [sp|]; [|discriminate].
           exists sp. split; [reflexivity|]. unfold cmp_true in Hp.
           destruct (probe_entobj_cmp sp _); try discriminate. reflexivity.
      * exists sfn. split; [reflexivity|]. unfold cmp_true in Hf.
        destruct (probe_entobj_cmp sfn _); try discriminate. reflexivity.
    + destruct (fts_info_eqb (fts_info e) FTS_D); [|discriminate].
      destruct (ofts_path_op ofts =? OVAL_OPERATION_EQUALS) eqn:Eo.
      * left. split; [reflexivity|]. apply Z.eqb_eq. exact Eo.
      * right. destruct (ofts_spath ofts) as [sp|]; [|discriminate].
        exists sp. split; [reflexivity|]. unfold cmp_true in Hm.
        destruct (probe_entobj_cmp sp _); try discriminate. reflexivity.
Qed.

(** The theorem at work: [/a/b.txt] is returned for the path [/a] and the
    filename [b.txt]. *)
Lemma C1_entities_accept_witness :
  exists fts_ent,
    last_entry (snd (@oval_fts_read sample_world
                       (sample_open (sample_ent None "/a") (sample_ent None "b.txt")
                                    None (sample_behaviors "-1" "none" None))))
    = Some fts_ent /\
    mkOVAL_FTSENT "/a" 2 (Some "b.txt") 5
    = OVAL_FTSENT_new (sample_open (sample_ent None "/a") (sample_ent None "b.txt")
                                   None (sample_behaviors "-1" "none" None)) fts_ent /\
    @entities_accept sample_world false
      (sample_open (sample_ent None "/a") (sample_ent None "b.txt")
                   None (sample_behaviors "-1" "none" None)) fts_ent.
Proof.
  apply (@C1_entities_accept_unless_equals sample_world).
  vm_compute. reflexivity.
Defined.

(** C1 as stated fails: with the path [/a] under [equals], no filename and
    the direction [down], the second entry returned is the directory [/a/c],
    which the path entity does not accept. *)
Lemma C1_equals_not_compared :
  exists ofts0 m e1 ofts1 e2 ofts2 fts_ent,
    @oval_fts_open sample_world (sample_ent None "/a") (sample_ent None "") None
                   (sample_behaviors "-1" "down" None) mem0 = (inl ofts0, m) /\
    @oval_fts_read sample_world ofts0 = (Some e1, ofts1) /\
    @oval_fts_read sample_world ofts1 = (Some e2, ofts2) /\
    last_entry ofts2 = Some fts_ent /\
    path e2 = "/a/c" /\ fts_path fts_ent = "/a/c" /\
    ofts_spath ofts1 = sample_ent None "/a" /\
    @probe_entobj_cmp sample_world (mkEnt None (Some (SEXP_string "/a"))) "/a/c"
    = OVAL_RESULT_FALSE /\
    ~ @entities_accept sample_world true ofts1 fts_ent.
Proof.
  do 7 eexists.
  split; [lazy; reflexivity|].
  split; [lazy; reflexivity|].
  split; [lazy; reflexivity|].
  split; [lazy; reflexivity|].
  repeat (split; [reflexivity|]).
  unfold entities_accept, ent_accepts. simpl.
  intros [[H _]|(e & He & Hc)]; [discriminate|].
  inversion He; subst. vm_compute in Hc. discriminate.
Qed.

(* ================================================================== *)
(** * C2: the split of the driver's path into path and file *)

Lemma pathlen_from_ftse_spec (fts_pathlen fts_namelen : Z) :
  pathlen_from_ftse fts_pathlen fts_namelen = spec_pathlen fts_pathlen fts_namelen.
Proof.
  unfold pathlen_from_ftse, spec_pathlen.
  destruct (Z.gtb_spec fts_pathlen fts_namelen);
    destruct (Z.gtb_spec fts_pathlen (fts_namelen + 1));
    destruct (Z.gtb_spec (fts_pathlen - fts_namelen) 1); lia.
Qed.

Lemma strlen_append (a b : string) : strlen (a ++ b) = strlen a + strlen b.
Proof.
  unfold strlen. rewrite <- Nat2Z.inj_add. f_equal.
  induction a as [|c a IH]; simpl; [reflexivity|]. rewrite IH. reflexivity.
Qed.

Lemma strn_append (a b : string) : strn (strlen a) (a ++ b) = a.
Proof.
  unfold strn, strlen. rewrite Nat2Z.id.
  induction a as [|c a IH]; simpl.
  - destruct b; reflexivity.
  - rewrite IH. reflexivity.
Qed.

Lemma strn_all (s : string) : strn (strlen s) s = s.
Proof.
  unfold strn, strlen. rewrite Nat2Z.id.
  induction s as [|c s IH]; simpl; [reflexivity|]. rewrite IH. reflexivity.
Qed.

Lemma after_last_slash_some (s t : string) :
  after_last_slash s = Some t -> exists pre, s = (pre ++ "/" ++ t)%string.
Proof.
  revert t. induction s as [|c s IH]; intros t H; simpl in H; [discriminate|].
  destruct (after_last_slash s) as [t'|].
  - inversion H; subst. destruct (IH t eq_refl) as (pre & ->).
    exists (String c pre). reflexivity.
  - destruct (Ascii.eqb_spec c slash) as [->|]; [|discriminate].
    inversion H; subst. exists EmptyString. reflexivity.
Qed.

Lemma fts_root_wf (options : Z) (p : string) (n : node) :
  ent_wf (work_ent (fts_root options p n)).
Proof.
  unfold fts_root. destruct (fts_stat (isset options FTS_COMFOLLOW) n) as [[i st] obj].
  unfold ent_wf. cbn. split; [reflexivity|]. split; [reflexivity|].
  unfold fts_root_name. destruct (String.eqb p "/"); [left; reflexivity|].
  destruct (after_last_slash p) as [t|] eqn:E; [|left; reflexivity].
  right. apply after_last_slash_some. exact E.
Qed.

Lemma fts_child_wf (p : FTSENT) (name : string) (n : node) :
  ent_wf (work_ent (fts_child p name n)).
Proof.
  destruct (fts_child_ent p name n) as (i & st & ->).
  unfold ent_wf. cbn. split; [reflexivity|]. split; [reflexivity|].
  right. eexists. reflexivity.
Qed.

(** The split of a well-formed entry. *)
Lemma split_of_wf (e : FTSENT) :
  ent_wf e ->
  let path := strn (pathlen_from_ftse (fts_pathlen e) (fts_namelen e)) (fts_path e) in
  (fts_pathlen e > fts_namelen e + 1 -> join_slash path (fts_name e) = fts_path e) /\
  (fts_pathlen e = fts_namelen e + 1 ->
   path = "/" /\ (path ++ fts_name e)%string = fts_path e) /\
  (fts_pathlen e <= fts_namelen e -> path = fts_path e).
Proof.
  intros (Hpl & Hnl & Hpn). cbv zeta. rewrite pathlen_from_ftse_spec.
  unfold spec_pathlen, join_slash.
  assert (Hnn : 0 <= strlen (fts_name e)) by (unfold strlen; lia).
  split; [|split]; intro H.
  - destruct Hpn as [He|(pre & He)].
    + rewrite He in Hpl. lia.
    + rewrite He in Hpl |- *.
      rewrite !strlen_append in Hpl. change (strlen "/") with 1 in Hpl.
      destruct (Z.gtb_spec (fts_pathlen e) (fts_namelen e + 1)); [|lia].
      replace (fts_pathlen e - fts_namelen e - 1) with (strlen pre) by lia.
      rewrite strn_append. reflexivity.
  - destruct Hpn as [He|(pre & He)].
    + rewrite He in Hpl. lia.
    + rewrite He in Hpl |- *.
      rewrite !strlen_append in Hpl. change (strlen "/") with 1 in Hpl.
      destruct (Z.gtb_spec (fts_pathlen e) (fts_namelen e + 1)); [lia|].
      destruct (Z.gtb_spec (fts_pathlen e) (fts_namelen e)); [|lia].
      assert (Hpre : pre = EmptyString).
      { destruct pre as [|c pre]; [reflexivity|]. exfalso.
        assert (strlen (String c pre) >= 1)
          by (unfold strlen; simpl String.length; lia).
        lia. }
      subst pre. replace (fts_pathlen e - fts_namelen e) with 1 by lia.
      unfold strn. change (Z.to_nat 1) with 1%nat.
      destruct (fts_name e); split; reflexivity.
  - destruct (Z.gtb_spec (fts_pathlen e) (fts_namelen e + 1)); [lia|].
    destruct (Z.gtb_spec (fts_pathlen e) (fts_namelen e)); [lia|].
    rewrite Hpl. apply strn_all.
Qed.

(** C2, as amended.  For every entry returned in path + filename mode, the
    path of the record is the first [pathlen] bytes of the driver's full
    path, with [pathlen] as the specification words it, and the file is the
    driver's basename.  Joining the two with a single slash gives the full
    path back when the full path is longer than the basename and a slash;
    when it is exactly that long, the path is [/] and path and file give the
    full path back with no slash between them; when it is no longer than the
    basename, the path is the full path. *)
Theorem C2_path_file_split `{W : World}
        (path_ent filename filepath : option SEXP_ent) (behaviors : SEXP_behaviors)
        (m m' : mem) (ofts0 ofts ofts' : OVAL_FTS) (ofts_ent : OVAL_FTSENT) :
  oval_fts_open path_ent filename filepath behaviors m = (inl ofts0, m') ->
  ofts_sfilename ofts0 <> None ->
  walked ofts0 ofts ->
  oval_fts_read ofts = (Some ofts_ent, ofts') ->
  exists fts_ent,
    last_entry ofts' = Some fts_ent /\
    path_len ofts_ent = spec_pathlen (fts_pathlen fts_ent) (fts_namelen fts_ent) /\
    path ofts_ent = strn (path_len ofts_ent) (fts_path fts_ent) /\
    file ofts_ent = Some (fts_name fts_ent) /\
    (fts_pathlen fts_ent > fts_namelen fts_ent + 1 ->
     join_slash (path ofts_ent) (fts_name fts_ent) = fts_path fts_ent) /\
    (fts_pathlen fts_ent = fts_namelen fts_ent + 1 ->
     path ofts_ent = "/" /\
     (path ofts_ent ++ fts_name fts_ent)%string = fts_path fts_ent) /\
    (fts_pathlen fts_ent <= fts_namelen fts_ent ->
     path ofts_ent = fts_path fts_ent).
Proof.
  intros Hopen Hfn Hw Hr.
  apply oval_fts_open_inl in Hopen.
  destruct Hopen as (literal & options & _ & _ & _ & _ & Hfts & _).
  assert (Hinv : fts_inv ent_wf (fun _ => True) (ofts_fts ofts0)).
  { rewrite Hfts. split; cbn; [|exact I].
    constructor; [apply fts_root_wf|constructor]. }
  assert (Hg : grants ent_wf (fun _ => True) ofts0) by (intros e _ _ _; exact I).
  destruct (@walked_yield W ent_wf (fun _ => True)
              (fun p i st Hp => Hp) (fun p i Hp => Hp)
              (fun p name n _ _ _ => fts_child_wf p name n)
              ofts0 ofts ofts' ofts_ent Hg Hinv Hw Hr)
    as (e & Hl & He & _ & Hwf).
  exists e. split; [exact Hl|].
  unfold OVAL_FTSENT_new in He.
  destruct (ofts_sfilename ofts0) as [sfn|]; [|congruence].
  simpl in He. subst ofts_ent. cbn [path_len path file].
  split; [apply pathlen_from_ftse_spec|].
  split; [reflexivity|]. split; [reflexivity|].
  apply (split_of_wf Hwf).
Qed.

(** The theorem at work on [/a/b.txt]. *)
Lemma C2_path_file_split_witness :
  exists fts_ent,
    last_entry (snd (@oval_fts_read sample_world
                       (sample_open (sample_ent None "/a") (sample_ent None "b.txt")
                                    None (sample_behaviors "-1" "none" None))))
    = Some fts_ent /\
    path_len (mkOVAL_FTSENT "/a" 2 (Some "b.txt") 5)
    = spec_pathlen (fts_pathlen fts_ent) (fts_namelen fts_ent) /\
    path (mkOVAL_FTSENT "/a" 2 (Some "b.txt") 5)
    = strn (path_len (mkOVAL_FTSENT "/a" 2 (Some "b.txt") 5)) (fts_path fts_ent) /\
    file (mkOVAL_FTSENT "/a" 2 (Some "b.txt") 5) = Some (fts_name fts_ent) /\
    (fts_pathlen fts_ent > fts_namelen fts_ent + 1 ->
     join_slash (path (mkOVAL_FTSENT "/a" 2 (Some "b.txt") 5)) (fts_name fts_ent)
     = fts_path fts_ent) /\
    (fts_pathlen fts_ent = fts_namelen fts_ent + 1 ->
     path (mkOVAL_FTSENT "/a" 2 (Some "b.txt") 5) = "/" /\
     (path (mkOVAL_FTSENT "/a" 2 (Some "b.txt") 5) ++ fts_name fts_ent)%string
     = fts_path fts_ent) /\
    (fts_pathlen fts_ent <= fts_namelen fts_ent ->
     path (mkOVAL_FTSENT "/a" 2 (Some "b.txt") 5) = fts_path fts_ent).
Proof.
  apply (@C2_path_file_split sample_world
           (sample_ent None "/a") (sample_ent None "b.txt") None
           (sample_behaviors "-1" "none" None) mem0
           (mkMem [Res_ref_filename; Res_ref_path; Res_fts; Res_ofts;
                   Res_path 0; Res_paths] 0)
           (sample_open (sample_ent None "/a") (sample_ent None "b.txt")
                        None (sample_behaviors "-1" "none" None))
           (sample_open (sample_ent None "/a") (sample_ent None "b.txt")
                        None (sample_behaviors "-1" "none" None))).
  - vm_compute. reflexivity.
  - vm_compute. discriminate.
  - apply walked_open.
  - vm_compute. reflexivity.
Defined.

(** C2 as stated fails.  For [/vmlinuz], found under the path [/], the
    record is the path [/] and the file [vmlinuz], and joining them with a
    slash gives [//vmlinuz].  For the file [passwd], given as the path
    itself, the record is the path [passwd] and the file [passwd], and no
    joining gives the full path [passwd]. *)
Lemma C2_join_does_not_reconstruct :
  (exists ofts0 m ofts1 fts_ent,
      @oval_fts_open sample_world (sample_ent None "/") (sample_ent None "vmlinuz")
                     None (sample_behaviors "-1" "none" None) mem0 = (inl ofts0, m) /\
      @oval_fts_read sample_world ofts0
      = (Some (mkOVAL_FTSENT "/" 1 (Some "vmlinuz") 7), ofts1) /\
      last_entry ofts1 = Some fts_ent /\
      fts_path fts_ent = "/vmlinuz" /\ fts_name fts_ent = "vmlinuz" /\
      join_slash "/" "vmlinuz" = "//vmlinuz" /\
      join_slash "/" "vmlinuz" <> fts_path fts_ent)
  /\
  (exists ofts0 m ofts1 fts_ent,
      @oval_fts_open sample_world (sample_ent None "passwd") (sample_ent None "passwd")
                     None (sample_behaviors "-1" "none" None) mem0 = (inl ofts0, m) /\
      @oval_fts_read sample_world ofts0
      = (Some (mkOVAL_FTSENT "passwd" 6 (Some "passwd") 6), ofts1) /\
      last_entry ofts1 = Some fts_ent /\
      fts_path fts_ent = "passwd" /\ fts_name fts_ent = "passwd" /\
      join_slash "passwd" "passwd" = "passwd/passwd" /\
      join_slash "passwd" "passwd" <> fts_path fts_ent).
Proof.
  split.
  - do 4 eexists.
    split; [lazy; reflexivity|].
    split; [lazy; reflexivity|].
    split; [lazy; reflexivity|].
    repeat (split; [reflexivity|]). discriminate.
  - do 4 eexists.
    split; [lazy; reflexivity|].
    split; [lazy; reflexivity|].
    split; [lazy; reflexivity|].
    repeat (split; [reflexivity|]). discriminate.
Qed.

(* ================================================================== *)
(** * C3: the depth limit *)

(** C3, on failing inputs.  With [max_depth] 0 and the direction [down],
    the path [/a] given alone returns the directory [/a/c], one level below
    the root: an entry is evaluated before the depth is tested.  And with the
    pattern [^/a] for a path, the walk starts at [/], the partial match of
    [/] goes on to the next turn without the depth being tested, and [/a] is
    returned, one level below the root. *)
Theorem C3_max_depth_exceeded :
  (exists ofts0 m,
      @oval_fts_open sample_world (sample_ent None "/a") (sample_ent None "") None
                     (sample_behaviors "0" "down" None) mem0 = (inl ofts0, m) /\
      max_depth ofts0 = 0 /\
      direction ofts0 = OVAL_RECURSE_DIRECTION_DOWN /\
      ofts_st_path ofts0 = Some ["/a"] /\
      map (fun r => (path (fst r), option_map fts_level (snd r)))
          (@oval_fts_read_all sample_world 8 ofts0)
      = [("/a", Some 0); ("/a/c", Some 1)])
  /\
  (exists ofts0 m,
      @oval_fts_open sample_world (sample_ent (Some 11) "^/a") (sample_ent None "") None
                     (sample_behaviors "0" "down" None) mem0 = (inl ofts0, m) /\
      max_depth ofts0 = 0 /\
      direction ofts0 = OVAL_RECURSE_DIRECTION_DOWN /\
      ofts_st_path ofts0 = Some ["/"] /\
      map (fun r => (path (fst r), option_map fts_level (snd r)))
          (@oval_fts_read_all sample_world 8 ofts0)
      = [("/a", Some 1)]).
Proof.
  split.
  - do 2 eexists. split; [lazy; reflexivity|].
    repeat (split; [reflexivity|]). vm_compute. reflexivity.
  - do 2 eexists. split; [lazy; reflexivity|].
    repeat (split; [reflexivity|]). vm_compute. reflexivity.
Qed.

(** What the depth test does achieve: a directory that the recursion step
    lets the driver read is no deeper than [max_depth]. *)
Lemma grants_depth `{W : World} (ofts : OVAL_FTS) :
  direction ofts = OVAL_RECURSE_DIRECTION_DOWN ->
  0 <= max_depth ofts ->
  ofts_path_regex ofts = None ->
  grants (fun e => 0 <= fts_level e <= max_depth ofts + 1)
         (fun p => fts_level p <= max_depth ofts) ofts.
Proof.
  intros Hd Hk Hre e Hlev Hi Hs.
  unfold turn_instr, oval_fts_prune, oval_fts_recurse in Hs.
  rewrite Hd, Hre, Hi in Hs. simpl in Hs.
  destruct ((fts_level e =? 0) && is_set (ofts_sfilename ofts)) eqn:Eroot.
  { apply andb_prop in Eroot. destruct Eroot as [E0 _]. apply Z.eqb_eq in E0. lia. }
  destruct (Z.leb_spec (fts_level e) (max_depth ofts)); [assumption|].
  destruct (Z.eqb_spec (max_depth ofts) (-1)); [lia|].
  simpl in Hs. exfalso. apply Hs. reflexivity.
Qed.

(** The bound that holds.  With [max_depth] a number [k] from 0 on, the
    direction [down] and no regular expression kept for pruning, every entry
    returned lies at most [k + 1] levels below the starting root: a file is
    returned from a directory at most [k] levels below it. *)
Theorem depth_bound_without_pruning `{W : World}
        (path_ent filename filepath : option SEXP_ent) (behaviors : SEXP_behaviors)
        (m m' : mem) (ofts0 ofts ofts' : OVAL_FTS) (ofts_ent : OVAL_FTSENT) :
  oval_fts_open path_ent filename filepath behaviors m = (inl ofts0, m') ->
  direction ofts0 = OVAL_RECURSE_DIRECTION_DOWN ->
  0 <= max_depth ofts0 ->
  ofts_path_regex ofts0 = None ->
  walked ofts0 ofts ->
  oval_fts_read ofts = (Some ofts_ent, ofts') ->
  exists fts_ent,
    last_entry ofts' = Some fts_ent /\
    0 <= fts_level fts_ent <= max_depth ofts0 + 1.
Proof.
  intros Hopen Hd Hk Hre Hw Hr.
  apply oval_fts_open_inl in Hopen.
  destruct Hopen as (literal & options & _ & _ & _ & _ & Hfts & _).
  pose (P := fun e => 0 <= fts_level e <= max_depth ofts0 + 1).
  pose (Q := fun p => fts_level p <= max_depth ofts0).
  assert (Hinv : fts_inv P Q (ofts_fts ofts0)).
  { rewrite Hfts. split; cbn; [|exact I]. constructor; [|constructor].
    unfold P.
    destruct (fts_root_path options (starting_root path_ent filepath literal)
                (fs_lookup (starting_root path_ent filepath literal))) as [_ Hl].
    rewrite Hl. lia. }
  assert (Hstat : forall p i st,
             P p -> P (mkFTSENT i (fts_path p) (fts_pathlen p) (fts_name p)
                                (fts_namelen p) (fts_level p) (Some st)
                                (fts_parent p)))
    by (intros p i st Hp; exact Hp).
  assert (Hinfo : forall p i, P p -> P (set_info i p))
    by (intros p i Hp; exact Hp).
  assert (Hchild : forall p name n,
             P p -> Q p -> fts_info p = FTS_D -> P (work_ent (fts_child p name n))).
  { intros p name n Hp Hq _.
    destruct (fts_child_ent p name n) as (i & st & ->). unfold P, Q in *. cbn. lia. }
  destruct (@walked_yield W P Q Hstat Hinfo Hchild ofts0 ofts ofts' ofts_ent
              (@grants_depth W ofts0 Hd Hk Hre) Hinv Hw Hr)
    as (e & Hl & _ & _ & Hp).
  exists e. split; [exact Hl|exact Hp].
Qed.

(** The bound at work: [/a/b.txt] with [max_depth] 0. *)
Lemma depth_bound_witness :
  exists fts_ent,
    last_entry (snd (@oval_fts_read sample_world
                       (sample_open (sample_ent None "/a") (sample_ent (Some 2) "x")
                                    None (sample_behaviors "0" "down" None))))
    = Some fts_ent /\
    0 <= fts_level fts_ent
      <= max_depth (sample_open (sample_ent None "/a") (sample_ent (Some 2) "x")
                                None (sample_behaviors "0" "down" None)) + 1.
Proof.
  apply (@depth_bound_without_pruning sample_world
           (sample_ent None "/a") (sample_ent (Some 2) "x") None
           (sample_behaviors "0" "down" None) mem0
           (mkMem [Res_ref_filename; Res_ref_path; Res_fts; Res_ofts;
                   Res_path 0; Res_paths] 0)
           (sample_open (sample_ent None "/a") (sample_ent (Some 2) "x")
                        None (sample_behaviors "0" "down" None))
           (sample_open (sample_ent None "/a") (sample_ent (Some 2) "x")
                        None (sample_behaviors "0" "down" None))
           (snd (@oval_fts_read sample_world
                   (sample_open (sample_ent None "/a") (sample_ent (Some 2) "x")
                                None (sample_behaviors "0" "down" None))))
           (mkOVAL_FTSENT "/a" 2 (Some "b.txt") 5)).
  - vm_compute. reflexivity.
  - vm_compute. reflexivity.
  - vm_compute. discriminate.
  - vm_compute. reflexivity.
  - apply walked_open.
  - vm_compute. reflexivity.
Defined.
(* ================================================================== *)
(** * C4: symbolic links *)

(** C4, as amended.  [oval_fts_read] never returns an entry that the driver
    has tagged [FTS_SL], a symbolic link that was not followed. *)
Theorem C4_no_unfollowed_link_returned `{W : World}
        (ofts ofts' : OVAL_FTS) (ofts_ent : OVAL_FTSENT) :
  oval_fts_read ofts = (Some ofts_ent, ofts') ->
  exists fts_ent,
    last_entry ofts' = Some fts_ent /\
    ofts_ent = OVAL_FTSENT_new ofts fts_ent /\
    fts_info fts_ent <> FTS_SL.
Proof.
  intro Hr. destruct (oval_fts_read_yield _ Hr) as (e & Hl & He & Hm & _).
  exists e. split; [exact Hl|]. split; [exact He|].
  intro Hsl. unfold oval_fts_match in Hm. rewrite Hsl in Hm.
  simpl in Hm. discriminate.
Qed.

(** The theorem at work on [/a/b.txt], a regular file. *)
Lemma C4_no_unfollowed_link_witness :
  exists fts_ent,
    last_entry (snd (@oval_fts_read sample_world
                       (sample_open (sample_ent None "/a") (sample_ent None "b.txt")
                                    None (sample_behaviors "-1" "none" None))))
    = Some fts_ent /\
    mkOVAL_FTSENT "/a" 2 (Some "b.txt") 5
    = OVAL_FTSENT_new (sample_open (sample_ent None "/a") (sample_ent None "b.txt")
                                   None (sample_behaviors "-1" "none" None)) fts_ent /\
    fts_info fts_ent <> FTS_SL.
Proof.
  apply (@C4_no_unfollowed_link_returned sample_world).
  vm_compute. reflexivity.
Defined.

(** C4 as stated fails: with the path [/d], the filename [broken] and the
    direction [down], the link [/d/broken] is followed, resolves to nothing,
    comes back tagged [FTS_SLNONE] and is returned: the entry is the link
    itself. *)
Lemma C4_dangling_link_returned :
  exists ofts0 m ofts1 fts_ent,
    @oval_fts_open sample_world (sample_ent None "/d") (sample_ent None "broken")
                   None (sample_behaviors "-1" "down" None) mem0 = (inl ofts0, m) /\
    @oval_fts_read sample_world ofts0
    = (Some (mkOVAL_FTSENT "/d" 2 (Some "broken") 6), ofts1) /\
    fts_cur (ofts_fts ofts1) = Some (mkObj fts_ent (Symlink dev_local Missing)) /\
    fts_path fts_ent = "/d/broken" /\
    fts_info fts_ent = FTS_SLNONE /\
    symlink_tag (fts_info fts_ent) = true.
Proof.
  do 4 eexists.
  split; [lazy; reflexivity|].
  split; [lazy; reflexivity|].
  split; [lazy; reflexivity|].
  repeat split.
Qed.

(* ================================================================== *)
(** * C5: local filesystems only *)

Section LocalOnly.
Context `{W : World}.

Lemma fsdev_search_in (lfs : fsdev_t) (id : Z) :
  (fsdev_search lfs id =? 1) = true -> In id lfs.
Proof.
  unfold fsdev_search. destruct (existsb (Z.eqb id) lfs) eqn:E; [|discriminate].
  intros _. apply existsb_exists in E. destruct E as (x & Hin & Hx).
  apply Z.eqb_eq in Hx. subst. exact Hin.
Qed.

(** A directory that the recursion step lets the driver read is on a local
    device, the root apart when a filename is given. *)
Lemma grants_local (ofts : OVAL_FTS) (lfs : fsdev_t) :
  direction ofts = OVAL_RECURSE_DIRECTION_DOWN ->
  filesystem ofts = OVAL_RECURSE_FS_LOCAL ->
  ofts_path_regex ofts = None ->
  localdevs ofts = Some lfs ->
  grants (fun e => fts_statp e <> None
                   /\ (checked_level ofts <= fts_level e -> read_from_local_dir ofts e))
         (fun p => checked_level ofts - 1 <= fts_level p -> on_local_device ofts p)
         ofts.
Proof.
  intros Hd Hfs Hre Hdevs e [Hst _] Hi Hs Hlev.
  unfold turn_instr, oval_fts_prune, oval_fts_recurse in Hs.
  rewrite Hd, Hfs, Hre, Hi in Hs. simpl in Hs.
  unfold checked_level in Hlev.
  destruct ((fts_level e =? 0) && is_set (ofts_sfilename ofts)) eqn:Eroot.
  { apply andb_prop in Eroot. destruct Eroot as [E0 Efn]. rewrite Efn in Hlev.
    apply Z.eqb_eq in E0. lia. }
  destruct ((fts_level e <=? max_depth ofts) || (max_depth ofts =? -1));
    [|exfalso; apply Hs; reflexivity].
  destruct (Z.land (recurse ofts) OVAL_RECURSE_DIRS =? 0);
    [exfalso; apply Hs; reflexivity|].
  unfold OVAL_FTS_localp in Hs. rewrite Hdevs in Hs.
  destruct (fts_statp e) as [st|] eqn:Est; [|congruence]. simpl in Hs.
  destruct (fsdev_search lfs (st_dev st) =? 1) eqn:El; simpl in Hs;
    [|exfalso; apply Hs; reflexivity].
  exists lfs, st. split; [exact Hdevs|]. split; [exact Est|].
  apply fsdev_search_in. exact El.
Qed.

End LocalOnly.

(** C5, as amended.  With the filesystem [local], the direction [down] and
    no regular expression kept for pruning, the device set of the handle is
    the one made at open time, and every entry returned that lies at least
    two levels below the starting root -- one level when no filename is
    given -- was read from a directory that resides on a device of that
    set. *)
Theorem C5_read_from_local_directories `{W : World}
        (path_ent filename filepath : option SEXP_ent) (behaviors : SEXP_behaviors)
        (m m' : mem) (ofts0 ofts ofts' : OVAL_FTS) (ofts_ent : OVAL_FTSENT) :
  oval_fts_open path_ent filename filepath behaviors m = (inl ofts0, m') ->
  filesystem ofts0 = OVAL_RECURSE_FS_LOCAL ->
  direction ofts0 = OVAL_RECURSE_DIRECTION_DOWN ->
  ofts_path_regex ofts0 = None ->
  walked ofts0 ofts ->
  oval_fts_read ofts = (Some ofts_ent, ofts') ->
  exists lfs fts_ent,
    fsdev_init = Some lfs /\ localdevs ofts0 = Some lfs /\
    last_entry ofts' = Some fts_ent /\
    (checked_level ofts0 <= fts_level fts_ent -> read_from_local_dir ofts0 fts_ent).
Proof.
  intros Hopen Hfs Hd Hre Hw Hr.
  apply oval_fts_open_inl in Hopen.
  destruct Hopen as (literal & options & _ & _ & _ & _ & Hfts & _ & _ & _ & Hmode).
  assert (Hdevs : exists lfs, fsdev_init = Some lfs /\ localdevs ofts0 = Some lfs).
  { destruct path_ent.
    - destruct Hmode as (_ & _ & _ & _ & _ & _ & Hl). rewrite Hfs in Hl. exact Hl.
    - destruct Hmode as (_ & _ & _ & _ & _ & _ & _ & Hf & _).
      rewrite Hfs in Hf. discriminate. }
  destruct Hdevs as (lfs & Hinit & Hdevs).
  pose (P := fun e => fts_statp e <> None
                      /\ (checked_level ofts0 <= fts_level e
                          -> read_from_local_dir ofts0 e)).
  pose (Q := fun p => checked_level ofts0 - 1 <= fts_level p
                      -> on_local_device ofts0 p).
  assert (Hinv : fts_inv P Q (ofts_fts ofts0)).
  { rewrite Hfts. split; cbn; [|exact I]. constructor; [|constructor].
    unfold P, fts_root.
    destruct (fts_stat _ _) as [[i st] obj]. cbn.
    split; [discriminate|]. unfold checked_level.
    destruct (is_set (ofts_sfilename ofts0)); lia. }
  assert (Hstat : forall p i st,
             P p -> P (mkFTSENT i (fts_path p) (fts_pathlen p) (fts_name p)
                                (fts_namelen p) (fts_level p) (Some st)
                                (fts_parent p))).
  { intros p i st [_ Hp]. split; [discriminate|exact Hp]. }
  assert (Hinfo : forall p i, P p -> P (set_info i p))
    by (intros p i Hp; exact Hp).
  assert (Hchild : forall p name n,
             P p -> Q p -> fts_info p = FTS_D -> P (work_ent (fts_child p name n))).
  { intros p name n _ Hq Hi.
    destruct (fts_child_ent p name n) as (i & st & ->). unfold P. cbn.
    split; [discriminate|]. intro Hlev.
    exists p. split; [reflexivity|]. split; [exact Hi|]. apply Hq. lia. }
  destruct (@walked_yield W P Q Hstat Hinfo Hchild ofts0 ofts ofts' ofts_ent
              (@grants_local W ofts0 lfs Hd Hfs Hre Hdevs) Hinv Hw Hr)
    as (e & Hl & _ & _ & _ & Hp).
  exists lfs, e. repeat split; auto.
Qed.

(** The theorem at work: [/mnt/local/f] is returned for the path [/mnt] and
    the filename [f], and was read from [/mnt/local]. *)
Lemma C5_read_from_local_witness :
  exists lfs fts_ent,
    @fsdev_init sample_world = Some lfs /\
    localdevs (sample_open (sample_ent None "/mnt") (sample_ent None "f") None
                           (sample_behaviors "-1" "down" (Some "local"))) = Some lfs /\
    last_entry (snd (@oval_fts_read sample_world
                       (sample_open (sample_ent None "/mnt") (sample_ent None "f") None
                                    (sample_behaviors "-1" "down" (Some "local")))))
    = Some fts_ent /\
    (checked_level (sample_open (sample_ent None "/mnt") (sample_ent None "f") None
                                (sample_behaviors "-1" "down" (Some "local")))
     <= fts_level fts_ent ->
     read_from_local_dir
       (sample_open (sample_ent None "/mnt") (sample_ent None "f") None
                    (sample_behaviors "-1" "down" (Some "local"))) fts_ent).
Proof.
  apply (@C5_read_from_local_directories sample_world
           (sample_ent None "/mnt") (sample_ent None "f") None
           (sample_behaviors "-1" "down" (Some "local")) mem0
           (mkMem [Res_ref_filename; Res_ref_path; Res_localdevs; Res_fts;
                   Res_ofts; Res_path 0; Res_paths] 0)
           (sample_open (sample_ent None "/mnt") (sample_ent None "f") None
                        (sample_behaviors "-1" "down" (Some "local")))
           (sample_open (sample_ent None "/mnt") (sample_ent None "f") None
                        (sample_behaviors "-1" "down" (Some "local")))
           (snd (@oval_fts_read sample_world
                   (sample_open (sample_ent None "/mnt") (sample_ent None "f") None
                                (sample_behaviors "-1" "down" (Some "local")))))
           (mkOVAL_FTSENT "/mnt/local" 10 (Some "f") 1)).
  - vm_compute. reflexivity.
  - vm_compute. reflexivity.
  - vm_compute. reflexivity.
  - vm_compute. reflexivity.
  - apply walked_open.
  - vm_compute. reflexivity.
Defined.

(** C5 as stated fails.  The starting root is never tested: with the path
    [/mnt/remote], on a device that is not in the device set, and the
    filename [f], the file [/mnt/remote/f] is returned, whether the
    direction is [none] or [down]. *)
Lemma C5_remote_root_returned :
  (exists ofts0 m ofts1 fts_ent,
      @oval_fts_open sample_world (sample_ent None "/mnt/remote") (sample_ent None "f")
                     None (sample_behaviors "-1" "none" (Some "local")) mem0
      = (inl ofts0, m) /\
      filesystem ofts0 = OVAL_RECURSE_FS_LOCAL /\ localdevs ofts0 = Some [1] /\
      @oval_fts_read sample_world ofts0
      = (Some (mkOVAL_FTSENT "/mnt/remote" 11 (Some "f") 1), ofts1) /\
      last_entry ofts1 = Some fts_ent /\
      fts_statp fts_ent = Some dev_remote /\
      ~ on_local_device ofts0 fts_ent)
  /\
  (exists ofts0 m ofts1 fts_ent,
      @oval_fts_open sample_world (sample_ent None "/mnt/remote") (sample_ent None "f")
                     None (sample_behaviors "-1" "down" (Some "local")) mem0
      = (inl ofts0, m) /\
      filesystem ofts0 = OVAL_RECURSE_FS_LOCAL /\ localdevs ofts0 = Some [1] /\
      @oval_fts_read sample_world ofts0
      = (Some (mkOVAL_FTSENT "/mnt/remote" 11 (Some "f") 1), ofts1) /\
      last_entry ofts1 = Some fts_ent /\
      fts_statp fts_ent = Some dev_remote /\
      ~ on_local_device ofts0 fts_ent).
Proof.
  split.
  - do 4 eexists.
    split; [lazy; reflexivity|].
    split; [reflexivity|]. split; [reflexivity|].
    split; [lazy; reflexivity|].
    split; [lazy; reflexivity|].
    split; [reflexivity|].
    intros (lfs & st & Hl & Hs & Hin). simpl in Hl, Hs.
    inversion Hl; subst. inversion Hs; subst. simpl in Hin.
    destruct Hin as [Hin|[]]. discriminate.
  - do 4 eexists.
    split; [lazy; reflexivity|].
    split; [reflexivity|]. split; [reflexivity|].
    split; [lazy; reflexivity|].
    split; [lazy; reflexivity|].
    split; [reflexivity|].
    intros (lfs & st & Hl & Hs & Hin). simpl in Hl, Hs.
    inversion Hl; subst. inversion Hs; subst. simpl in Hin.
    destruct Hin as [Hin|[]]. discriminate.
Qed.

(* ================================================================== *)
(** * C6: no recursion, under [equals] *)

Section NoRecursion.
Context `{W : World}.

Lemma fts_read_spent (sp sp' : FTS) (r : option FTSENT) :
  spent sp -> fts_read sp = (r, sp') ->
  fts_todo sp' = [] /\
  (r = None \/ exists e, r = Some e /\ fts_info e = FTS_DP).
Proof.
  unfold spent, fts_read, fts_next. intros [Ht Hc] H. rewrite Ht in H.
  destruct (fts_cur sp) as [[p n]|]; [|inversion H; subst; split; auto].
  simpl in Hc. destruct Hc as [Hnf Hd].
  destruct (fts_instr sp) eqn:Ei; try congruence;
    destruct (fts_info p) eqn:Ep;
    try (specialize (Hd eq_refl); discriminate);
    inversion H; subst; simpl; split; auto.
  right. eexists. split; reflexivity.
Qed.

Lemma path_only_none_config (a b : OVAL_FTS) :
  same_config a b -> path_only_none a -> path_only_none b.
Proof. unfold same_config. intros -> H. exact H. Qed.

Lemma turn_instr_path_only_none (ofts : OVAL_FTS) (e : FTSENT) :
  path_only_none ofts ->
  turn_instr ofts e = match fts_info e with
                      | FTS_DP | FTS_DC => FTS_NOINSTR
                      | _ => FTS_SKIP
                      end.
Proof.
  intros (Hd & Hop & Hfn & Hfp & Hre).
  unfold turn_instr, oval_fts_prune, oval_fts_recurse.
  rewrite Hd, Hop, Hfn, Hfp, Hre. destruct (fts_info e); reflexivity.
Qed.

(** From a spent driver no turn returns an entry. *)
Lemma oval_fts_turn_spent (ofts : OVAL_FTS) :
  path_only_none ofts -> spent (ofts_fts ofts) ->
  match oval_fts_turn ofts with
  | Turn_null _ => True
  | Turn_continue o => spent (ofts_fts o)
  | Turn_break _ _ => False
  end.
Proof.
  intros Hm Hs.
  destruct (fts_read (ofts_fts ofts)) as [[e|] sp] eqn:Hr.
  - destruct (fts_read_spent Hs Hr) as [Ht [Hn|(e' & He & Hdp)]]; [discriminate|].
    inversion He; subst e'.
    destruct (fts_read_some _ Hr) as (_ & _ & n & Hc).
    unfold oval_fts_turn. rewrite Hr, Hdp. unfold spent. cbn.
    rewrite Ht, Hc. cbn. rewrite Hdp.
    destruct (fts_read_some _ Hr) as (Hi & _). rewrite Hi.
    repeat split; discriminate.
  - rewrite (oval_fts_turn_end _ Hr). exact I.
Qed.

(** Whatever a turn does on a driver just opened on one root, the driver is
    spent afterwards. *)
Lemma oval_fts_turn_spent_or_fresh (ofts : OVAL_FTS) :
  path_only_none ofts -> spent_or_fresh (ofts_fts ofts) ->
  match oval_fts_turn ofts with
  | Turn_null _ => True
  | Turn_continue o | Turn_break _ o => spent (ofts_fts o)
  end.
Proof.
  intros Hm [Hs|[Hc (w & Ht)]].
  - pose proof (oval_fts_turn_spent Hm Hs) as H.
    destruct (oval_fts_turn ofts); auto. contradiction.
  - destruct (fts_read (ofts_fts ofts)) as [[e|] sp] eqn:Hr;
      [|rewrite (oval_fts_turn_end _ Hr); exact I].
    assert (Hafter : spent (ofts_fts (after_turn ofts e sp))).
    { unfold fts_read in Hr. rewrite Hc in Hr.
      apply fts_next_some in Hr.
      destruct Hr as (_ & _ & w' & rest & n & Hw & Hrest & Hcur & Hkind).
      rewrite Ht in Hw. inversion Hw as [[Hw1 Hw2]].
      unfold after_turn, spent. cbn. rewrite Hrest, <- Hw2, Hcur. cbn.
      rewrite (turn_instr_path_only_none _ Hm).
      split; [reflexivity|].
      destruct (fts_info e); split; try discriminate; auto. }
    destruct (oval_fts_turn_entry _ Hr) as [(Hb & _)|[Hk|Hn]];
      [rewrite Hb|rewrite Hk|rewrite Hn]; auto.
Qed.

Lemma oval_fts_read_spent (ofts ofts' : OVAL_FTS) (r : option OVAL_FTSENT) :
  path_only_none ofts -> spent (ofts_fts ofts) ->
  oval_fts_read ofts = (r, ofts') -> r = None.
Proof.
  intros Hm Hs Hr. destruct r as [e|]; [|reflexivity]. exfalso.
  destruct (oval_fts_read_some _ Hr) as (o1 & Hk & Ht).
  assert (H1 : path_only_none o1 /\ spent (ofts_fts o1)).
  { apply (continues_invariant
             (fun o => path_only_none o /\ spent (ofts_fts o))) with (ofts := ofts);
      auto.
    intros o o' [Hmo Hso] Hto.
    pose proof (oval_fts_turn_config o) as Hc. rewrite Hto in Hc.
    pose proof (oval_fts_turn_spent Hmo Hso) as Hx. rewrite Hto in Hx.
    split; [eapply path_only_none_config; eassumption|exact Hx]. }
  destruct H1 as [Hm1 Hs1].
  pose proof (oval_fts_turn_spent Hm1 Hs1) as Hx. rewrite Ht in Hx. exact Hx.
Qed.

Lemma oval_fts_read_fresh (ofts ofts' : OVAL_FTS) (e : OVAL_FTSENT) :
  path_only_none ofts -> spent_or_fresh (ofts_fts ofts) ->
  oval_fts_read ofts = (Some e, ofts') ->
  path_only_none ofts' /\ spent (ofts_fts ofts').
Proof.
  intros Hm Hs Hr.
  destruct (oval_fts_read_some _ Hr) as (o1 & Hk & Ht).
  assert (H1 : path_only_none o1 /\ spent_or_fresh (ofts_fts o1)).
  { apply (continues_invariant
             (fun o => path_only_none o /\ spent_or_fresh (ofts_fts o)))
      with (ofts := ofts); auto.
    intros o o' [Hmo Hso] Hto.
    pose proof (oval_fts_turn_config o) as Hc. rewrite Hto in Hc.
    pose proof (oval_fts_turn_spent_or_fresh Hmo Hso) as Hx. rewrite Hto in Hx.
    split; [eapply path_only_none_config; eassumption|left; exact Hx]. }
  destruct H1 as [Hm1 Hs1].
  pose proof (oval_fts_turn_config o1) as Hc. rewrite Ht in Hc.
  pose proof (oval_fts_turn_spent_or_fresh Hm1 Hs1) as Hx. rewrite Ht in Hx.
  split; [eapply path_only_none_config; eassumption|exact Hx].
Qed.

Lemma oval_fts_read_all_spent (n : nat) (ofts : OVAL_FTS) :
  path_only_none ofts -> spent (ofts_fts ofts) -> oval_fts_read_all n ofts = [].
Proof.
  intros Hm Hs. destruct n as [|n]; [reflexivity|]. simpl.
  destruct (oval_fts_read ofts) as [r o'] eqn:Hr.
  rewrite (oval_fts_read_spent Hm Hs Hr). reflexivity.
Qed.

Lemma oval_fts_read_all_fresh (n : nat) (ofts : OVAL_FTS) :
  path_only_none ofts -> spent_or_fresh (ofts_fts ofts) ->
  (List.length (oval_fts_read_all n ofts) <= 1)%nat.
Proof.
  intros Hm Hs. destruct n as [|n]; [simpl; lia|]. simpl.
  destruct (oval_fts_read ofts) as [[e|] o'] eqn:Hr; [|simpl; lia].
  destruct (oval_fts_read_fresh Hm Hs Hr) as [Hm' Hs'].
  rewrite (oval_fts_read_all_spent n Hm' Hs'). simpl. lia.
Qed.

(** With a filename, only the root is read. *)
Lemma grants_root_only (ofts : OVAL_FTS) :
  direction ofts = OVAL_RECURSE_DIRECTION_NONE ->
  ofts_path_op ofts = OVAL_OPERATION_EQUALS ->
  ofts_path_regex ofts = None ->
  ofts_sfilepath ofts = None ->
  grants (fun e => 0 <= fts_level e <= 1
                   /\ (ofts_sfilename ofts = None -> fts_level e = 0))
         (fun e => fts_level e = 0 /\ ofts_sfilename ofts <> None) ofts.
Proof.
  intros Hd Hop Hre Hfp e [Hlev Hz] Hi Hs.
  unfold turn_instr, oval_fts_prune, oval_fts_recurse in Hs.
  rewrite Hd, Hop, Hre, Hfp, Hi in Hs. simpl in Hs.
  destruct (ofts_sfilename ofts) as [sfn|]; simpl in Hs;
    [|exfalso; apply Hs; reflexivity].
  destruct (Z.gtb_spec (fts_level e) 0); simpl in Hs;
    [exfalso; apply Hs; reflexivity|].
  split; [lia|discriminate].
Qed.

End NoRecursion.

(** C6, as amended.  With the direction [none] and the path operation
    [equals]: when no filename is given, the whole iteration returns at most
    one entry, and it is the starting root; when a filename is given, every
    entry returned is the starting root or lies directly in it. *)
Theorem C6_no_recursion_under_equals `{W : World}
        (path_ent filename filepath : option SEXP_ent) (behaviors : SEXP_behaviors)
        (m m' : mem) (ofts0 : OVAL_FTS) :
  oval_fts_open path_ent filename filepath behaviors m = (inl ofts0, m') ->
  direction ofts0 = OVAL_RECURSE_DIRECTION_NONE ->
  ofts_path_op ofts0 = OVAL_OPERATION_EQUALS ->
  (ofts_sfilename ofts0 = None ->
   forall n, (List.length (oval_fts_read_all n ofts0) <= 1)%nat) /\
  (forall ofts ofts' ofts_ent,
      walked ofts0 ofts ->
      oval_fts_read ofts = (Some ofts_ent, ofts') ->
      exists fts_ent,
        last_entry ofts' = Some fts_ent /\
        0 <= fts_level fts_ent <= 1 /\
        (ofts_sfilename ofts0 = None -> fts_level fts_ent = 0)).
Proof.
  intros Hopen Hd Hop.
  apply oval_fts_open_inl in Hopen.
  destruct Hopen as (literal & options & _ & _ & _ & _ & Hfts & _ & Hre & _ & Hmode).
  assert (Hre' : ofts_path_regex ofts0 = None).
  { apply Hre. rewrite Hop. discriminate. }
  assert (Hfp : ofts_sfilepath ofts0 = None).
  { destruct path_ent; [tauto|].
    destruct Hmode as (_ & _ & _ & _ & _ & _ & Hdir & _).
    rewrite Hd in Hdir. discriminate. }
  split.
  - intros Hfn n. apply oval_fts_read_all_fresh.
    + repeat split; assumption.
    + right. rewrite Hfts. split; [reflexivity|]. eexists. reflexivity.
  - intros ofts ofts' ofts_ent Hw Hr.
    pose (P := fun e => 0 <= fts_level e <= 1
                        /\ (ofts_sfilename ofts0 = None -> fts_level e = 0)).
    pose (Q := fun e => fts_level e = 0 /\ ofts_sfilename ofts0 <> None).
    assert (Hinv : fts_inv P Q (ofts_fts ofts0)).
    { rewrite Hfts. split; cbn; [|exact I]. constructor; [|constructor].
      unfold P.
      destruct (fts_root_path options (starting_root path_ent filepath literal)
                  (fs_lookup (starting_root path_ent filepath literal))) as [_ Hl].
      rewrite Hl. split; [lia|reflexivity]. }
    assert (Hchild : forall p name n,
               P p -> Q p -> fts_info p = FTS_D -> P (work_ent (fts_child p name n))).
    { intros p name n _ [Hl Hfn] _.
      destruct (fts_child_ent p name n) as (i & st & ->). unfold P. cbn.
      split; [lia|]. intro Hn. contradiction. }
    assert (Hstat : forall p i st,
               P p -> P (mkFTSENT i (fts_path p) (fts_pathlen p) (fts_name p)
                                  (fts_namelen p) (fts_level p) (Some st)
                                  (fts_parent p)))
      by (intros p i st Hp; exact Hp).
    assert (Hinfo : forall p i, P p -> P (set_info i p))
      by (intros p i Hp; exact Hp).
    destruct (@walked_yield W P Q Hstat Hinfo Hchild ofts0 ofts ofts' ofts_ent
                (@grants_root_only W ofts0 Hd Hop Hre' Hfp) Hinv Hw Hr)
      as (e & Hl & _ & _ & Hp).
    exists e. split; [exact Hl|]. exact Hp.
Qed.

(** The theorem at work: the directory [/a], given alone. *)
Lemma C6_no_recursion_witness :
  (ofts_sfilename (sample_open (sample_ent None "/a") (sample_ent None "") None
                               (sample_behaviors "-1" "none" None)) = None ->
   forall n,
     (List.length (@oval_fts_read_all sample_world n
                     (sample_open (sample_ent None "/a") (sample_ent None "") None
                                  (sample_behaviors "-1" "none" None))) <= 1)%nat) /\
  (forall ofts ofts' ofts_ent,
      @walked sample_world
              (sample_open (sample_ent None "/a") (sample_ent None "") None
                           (sample_behaviors "-1" "none" None)) ofts ->
      @oval_fts_read sample_world ofts = (Some ofts_ent, ofts') ->
      exists fts_ent,
        last_entry ofts' = Some fts_ent /\
        0 <= fts_level fts_ent <= 1 /\
        (ofts_sfilename (sample_open (sample_ent None "/a") (sample_ent None "") None
                                     (sample_behaviors "-1" "none" None)) = None ->
         fts_level fts_ent = 0)).
Proof.
  apply (@C6_no_recursion_under_equals sample_world
           (sample_ent None "/a") (sample_ent None "") None
           (sample_behaviors "-1" "none" None) mem0
           (mkMem [Res_ref_path; Res_fts; Res_ofts; Res_path 0; Res_paths] 0)).
  - vm_compute. reflexivity.
  - vm_compute. reflexivity.
  - vm_compute. reflexivity.
Defined.

(** C6 as stated fails: with the path [/etc] under [equals], every filename
    but [shadow] and the direction [none], the one starting root gives two
    entries. *)
Lemma C6_two_entries_one_root :
  exists ofts0 m,
    @oval_fts_open sample_world (sample_ent None "/etc") (sample_ent (Some 2) "shadow")
                   None (sample_behaviors "-1" "none" None) mem0 = (inl ofts0, m) /\
    direction ofts0 = OVAL_RECURSE_DIRECTION_NONE /\
    ofts_path_op ofts0 = OVAL_OPERATION_EQUALS /\
    ofts_st_path ofts0 = Some ["/etc"] /\
    map fst (@oval_fts_read_all sample_world 8 ofts0)
    = [mkOVAL_FTSENT "/etc" 4 (Some "passwd") 6;
       mkOVAL_FTSENT "/etc" 4 (Some "group") 5].
Proof.
  do 2 eexists.
  split; [lazy; reflexivity|].
  repeat (split; [reflexivity|]). vm_compute. reflexivity.
Qed.

(* ================================================================== *)
(** * C7: the starting root *)



(* ================================================================== *)
(** * C8: the regular expression kept for pruning *)

Lemma prunable_true_iff (firstbyte rc : Z) :
  prunable firstbyte rc = true
  <-> (firstbyte = 47 \/ firstbyte = -2) /\ rc <> PCRE_ERROR_BADPARTIAL.
Proof.
  unfold prunable.
  destruct (Z.eqb_spec firstbyte 47) as [E1|E1];
    destruct (Z.eqb_spec firstbyte (-2)) as [E2|E2];
    destruct (Z.eqb_spec rc PCRE_ERROR_BADPARTIAL) as [E3|E3]; simpl;
    split; intro H; try discriminate; try reflexivity;
    intuition congruence.
Qed.

(** What the code does (lines 313-353).  When the operation is [pattern
    match], a handle returned by [oval_fts_open] holds the compiled pattern
    iff the engine reports [/] or -2 for [PCRE_INFO_FIRSTBYTE] and takes the
    partial-match probe; otherwise it holds neither the compiled pattern nor
    its study data. *)
Lemma regex_kept_iff_firstbyte `{W : World}
      (path filename filepath : option SEXP_ent) (behaviors : SEXP_behaviors)
      (m m' : mem) (ofts : OVAL_FTS) :
  oval_fts_open path filename filepath behaviors m = (inl ofts, m') ->
  ofts_path_op ofts = OVAL_OPERATION_PATTERN_MATCH ->
  exists pattern regex,
    ent_string (open_entity path filepath) = Some pattern /\
    pcre_compile pattern = Some regex /\
    (ofts_path_regex ofts = Some regex
     <-> (pcre_firstbyte regex (pcre_study regex) = 47
          \/ pcre_firstbyte regex (pcre_study regex) = -2)
         /\ pcre_exec regex (pcre_study regex) "/f0o/bar/baz" 12 PCRE_PARTIAL
            <> PCRE_ERROR_BADPARTIAL) /\
    (ofts_path_regex ofts = Some regex ->
     ofts_path_regex_extra ofts = pcre_study regex) /\
    (ofts_path_regex ofts <> Some regex ->
     ofts_path_regex ofts = None /\ ofts_path_regex_extra ofts = None).
Proof.
  intros H Hop. apply oval_fts_open_inl in H.
  destruct H as (pattern & options & Hs & _ & _ & _ & _ & _ & _ & Hre & _).
  destruct (Hre Hop) as (regex & Hcomp & Hkept).
  exists pattern, regex. split; [exact Hs|]. split; [exact Hcomp|].
  rewrite <- prunable_true_iff.
  destruct (prunable _ _); inversion Hkept as [[Hr He]]; rewrite Hr.
  - split; [tauto|]. split; [reflexivity|]. intro Hn. congruence.
  - split; [split; discriminate|]. split; [discriminate|]. intros _. split; reflexivity.
Qed.

(** C8, on a failing input.  The pattern [[ev]tc/passwd] is not anchored at
    the start and its first byte is not [/]: the specification has its
    compiled form discarded, and the comment of lines 339-345 reads -2 as
    "the pattern starts with a [^]".  The engine reports -2 for a pattern
    with no fixed first byte as well, so [oval_fts_open] keeps the compiled
    pattern.  The partial-match test then prunes the root [/], and the
    iteration returns nothing, although the entity accepts [/etc/passwd];
    with the compiled pattern discarded the file is returned. *)
Theorem C8_unanchored_pattern_kept :
  exists ofts0 m regex,
    @oval_fts_open sample_world_classes None None
                   (sample_ent (Some 11) "[ev]tc/passwd")
                   (sample_behaviors "-1" "down" None) mem0 = (inl ofts0, m) /\
    ofts_path_op ofts0 = OVAL_OPERATION_PATTERN_MATCH /\
    @pcre_compile sample_world_classes "[ev]tc/passwd" = Some regex /\
    ofts_path_regex ofts0 = Some regex /\
    ~ prunable_spec "[ev]tc/passwd"
        (@pcre_exec sample_world_classes regex
                    (@pcre_study sample_world_classes regex)
                    "/f0o/bar/baz" 12 PCRE_PARTIAL) /\
    @probe_entobj_cmp sample_world_classes
                      (mkEnt (Some 11) (Some (SEXP_string "[ev]tc/passwd")))
                      "/etc/passwd" = OVAL_RESULT_TRUE /\
    @oval_fts_read_all sample_world_classes 64 ofts0 = [] /\
    map fst (@oval_fts_read_all sample_world_classes 64 (regex_discarded ofts0))
    = [mkOVAL_FTSENT "/etc" 4 (Some "passwd") 6].
Proof.
  do 3 eexists.
  split; [lazy; reflexivity|].
  split; [reflexivity|]. split; [reflexivity|]. split; [reflexivity|].
  split.
  { intros [[Hb|Ha] _]; [vm_compute in Hb|vm_compute in Ha]; discriminate. }
  split; [vm_compute; reflexivity|].
  split; vm_compute; reflexivity.
Qed.

(* ================================================================== *)
(** * C9: what [oval_fts_open] holds when it fails *)

(** C9, on failing inputs.  When the pattern does not compile,
    [oval_fts_open] returns [NULL] and the stream of the driver, the handle
    and the starting paths stay allocated; likewise, with the compiled
    pattern on top, when the device set cannot be made; and when [fts_open]
    fails, [NULL] is dereferenced with the starting paths allocated.  Invalid
    behaviours leave nothing allocated. *)
Theorem C9_open_failure_leaks :
  @oval_fts_open sample_world (sample_ent (Some 11) "(") (sample_ent None "b.txt")
                 None (sample_behaviors "-1" "down" None) mem0
  = (inr Exit_null, mkMem [Res_fts; Res_ofts; Res_path 0; Res_paths] 0)
  /\ @oval_fts_open sample_world_nodevs (sample_ent (Some 11) "^/a")
                    (sample_ent None "b.txt") None
                    (sample_behaviors "-1" "down" (Some "local")) mem0
     = (inr Exit_null, mkMem [Res_regex; Res_fts; Res_ofts; Res_path 0; Res_paths] 0)
  /\ @oval_fts_open sample_world_nofts (sample_ent None "/a") (sample_ent None "b.txt")
                    None (sample_behaviors "-1" "down" None) mem0
     = (inr Exit_segv, mkMem [Res_path 0; Res_paths] 0)
  /\ @oval_fts_open sample_world (sample_ent None "/a") (sample_ent None "b.txt")
                    None (sample_behaviors "-1" "sideways" None) mem0
     = (inr Exit_null, mkMem [] 0).
Proof.
  split; [vm_compute; reflexivity|].
  split; [vm_compute; reflexivity|].
  split; vm_compute; reflexivity.
Qed.

(* ================================================================== *)
(** * C10: the filepath mode *)

Lemma prune_instr_config `{W : World} (a b : OVAL_FTS) (e : FTSENT) :
  same_config a b -> prune_instr b e = prune_instr a e.
Proof. unfold same_config. intros ->. reflexivity. Qed.

Lemma oval_fts_recurse_no_direction `{W : World} (ofts : OVAL_FTS) (fts_ent : FTSENT) :
  direction ofts = -1 -> oval_fts_recurse ofts fts_ent = [].
Proof. intro Hd. unfold oval_fts_recurse. rewrite Hd. reflexivity. Qed.

Lemma turn_instr_no_direction `{W : World} (ofts : OVAL_FTS) (fts_ent : FTSENT) :
  direction ofts = -1 -> turn_instr ofts fts_ent = prune_instr ofts fts_ent.
Proof.
  intro Hd. unfold turn_instr, prune_instr.
  rewrite (oval_fts_recurse_no_direction _ _ Hd).
  destruct (fts_info fts_ent) eqn:Ei; try reflexivity;
    unfold oval_fts_prune; rewrite Ei; simpl;
    destruct (ofts_path_regex ofts); reflexivity.
Qed.

(** C10.  A handle opened in filepath mode does not depend on the
    behaviours; its [max_depth], [direction] and [filesystem] are -1 and it
    has no device set; whatever the driver is at, the recursion step calls
    [fts_set] not once, and the instruction that a turn of the loop leaves
    on an entry is the one of the partial-match optimisation alone. *)
Theorem C10_filepath_mode_unsteered `{W : World}
        (filename filepath : option SEXP_ent) (behaviors : SEXP_behaviors)
        (m m' : mem) (ofts : OVAL_FTS) :
  oval_fts_open None filename filepath behaviors m = (inl ofts, m') ->
  (forall behaviors',
      oval_fts_open None filename filepath behaviors' m = (inl ofts, m')) /\
  max_depth ofts = -1 /\ direction ofts = -1 /\ filesystem ofts = -1 /\
  localdevs ofts = None /\
  (ofts_path_regex ofts = None ->
   forall fts_ent, prune_instr ofts fts_ent = FTS_NOINSTR) /\
  forall o, same_config ofts o ->
    (forall fts_ent, oval_fts_recurse o fts_ent = []) /\
    (forall fts_ent sp, fts_read (ofts_fts o) = (Some fts_ent, sp) ->
       exists o',
         (oval_fts_turn o = Turn_continue o' \/ oval_fts_turn o = Turn_null o'
          \/ exists r, oval_fts_turn o = Turn_break r o') /\
         fts_cur (ofts_fts o') = fts_cur sp /\
         fts_todo (ofts_fts o') = fts_todo sp /\
         fts_instr (ofts_fts o') = prune_instr ofts fts_ent).
Proof.
  intro H. split; [intro behaviors'; rewrite <- H; reflexivity|].
  apply oval_fts_open_inl in H.
  destruct H as (literal & options & _ & _ & _ & _ & _ & _ & _ & _ & Hmode).
  cbv iota in Hmode.
  destruct Hmode as (_ & _ & _ & _ & _ & Hmax & Hdir & Hfs & _ & Hdevs).
  split; [exact Hmax|]. split; [exact Hdir|]. split; [exact Hfs|].
  split; [exact Hdevs|]. split.
  { intros Hre e. unfold prune_instr, oval_fts_prune. rewrite Hre. reflexivity. }
  intros o Hcfg.
  assert (Hd : direction o = -1).
  { unfold same_config in Hcfg. rewrite Hcfg. exact Hdir. }
  split; [intro e; apply oval_fts_recurse_no_direction; exact Hd|].
  intros e sp Hr. exists (after_turn o e sp). split.
  - destruct (oval_fts_turn_entry _ Hr) as [(Hb & _)|[Hc|Hn]].
    + right. right. eexists. exact Hb.
    + left. exact Hc.
    + right. left. exact Hn.
  - unfold after_turn. cbn. repeat split.
    rewrite (turn_instr_no_direction _ _ Hd). apply prune_instr_config. exact Hcfg.
Qed.

(** The theorem at work on the filepath pattern [^/a/b.txt]. *)
Lemma C10_filepath_mode_witness :
  (forall behaviors',
      @oval_fts_open sample_world None None (sample_ent (Some 11) "^/a/b.txt")
                     behaviors' mem0
      = (inl (sample_open None None (sample_ent (Some 11) "^/a/b.txt")
                          (sample_behaviors "3" "down" (Some "local"))),
         mkMem [Res_ref_filepath; Res_regex; Res_fts; Res_ofts;
                Res_path 0; Res_paths] 0)) /\
  max_depth (sample_open None None (sample_ent (Some 11) "^/a/b.txt")
                         (sample_behaviors "3" "down" (Some "local"))) = -1 /\
  direction (sample_open None None (sample_ent (Some 11) "^/a/b.txt")
                         (sample_behaviors "3" "down" (Some "local"))) = -1 /\
  filesystem (sample_open None None (sample_ent (Some 11) "^/a/b.txt")
                          (sample_behaviors "3" "down" (Some "local"))) = -1 /\
  localdevs (sample_open None None (sample_ent (Some 11) "^/a/b.txt")
                         (sample_behaviors "3" "down" (Some "local"))) = None.
Proof.
  pose proof (@C10_filepath_mode_unsteered sample_world None
                (sample_ent (Some 11) "^/a/b.txt")
                (sample_behaviors "3" "down" (Some "local")) mem0
                (mkMem [Res_ref_filepath; Res_regex; Res_fts; Res_ofts;
                        Res_path 0; Res_paths] 0)
                (sample_open None None (sample_ent (Some 11) "^/a/b.txt")
                             (sample_behaviors "3" "down" (Some "local")))
                eq_refl) as (H1 & H2 & H3 & H4 & H5 & _).
  repeat split; assumption.
Defined.


(* ================================================================== *)
(** * Termination of [oval_fts_read] *)

Lemma resolve_not_symlink (n : node) : is_symlink (resolve n) = false.
Proof.
  induction n as [| st | st entries | st t IH | st]; simpl; try reflexivity.
  exact IH.
Qed.

Lemma node_weight_resolve (n : node) : (node_weight (resolve n) <= node_weight n)%nat.
Proof.
  induction n as [| st | st entries | st t IH | st]; simpl; try lia.
Qed.

Lemma node_info_SL (n : node) : fst (node_info n) = FTS_SL -> is_symlink n = true.
Proof. destruct n; simpl; intro H; try discriminate; reflexivity. Qed.

Lemma fts_stat_physical (n obj : node) (i : fts_info_t) (st : stat) :
  fts_stat false n = (i, st, obj) ->
  obj = n /\ (i = FTS_SL -> is_symlink n = true).
Proof.
  destruct n; simpl; intro H; inversion H; subst; split; auto; discriminate.
Qed.

Lemma fts_stat_ok (follow : bool) (n obj : node) (i : fts_info_t) (st : stat) :
  fts_stat follow n = (i, st, obj) -> i = FTS_SL -> is_symlink obj = true.
Proof.
  destruct n as [| s | s es | s t | s]; simpl; intro H;
    try (inversion H; subst; intro; try discriminate; reflexivity).
  destruct follow; [|inversion H; subst; reflexivity].
  pose proof (resolve_not_symlink t) as Hr.
  destruct (resolve t); inversion H; subst; intro Hi; discriminate.
Qed.

(** Following a link leaves less to do than the link promised. *)
Lemma fts_stat_follow_weight (s st : stat) (t obj : node) (i : fts_info_t) :
  fts_stat true (Symlink s t) = (i, st, obj) ->
  (match i with
   | FTS_D | FTS_SL => S (node_weight obj)
   | _ => O
   end < S (S (node_weight t)))%nat.
Proof.
  simpl. pose proof (node_weight_resolve t) as Hw.
  pose proof (resolve_not_symlink t) as Hr.
  destruct (resolve t); intro H; inversion H; subst; simpl in *; try lia.
Qed.

Lemma fts_build_weight (p : FTSENT) (entries : list (string * node)) (st : stat) :
  (list_sum (map work_weight (fts_build p entries)) <= node_weight (Dir st entries))%nat.
Proof.
  simpl. induction entries as [|[name n] entries IH]; simpl; [lia|].
  unfold fts_child at 1. destruct (fts_stat false n) as [[i s] obj] eqn:Es.
  apply fts_stat_physical in Es. destruct Es as [-> _].
  unfold work_weight at 1, pending_weight. cbn [fts_info].
  destruct i; lia.
Qed.

Lemma fts_build_ok (p : FTSENT) (entries : list (string * node)) :
  Forall work_ok (fts_build p entries).
Proof.
  unfold fts_build. apply Forall_map. apply Forall_forall. intros [name n] _.
  unfold fts_child. cbn [fst snd].
  destruct (fts_stat false n) as [[i s] obj] eqn:Es.
  simpl. intro Hi. apply fts_stat_physical in Es. destruct Es as [-> Hs]. auto.
Qed.

Lemma fts_next_decreases (sp sp' : FTS) (e : FTSENT) :
  Forall work_ok (fts_todo sp) ->
  fts_next sp = (Some e, sp') ->
  fts_wf sp' /\
  (fts_weight sp' < list_sum (map work_weight (fts_todo sp)))%nat.
Proof.
  unfold fts_next, fts_wf, fts_weight. intros Hall H.
  destruct (fts_todo sp) as [|[e0 n0|d n0] rest]; inversion H; subst; clear H;
    inversion Hall; subst; cbn.
  - split; [|lia]. split; [assumption|]. split; [assumption|discriminate].
  - split; [|unfold pending_weight; cbn; lia].
    split; [assumption|]. split; discriminate.
Qed.

Lemma fts_leave_decreases (sp : FTS) (p : FTSENT) (n : node) :
  fts_cur sp = Some (mkObj p n) ->
  fts_info p = FTS_D ->
  Forall work_ok (fts_todo sp) ->
  fts_wf (mkFTS (fts_options sp) (fts_dev sp) (Some (mkObj (set_info FTS_DP p) n))
                FTS_NOINSTR (fts_todo sp))
  /\ (fts_weight (mkFTS (fts_options sp) (fts_dev sp)
                        (Some (mkObj (set_info FTS_DP p) n))
                        FTS_NOINSTR (fts_todo sp))
      < fts_weight sp)%nat.
Proof.
  intros Ec Hd Hall. unfold fts_wf, fts_weight. cbn. rewrite Ec.
  unfold pending_weight. cbn. rewrite Hd. unfold list_sum.
  split; [|lia]. split; [exact Hall|]. split; discriminate.
Qed.

Lemma fts_follow_decreases (sp : FTS) (p : FTSENT) (n obj : node)
      (info : fts_info_t) (st : stat) :
  fts_cur sp = Some (mkObj p n) ->
  fts_info p = FTS_SL ->
  is_symlink n = true ->
  Forall work_ok (fts_todo sp) ->
  fts_stat true n = (info, st, obj) ->
  fts_wf (mkFTS (fts_options sp) (fts_dev sp)
                (Some (mkObj (mkFTSENT info (fts_path p) (fts_pathlen p) (fts_name p)
                                       (fts_namelen p) (fts_level p) (Some st)
                                       (fts_parent p)) obj))
                FTS_NOINSTR (fts_todo sp))
  /\ (fts_weight (mkFTS (fts_options sp) (fts_dev sp)
                        (Some (mkObj (mkFTSENT info (fts_path p) (fts_pathlen p)
                                               (fts_name p) (fts_namelen p)
                                               (fts_level p) (Some st)
                                               (fts_parent p)) obj))
                        FTS_NOINSTR (fts_todo sp))
      < fts_weight sp)%nat.
Proof.
  intros Ec Hi Hn Hall Es.
  destruct n as [|?|? ?|s t|?]; try discriminate.
  pose proof (@fts_stat_follow_weight _ _ _ _ _ Es) as Hw.
  unfold fts_wf, fts_weight. cbn. rewrite Ec.
  unfold pending_weight. cbn [fts_info node_weight]. rewrite Hi.
  unfold list_sum in *.
  split.
  - split; [exact Hall|]. split; [|discriminate]. apply (@fts_stat_ok _ _ _ _ _ Es).
  - destruct info; lia.
Qed.

Lemma fts_descend_decreases (sp sp' : FTS) (p e : FTSENT) (st : stat)
      (entries : list (string * node)) :
  fts_cur sp = Some (mkObj p (Dir st entries)) ->
  fts_info p = FTS_D ->
  Forall work_ok (fts_todo sp) ->
  fts_next (mkFTS (fts_options sp) (fts_dev sp) (Some (mkObj p (Dir st entries)))
                  FTS_NOINSTR
                  (fts_build p entries ++ Leave p (Dir st entries) :: fts_todo sp))
  = (Some e, sp') ->
  fts_wf sp' /\ (fts_weight sp' < fts_weight sp)%nat.
Proof.
  intros Ec Hd Hall Hx.
  assert (Hall' : Forall work_ok (fts_build p entries ++ Leave p (Dir st entries)
                                            :: fts_todo sp)).
  { apply Forall_app. split; [apply fts_build_ok|].
    constructor; [exact I|exact Hall]. }
  destruct (@fts_next_decreases
              (mkFTS (fts_options sp) (fts_dev sp) (Some (mkObj p (Dir st entries)))
                     FTS_NOINSTR
                     (fts_build p entries ++ Leave p (Dir st entries) :: fts_todo sp))
              sp' e Hall' Hx) as [Hwf Hlt].
  split; [exact Hwf|].
  cbn [fts_todo] in Hlt. rewrite map_app, list_sum_app in Hlt.
  pose proof (fts_build_weight p entries st) as Hb.
  unfold fts_weight at 2. rewrite Ec. unfold pending_weight. rewrite Hd.
  cbn [map work_weight] in Hlt. unfold list_sum in *. cbn [fold_right] in Hlt. lia.
Qed.

Lemma fts_read_decreases (sp sp' : FTS) (e : FTSENT) :
  fts_wf sp ->
  fts_read sp = (Some e, sp') ->
  fts_wf sp' /\ (fts_weight sp' < fts_weight sp)%nat.
Proof.
  unfold fts_read. intros [Hall Hcur] H.
  destruct (fts_cur sp) as [[p n]|] eqn:Ec.
  2:{ destruct (fts_next_decreases _ Hall H) as [Hwf Hlt]. split; [exact Hwf|].
      unfold fts_weight at 2. rewrite Ec. exact Hlt. }
  cbn [obj_ent obj_node] in Hcur. destruct Hcur as [Hsl Hfo].
  assert (Hnext :
    fts_next sp = (Some e, sp') ->
    fts_wf sp' /\ (fts_weight sp' < fts_weight sp)%nat).
  { intro Hx. destruct (fts_next_decreases _ Hall Hx) as [Hwf Hlt].
    split; [exact Hwf|]. unfold fts_weight at 2. rewrite Ec. lia. }
  assert (Hleave :
    fts_info p = FTS_D ->
    (Some (set_info FTS_DP p),
     mkFTS (fts_options sp) (fts_dev sp) (Some (mkObj (set_info FTS_DP p) n))
           FTS_NOINSTR (fts_todo sp)) = (Some e, sp') ->
    fts_wf sp' /\ (fts_weight sp' < fts_weight sp)%nat).
  { intros Hd Hx. injection Hx as _ <-. apply fts_leave_decreases; assumption. }
  assert (Hdir :
    fts_info p = FTS_D ->
    (if isset (fts_options sp) FTS_XDEV && negb (ent_dev p =? fts_dev sp)
     then (Some (set_info FTS_DP p),
           mkFTS (fts_options sp) (fts_dev sp) (Some (mkObj (set_info FTS_DP p) n))
                 FTS_NOINSTR (fts_todo sp))
     else match n with
          | Dir _ (en :: ens) =>
              fts_next (mkFTS (fts_options sp) (fts_dev sp) (Some (mkObj p n)) FTS_NOINSTR
                              (fts_build p (en :: ens) ++ Leave p n :: fts_todo sp))
          | _ => (Some (set_info FTS_DP p),
                  mkFTS (fts_options sp) (fts_dev sp)
                        (Some (mkObj (set_info FTS_DP p) n))
                        FTS_NOINSTR (fts_todo sp))
          end) = (Some e, sp') ->
    fts_wf sp' /\ (fts_weight sp' < fts_weight sp)%nat).
  { intros Hd.
    destruct (isset (fts_options sp) FTS_XDEV && negb (ent_dev p =? fts_dev sp));
      [apply Hleave; exact Hd|].
    destruct n as [|?|st [|en ens]|? ?|?]; try (apply Hleave; exact Hd).
    intro Hx. eapply fts_descend_decreases; eassumption. }
  assert (Hfollow :
    fts_info p = FTS_SL ->
    (let '(info, st, obj) := fts_stat true n in
     (Some (mkFTSENT info (fts_path p) (fts_pathlen p) (fts_name p) (fts_namelen p)
                     (fts_level p) (Some st) (fts_parent p)),
      mkFTS (fts_options sp) (fts_dev sp)
            (Some (mkObj (mkFTSENT info (fts_path p) (fts_pathlen p) (fts_name p)
                                   (fts_namelen p) (fts_level p) (Some st)
                                   (fts_parent p)) obj))
            FTS_NOINSTR (fts_todo sp))) = (Some e, sp') ->
    fts_wf sp' /\ (fts_weight sp' < fts_weight sp)%nat).
  { intros Hi. specialize (Hsl Hi).
    destruct (fts_stat true n) as [[info st] obj] eqn:Es.
    intro Hx. injection Hx as _ <-.
    eapply fts_follow_decreases; eassumption. }
  destruct (fts_instr sp) eqn:Ei; destruct (fts_info p) eqn:Ep;
    try (apply Hnext; exact H);
    try (apply Hleave; [reflexivity|exact H]);
    try (apply Hdir; [reflexivity|exact H]);
    try (apply Hfollow; [reflexivity|exact H]);
    specialize (Hfo eq_refl); discriminate.
Qed.

Section Total.
Context `{W : World}.

Lemma final_instr_follow (ofts : OVAL_FTS) (e : FTSENT) :
  final_instr (oval_fts_recurse ofts e) = FTS_FOLLOW -> fts_info e = FTS_SL.
Proof.
  unfold oval_fts_recurse.
  repeat match goal with
         | |- context [if ?c then _ else _] => destruct c
         | |- context [match fts_info e with _ => _ end] => destruct (fts_info e)
         end; simpl; intro H; try discriminate; reflexivity.
Qed.

Lemma turn_instr_follow (ofts : OVAL_FTS) (e : FTSENT) :
  turn_instr ofts e = FTS_FOLLOW -> fts_info e = FTS_SL.
Proof.
  unfold turn_instr. intro H.
  destruct (oval_fts_prune ofts e).
  - destruct (fts_info e) eqn:Ei; try discriminate; try reflexivity;
      rewrite <- Ei; apply (final_instr_follow ofts); exact H.
  - destruct (fts_info e); discriminate.
  - destruct (fts_info e); simpl in H; try discriminate; reflexivity.
  - destruct (fts_info e); discriminate.
Qed.

(** A turn that does not end the call leaves the driver with less to do. *)
Lemma oval_fts_turn_decreases (ofts : OVAL_FTS) :
  fts_wf (ofts_fts ofts) ->
  match oval_fts_turn ofts with
  | Turn_null _ => True
  | Turn_continue o | Turn_break _ o =>
      fts_wf (ofts_fts o)
      /\ (fts_weight (ofts_fts o) < fts_weight (ofts_fts ofts))%nat
  end.
Proof.
  intro Hwf.
  destruct (fts_read (ofts_fts ofts)) as [[e|] sp] eqn:Hr;
    [|rewrite (oval_fts_turn_end _ Hr); exact I].
  destruct (fts_read_decreases Hwf Hr) as [[Hall Hcur] Hlt].
  destruct (fts_read_some _ Hr) as (_ & _ & n & Hc).
  assert (Hafter : fts_wf (ofts_fts (after_turn ofts e sp))
                   /\ (fts_weight (ofts_fts (after_turn ofts e sp))
                       < fts_weight (ofts_fts ofts))%nat).
  { unfold after_turn, fts_wf, fts_weight in *. cbn. rewrite Hc in *. cbn in *.
    split; [|exact Hlt]. split; [exact Hall|]. split; [apply Hcur|].
    apply turn_instr_follow. }
  destruct (oval_fts_turn_entry _ Hr) as [(Hb & _)|[Hk|Hn]];
    [rewrite Hb|rewrite Hk|rewrite Hn]; auto.
Qed.

Lemma oval_fts_read_loop_total (fuel : nat) (ofts : OVAL_FTS) :
  fts_wf (ofts_fts ofts) ->
  (fts_weight (ofts_fts ofts) < fuel)%nat ->
  exists r ofts', oval_fts_read_loop fuel ofts = Some (r, ofts').
Proof.
  revert ofts. induction fuel as [|fuel IH]; intros ofts Hwf Hlt; [lia|].
  simpl. pose proof (@oval_fts_turn_decreases ofts Hwf) as Ht.
  destruct (oval_fts_turn ofts) as [o|o|e o].
  - exists None, o. reflexivity.
  - destruct Ht as [Hwf' Hlt']. apply IH; [exact Hwf'|lia].
  - exists (Some e), o. reflexivity.
Qed.

Lemma fts_root_ok (options : Z) (p : string) (n : node) :
  work_ok (fts_root options p n).
Proof.
  unfold fts_root.
  destruct (fts_stat (isset options FTS_COMFOLLOW) n) as [[i st] obj] eqn:Es.
  simpl. apply (@fts_stat_ok _ _ _ _ _ Es).
Qed.

Lemma walked_fts_wf (ofts0 ofts : OVAL_FTS) :
  fts_wf (ofts_fts ofts0) -> walked ofts0 ofts -> fts_wf (ofts_fts ofts).
Proof.
  intros H0 Hw.
  apply (walked_invariant (fun o => fts_wf (ofts_fts o))) with (ofts0 := ofts0); auto.
  - intros o o' Hi Ht. pose proof (@oval_fts_turn_decreases o Hi) as Hx.
    rewrite Ht in Hx. apply Hx.
  - intros o e o' Hi Ht. pose proof (@oval_fts_turn_decreases o Hi) as Hx.
    rewrite Ht in Hx. apply Hx.
Qed.

End Total.

(** [oval_fts_read] returns.  On every handle of an iteration the loop
    comes to an end within the turns it is given: with an entry, or with
    [NULL]. *)
Theorem oval_fts_read_returns `{W : World}
        (path_ent filename filepath : option SEXP_ent) (behaviors : SEXP_behaviors)
        (m m' : mem) (ofts0 ofts : OVAL_FTS) :
  oval_fts_open path_ent filename filepath behaviors m = (inl ofts0, m') ->
  walked ofts0 ofts ->
  exists r ofts',
    oval_fts_read_loop (S (fts_weight (ofts_fts ofts))) ofts = Some (r, ofts') /\
    oval_fts_read ofts = (r, ofts').
Proof.
  intros Hopen Hw.
  apply oval_fts_open_inl in Hopen.
  destruct Hopen as (literal & options & _ & _ & _ & _ & Hfts & _).
  assert (H0 : fts_wf (ofts_fts ofts0)).
  { rewrite Hfts. split; cbn; [|exact I].
    constructor; [apply fts_root_ok|constructor]. }
  pose proof (@walked_fts_wf W ofts0 ofts H0 Hw) as Hwf.
  destruct (@oval_fts_read_loop_total W (S (fts_weight (ofts_fts ofts))) ofts Hwf)
    as (r & o' & Hl); [lia|].
  exists r, o'. split; [exact Hl|]. unfold oval_fts_read. rewrite Hl. reflexivity.
Qed.

(** The theorem at work on the sample handle for [/a]. *)
Lemma oval_fts_read_returns_witness :
  exists r ofts',
    @oval_fts_read_loop sample_world
      (S (fts_weight (ofts_fts (sample_open (sample_ent None "/a")
                                            (sample_ent None "b.txt") None
                                            (sample_behaviors "-1" "down" None)))))
      (sample_open (sample_ent None "/a") (sample_ent None "b.txt") None
                   (sample_behaviors "-1" "down" None)) = Some (r, ofts') /\
    @oval_fts_read sample_world
      (sample_open (sample_ent None "/a") (sample_ent None "b.txt") None
                   (sample_behaviors "-1" "down" None)) = (r, ofts').
Proof.
  apply (@oval_fts_read_returns sample_world
           (sample_ent None "/a") (sample_ent None "b.txt") None
           (sample_behaviors "-1" "down" None) mem0
           (mkMem [Res_ref_filename; Res_ref_path; Res_fts; Res_ofts;
                   Res_path 0; Res_paths] 0)
           (sample_open (sample_ent None "/a") (sample_ent None "b.txt") None
                        (sample_behaviors "-1" "down" None))).
  - vm_compute. reflexivity.
  - apply walked_open.
Defined.

(* ================================================================== *)
(** * Further properties of the specification (section 8) *)

(** Which entries are returned (invariant 3).  A directory is never
    returned when a filename or a filepath is given, and only directories
    are returned when the path is given alone; post-order visits, cycles and
    links that were not followed are never returned. *)
Theorem returned_entry_kind `{W : World}
        (ofts ofts' : OVAL_FTS) (ofts_ent : OVAL_FTSENT) :
  oval_fts_read ofts = (Some ofts_ent, ofts') ->
  exists fts_ent,
    last_entry ofts' = Some fts_ent /\
    (is_set (ofts_sfilepath ofts) || is_set (ofts_sfilename ofts) = true ->
     fts_info fts_ent <> FTS_D) /\
    (is_set (ofts_sfilepath ofts) || is_set (ofts_sfilename ofts) = false ->
     fts_info fts_ent = FTS_D) /\
    fts_info fts_ent <> FTS_DP /\ fts_info fts_ent <> FTS_DC /\
    fts_info fts_ent <> FTS_SL.
Proof.
  intro Hr. destruct (oval_fts_read_yield _ Hr) as (e & Hl & _ & Hm & _ & Hdp & Hdc & _).
  exists e. split; [exact Hl|].
  unfold oval_fts_match in Hm.
  destruct (fts_info_eqb (fts_info e) FTS_SL) eqn:Esl; [discriminate|].
  apply fts_info_eqb_neq in Esl.
  destruct (ofts_sfilepath ofts) as [sfp|]; simpl.
  - apply andb_prop in Hm. destruct Hm as [Hd _].
    apply negb_true_iff, fts_info_eqb_neq in Hd.
    repeat split; auto. discriminate.
  - destruct (ofts_sfilename ofts) as [sfn|]; simpl in *.
    + rewrite orb_false_r in Hm.
      destruct (fts_info_eqb (fts_info e) FTS_D) eqn:Ed; [discriminate|].
      apply fts_info_eqb_neq in Ed. repeat split; auto. discriminate.
    + destruct (fts_info_eqb (fts_info e) FTS_D) eqn:Ed; [|discriminate].
      apply fts_info_eqb_eq in Ed. repeat split; auto. discriminate.
Qed.

(** The theorem at work on [/a/b.txt]. *)
Lemma returned_entry_kind_witness :
  exists fts_ent,
    last_entry (snd (@oval_fts_read sample_world
                       (sample_open (sample_ent None "/a") (sample_ent None "b.txt")
                                    None (sample_behaviors "-1" "none" None))))
    = Some fts_ent /\
    (is_set (ofts_sfilepath (sample_open (sample_ent None "/a") (sample_ent None "b.txt")
                                         None (sample_behaviors "-1" "none" None)))
     || is_set (ofts_sfilename (sample_open (sample_ent None "/a")
                                            (sample_ent None "b.txt")
                                            None (sample_behaviors "-1" "none" None)))
     = true -> fts_info fts_ent <> FTS_D) /\
    (is_set (ofts_sfilepath (sample_open (sample_ent None "/a") (sample_ent None "b.txt")
                                         None (sample_behaviors "-1" "none" None)))
     || is_set (ofts_sfilename (sample_open (sample_ent None "/a")
                                            (sample_ent None "b.txt")
                                            None (sample_behaviors "-1" "none" None)))
     = false -> fts_info fts_ent = FTS_D) /\
    fts_info fts_ent <> FTS_DP /\ fts_info fts_ent <> FTS_DC /\
    fts_info fts_ent <> FTS_SL.
Proof.
  apply (@returned_entry_kind sample_world
           (sample_open (sample_ent None "/a") (sample_ent None "b.txt")
                        None (sample_behaviors "-1" "none" None))
           (snd (@oval_fts_read sample_world
                   (sample_open (sample_ent None "/a") (sample_ent None "b.txt")
                                None (sample_behaviors "-1" "none" None))))
           (mkOVAL_FTSENT "/a" 2 (Some "b.txt") 5)).
  vm_compute. reflexivity.
Defined.

Lemma fts_read_none (sp sp' : FTS) :
  fts_read sp = (None, sp') ->
  sp' = mkFTS (fts_options sp) (fts_dev sp) None FTS_NOINSTR [].
Proof.
  unfold fts_read.
  assert (Hn : forall sp0, fts_options sp0 = fts_options sp -> fts_dev sp0 = fts_dev sp ->
               fts_next sp0 = (None, sp') ->
               sp' = mkFTS (fts_options sp) (fts_dev sp) None FTS_NOINSTR []).
  { intros sp0 Ho Hd. unfold fts_next.
    destruct (fts_todo sp0) as [|[e n|d n] rest]; intro H; inversion H.
    rewrite Ho, Hd. reflexivity. }
  destruct (fts_cur sp) as [[p n]|]; [|apply Hn; reflexivity].
  destruct (fts_stat true n) as [[i st] obj].
  destruct (fts_instr sp), (fts_info p);
    try (apply Hn; reflexivity); try discriminate;
    destruct (isset (fts_options sp) FTS_XDEV && negb (ent_dev p =? fts_dev sp));
    try discriminate;
    destruct n as [|?|? [|en ens]|? ?|?]; try discriminate;
    apply Hn; reflexivity.
Qed.

(** Reading after the end (the second law).  When the driver is exhausted
    [oval_fts_read] returns [NULL], and it goes on returning [NULL] from the
    handle it leaves. *)
Theorem end_of_stream_stays `{W : World} (ofts : OVAL_FTS) (sp : FTS) :
  fts_read (ofts_fts ofts) = (None, sp) ->
  oval_fts_read ofts = (None, set_fts ofts sp) /\
  oval_fts_read (set_fts ofts sp) = (None, set_fts ofts sp).
Proof.
  intro Hr. pose proof (fts_read_none _ Hr) as Hsp.
  assert (Hr2 : fts_read sp = (None, sp)) by (rewrite Hsp; reflexivity).
  split.
  - unfold oval_fts_read. simpl. rewrite (oval_fts_turn_end _ Hr). reflexivity.
  - unfold oval_fts_read. simpl.
    rewrite (@oval_fts_turn_end W (set_fts ofts sp) sp Hr2). reflexivity.
Qed.

(** The law at work: the walk of [/a] for [b.txt] is over after one entry. *)
Lemma end_of_stream_witness :
  @oval_fts_read sample_world
    (snd (@oval_fts_read sample_world
            (snd (@oval_fts_read sample_world
                    (sample_open (sample_ent None "/a") (sample_ent None "b.txt")
                                 None (sample_behaviors "-1" "none" None))))))
  = (None,
     snd (@oval_fts_read sample_world
            (snd (@oval_fts_read sample_world
                    (sample_open (sample_ent None "/a") (sample_ent None "b.txt")
                                 None (sample_behaviors "-1" "none" None)))))).
Proof.
  pose proof (@end_of_stream_stays sample_world
                (mkOVAL_FTS
                   (mkFTS 17 1
                          (Some (mkObj (mkFTSENT FTS_DP "/a" 2 "a" 1 0
                                                 (Some dev_local) None)
                                       (sample_fs "/a")))
                          FTS_NOINSTR [])
                   (Some ["/a"]) 1 0
                   (sample_ent None "/a") (sample_ent None "b.txt") None
                   None None 1 (-1) 0 6 2 None)
                (mkFTS 17 1 None FTS_NOINSTR []) eq_refl) as [_ H].
  vm_compute in H |- *. exact H.
Defined.

(** Pruning (invariant 8).  A directory whose path does not match even
    partially is not descended: the turn tells the driver to skip it, and the
    driver comes back with its post-order visit and nothing new to do. *)
Theorem pruned_directory_not_descended `{W : World}
        (ofts : OVAL_FTS) (fts_ent : FTSENT) (sp : FTS) :
  fts_read (ofts_fts ofts) = (Some fts_ent, sp) ->
  fts_info fts_ent = FTS_D ->
  oval_fts_prune ofts fts_ent = Prune_nomatch ->
  exists ofts1 sp1,
    oval_fts_turn ofts = Turn_continue ofts1 /\
    fts_instr (ofts_fts ofts1) = FTS_SKIP /\
    fts_read (ofts_fts ofts1) = (Some (set_info FTS_DP fts_ent), sp1) /\
    fts_todo sp1 = fts_todo sp.
Proof.
  intros Hr Hd Hp.
  destruct (fts_read_some _ Hr) as (_ & _ & n & Hc).
  exists (set_fts ofts (fts_set sp fts_ent FTS_SKIP)).
  exists (mkFTS (fts_options sp) (fts_dev sp)
                (Some (mkObj (set_info FTS_DP fts_ent) n)) FTS_NOINSTR (fts_todo sp)).
  split; [|split; [reflexivity|split; [|reflexivity]]].
  - unfold oval_fts_turn. rewrite Hr, Hd, Hp. reflexivity.
  - unfold fts_read, fts_set. cbn. rewrite Hc, Hd. reflexivity.
Qed.

(** The theorem at work: with the filepath pattern [^/etc/passwd], the
    directory [/a] under [/] is skipped. *)
Lemma pruned_directory_witness :
  exists ofts1 sp1,
    @oval_fts_turn sample_world
      (mkOVAL_FTS
         (mkFTS 17 1
                (Some (mkObj (mkFTSENT FTS_F "/vmlinuz" 8 "vmlinuz" 7 1
                                       (Some dev_local) None) (File dev_local)))
                FTS_NOINSTR
                [Visit (mkFTSENT FTS_D "/a" 2 "a" 1 1 (Some dev_local) None)
                       (Dir dev_local [("b.txt", File dev_local)])])
         (Some ["/"]) 1 0 None None (sample_ent (Some 11) "^/etc/passwd")
         (Some (mkPcre "^/etc/passwd")) None 11 (-1) (-1) 0 (-1) None)
    = Turn_continue ofts1 /\
    fts_instr (ofts_fts ofts1) = FTS_SKIP /\
    fts_read (ofts_fts ofts1)
    = (Some (set_info FTS_DP (mkFTSENT FTS_D "/a" 2 "a" 1 1 (Some dev_local) None)),
       sp1) /\
    fts_todo sp1 = [].
Proof.
  apply (@pruned_directory_not_descended sample_world
           (mkOVAL_FTS
              (mkFTS 17 1
                     (Some (mkObj (mkFTSENT FTS_F "/vmlinuz" 8 "vmlinuz" 7 1
                                            (Some dev_local) None) (File dev_local)))
                     FTS_NOINSTR
                     [Visit (mkFTSENT FTS_D "/a" 2 "a" 1 1 (Some dev_local) None)
                            (Dir dev_local [("b.txt", File dev_local)])])
              (Some ["/"]) 1 0 None None (sample_ent (Some 11) "^/etc/passwd")
              (Some (mkPcre "^/etc/passwd")) None 11 (-1) (-1) 0 (-1) None)
           (mkFTSENT FTS_D "/a" 2 "a" 1 1 (Some dev_local) None)
           (mkFTS 17 1
                  (Some (mkObj (mkFTSENT FTS_D "/a" 2 "a" 1 1 (Some dev_local) None)
                               (Dir dev_local [("b.txt", File dev_local)])))
                  FTS_NOINSTR [])).
  - vm_compute. reflexivity.
  - reflexivity.
  - vm_compute. reflexivity.
Defined.

(* ================================================================== *)
(** * The end-to-end scenarios of the specification, in the sample world *)

(** Scenario 1: [equals], no recursion. *)
Example scenario_equals_no_recursion :
  sample_run (sample_ent None "/a") (sample_ent None "b.txt") None
             (sample_behaviors "-1" "none" None)
  = [mkOVAL_FTSENT "/a" 2 (Some "b.txt") 5].
Proof. vm_compute. reflexivity. Qed.

(** Scenario 2: [equals], the directory is the target. *)
Example scenario_equals_directory_target :
  sample_run (sample_ent None "/a") (sample_ent None "") None
             (sample_behaviors "-1" "none" None)
  = [mkOVAL_FTSENT "/a" 2 None (-1)].
Proof. vm_compute. reflexivity. Qed.

(** Scenario 3: down with a depth limit of 1; every filename is accepted.
    [x] and [y] are returned, [z] is not. *)
Example scenario_down_with_depth_limit :
  sample_run (sample_ent None "/r") (sample_ent (Some 2) "none such") None
             (sample_behaviors "1" "down" None)
  = [mkOVAL_FTSENT "/r" 2 (Some "x") 1; mkOVAL_FTSENT "/r/s" 4 (Some "y") 1].
Proof. vm_compute. reflexivity. Qed.

(** Scenario 4: a pattern for the filepath, with pruning. *)
Example scenario_pattern_match_with_prune :
  sample_run None None (sample_ent (Some 11) "^/etc/passwd")
             (sample_behaviors "-1" "down" None)
  = [mkOVAL_FTSENT "/etc" 4 (Some "passwd") 6].
Proof. vm_compute. reflexivity. Qed.

(** Scenario 5: local filesystems only. *)
Example scenario_local_only :
  sample_run (sample_ent None "/mnt") (sample_ent None "f") None
             (sample_behaviors "-1" "down" (Some "local"))
  = [mkOVAL_FTSENT "/mnt/local" 10 (Some "f") 1].
Proof. vm_compute. reflexivity. Qed.

(** Scenario 6: the policy for links. *)
Example scenario_symlink_policy :
  sample_run (sample_ent None "/d") (sample_ent None "target") None
             (mkBehaviors (Some "-1") (Some "down") (Some "directories") None)
  = []
  /\ sample_run (sample_ent None "/d") (sample_ent None "target") None
                (mkBehaviors (Some "-1") (Some "down")
                             (Some "symlinks and directories") None)
     = [mkOVAL_FTSENT "/d/link" 7 (Some "target") 6].
Proof. split; vm_compute; reflexivity. Qed.

(* ================================================================== *)
(** * Open and close are balanced (section 8, laws) *)

Lemma acquire_inl (r : resource) (m m' : mem) (u : unit) :
  acquire r m = (inl u, m') -> m' = mkMem (r :: live m) (errno m).
Proof. unfold acquire. intro H. inversion H. reflexivity. Qed.

Lemma release_inl (r : resource) (m m' : mem) (u : unit) :
  release r m = (inl u, m') -> m' = mkMem (remove1 r (live m)) (errno m).
Proof. unfold release. intro H. inversion H. reflexivity. Qed.

Lemma strtol_live (s : string) (m m' : mem) (v : Z) :
  strtol s m = (inl v, m') -> live m' = live m.
Proof.
  unfold strtol.
  destruct (_ >? LONG_MAX); [|destruct (_ <? LONG_MIN)]; intro H;
    try (apply ret_inl in H; destruct H as [_ ->]; reflexivity);
    bind_step H; apply ret_inl in H; destruct H as [_ ->];
    unfold set_errno in Hc; inversion Hc; reflexivity.
Qed.

(** A value that is acquired, read and released. *)
Lemma scoped_sexp_live {A : Type} (c : M A) (m m' : mem) (a : A) :
  (forall m1 m2 x, c m1 = (inl x, m2) -> live m2 = live m1) ->
  (acquire Res_sexp ;;; x <- c ;; release Res_sexp ;;; ret x) m = (inl a, m') ->
  live m' = live m.
Proof.
  intros Hc H. bind_inv H as u Hacq. bind_inv H as x Hx. bind_inv H as u' Hrel.
  apply ret_inl in H. destruct H as [_ ->].
  apply acquire_inl in Hacq. apply release_inl in Hrel. apply Hc in Hx.
  subst. simpl in *. rewrite Hx. simpl. reflexivity.
Qed.

Section Balance.
Context `{W : World}.

Lemma parse_behaviors_live (behaviors : SEXP_behaviors) (fts_options : Z)
      (m m' : mem) (b : parsed_behaviors) :
  parse_behaviors behaviors fts_options m = (inl b, m') -> live m' = live m.
Proof.
  unfold parse_behaviors. intro H.
  bind_inv H as s1 H1. bind_inv H as l H2. bind_inv H as e H3.
  bind_inv H as u1 H4. bind_inv H as u2 H5.
  bind_inv H as s2 H6. bind_inv H as d H7. bind_inv H as u3 H8.
  bind_inv H as r H9. bind_inv H as fs H10.
  apply ret_inl in H. destruct H as [_ ->].
  assert (L1 : live m0 = Res_sexp :: live m).
  { destruct (bh_max_depth behaviors); [|discriminate].
    bind_inv H1 as u H1'. apply ret_inl in H1. destruct H1 as [_ ->].
    apply acquire_inl in H1'. subst. reflexivity. }
  assert (L2 : live m1 = live m0) by (apply (strtol_live _ _ H2)).
  assert (L3 : live m2 = live m1) by (unfold get_errno in H3; inversion H3; reflexivity).
  assert (L4 : live m3 = live m2).
  { apply when_inl in H4. destruct H4 as [[_ ->]|[_ H4]]; [reflexivity|].
    bind_inv H4 as u H4'. discriminate. }
  assert (L5 : live m4 = live m).
  { apply release_inl in H5. subst m4. simpl. rewrite L4, L3, L2, L1. reflexivity. }
  assert (L6 : live m5 = Res_sexp :: live m4).
  { destruct (bh_recurse_direction behaviors); [|discriminate].
    bind_inv H6 as u H6'. apply ret_inl in H6. destruct H6 as [_ ->].
    apply acquire_inl in H6'. subst. reflexivity. }
  assert (L7 : live m6 = live m5).
  { destruct (String.eqb s2 "none"); [apply ret_inl in H7; destruct H7 as [_ ->]; reflexivity|].
    destruct (String.eqb s2 "down"); [apply ret_inl in H7; destruct H7 as [_ ->]; reflexivity|].
    destruct (String.eqb s2 "up"); [apply ret_inl in H7; destruct H7 as [_ ->]; reflexivity|].
    bind_inv H7 as u H7'. discriminate. }
  assert (L8 : live m7 = live m).
  { apply release_inl in H8. subst m7. simpl. rewrite L7, L6. simpl. exact L5. }
  assert (L9 : live m8 = live m7).
  { destruct (bh_recurse behaviors) as [s|];
      [|apply ret_inl in H9; destruct H9 as [_ ->]; reflexivity].
    eapply scoped_sexp_live; [|exact H9].
    intros ma mb x Hx.
    repeat match type of Hx with
           | (if ?c then _ else _) _ = _ =>
               destruct c; [apply ret_inl in Hx; destruct Hx as [_ ->]; reflexivity|]
           end.
    bind_inv Hx as u Hx'. discriminate. }
  assert (L10 : live m9 = live m8).
  { destruct (bh_recurse_file_system behaviors) as [s|];
      [|apply ret_inl in H10; destruct H10 as [_ ->]; reflexivity].
    eapply scoped_sexp_live; [|exact H10].
    intros ma mb x Hx.
    repeat match type of Hx with
           | (if ?c then _ else _) _ = _ =>
               destruct c; [apply ret_inl in Hx; destruct Hx as [_ ->]; reflexivity|]
           end.
    bind_inv Hx as u Hx'. discriminate. }
  rewrite L10, L9. exact L8.
Qed.

Lemma open_regex_live (cstr_path : string) (m m' : mem)
      (re : option pcre * option pcre_extra) :
  open_regex cstr_path m = (inl re, m') ->
  live m' = (if is_set (snd re) then [Res_regex_extra] else [])
            ++ (if is_set (fst re) then [Res_regex] else []) ++ live m.
Proof.
  unfold open_regex. destruct (pcre_compile cstr_path) as [regex|]; [|discriminate].
  intro H. bind_inv H as u1 H1. bind_inv H as u2 H2.
  apply acquire_inl in H1. subst.
  destruct (prunable _ _).
  - apply ret_inl in H. destruct H as [-> ->].
    destruct (pcre_study regex); simpl in H2.
    + apply acquire_inl in H2. subst. reflexivity.
    + apply ret_inl in H2. destruct H2 as [_ ->]. reflexivity.
  - bind_inv H as u3 H3. bind_inv H as u4 H4.
    apply ret_inl in H. destruct H as [-> ->].
    apply release_inl in H3. subst.
    destruct (pcre_study regex); simpl in H2, H4.
    + apply acquire_inl in H2. apply release_inl in H4. subst. reflexivity.
    + apply ret_inl in H2. apply ret_inl in H4. destruct H2 as [_ ->].
      destruct H4 as [_ ->]. reflexivity.
Qed.

Lemma OVAL_FTS_new_live (paths : list string) (count options : Z) (m m' : mem)
      (ofts : OVAL_FTS) :
  OVAL_FTS_new paths count options m = (inl (Some ofts), m') ->
  live m' = Res_fts :: Res_ofts :: live m.
Proof.
  unfold OVAL_FTS_new. intro H. bind_mem H as u0 m0 H0.
  apply when_segv_inl in H0. destruct H0 as [_ ->].
  bind_inv H as u1 H1.
  apply acquire_inl in H1. subst.
  destruct (fts_open paths options).
  - bind_inv H as u2 H2. apply acquire_inl in H2. subst.
    apply ret_inl in H. destruct H as [_ ->]. reflexivity.
  - bind_inv H as u2 H2. apply ret_inl in H. destruct H as [H _]. discriminate.
Qed.

(** What is allocated after a successful [oval_fts_open] is what the handle
    holds, on top of what was allocated before. *)
Lemma oval_fts_open_live (path_ent filename filepath : option SEXP_ent)
      (behaviors : SEXP_behaviors) (m m' : mem) (ofts : OVAL_FTS) :
  oval_fts_open path_ent filename filepath behaviors m = (inl ofts, m') ->
  live m' = owned ofts ++ live m.
Proof.
  unfold oval_fts_open. intro H.
  bind_mem H as u ma Hpre.
  assert (La : live ma = live m).
  { apply when_inl in Hpre. destruct Hpre as [[_ ->]|[_ Hpre]];
      [reflexivity|discriminate]. }
  bind_mem H as path_op mb Hop.
  assert (Lb : live mb = live ma).
  { destruct (ent_operation _).
    - bind_mem Hop as x1 mx Hx1. bind_mem Hop as x2 my Hx2.
      apply ret_inl in Hop. destruct Hop as [_ ->].
      apply acquire_inl in Hx1. apply release_inl in Hx2.
      rewrite Hx2, Hx1. simpl. reflexivity.
    - apply ret_inl in Hop. destruct Hop as [_ ->]. reflexivity. }
  bind_mem H as cfg mc Hcfg.
  destruct cfg as [[cstr_path nilfilename] b].
  assert (Lc : live mc = live mb /\ (is_set path_ent = true -> nilfilename = false ->
                                     is_set filename = true)).
  { destruct path_ent as [pe|]; simpl is_set in Hcfg; cbv iota in Hcfg.
    - bind_mem Hcfg as s1 m1 Hs1. bind_mem Hcfg as nf m2 Hnf.
      bind_mem Hcfg as pb m3 Hpb.
      apply ret_inl in Hcfg. destruct Hcfg as [Hcfg ->].
      inversion Hcfg; subst s1 nf pb. clear Hcfg.
      apply parse_behaviors_live in Hpb.
      destruct (PROBE_ENT_STRVAL (Some pe)); try discriminate.
      apply ret_inl in Hs1. destruct Hs1 as [_ Hs1].
      unfold PROBE_ENT_STRVAL in Hnf.
      destruct filename as [fe|]; [|discriminate].
      split; [|reflexivity].
      destruct (ent_val fe) as [[sv|nv]|]; try discriminate.
      destruct (String.eqb sv ""); apply ret_inl in Hnf; destruct Hnf as [_ Hnf];
        congruence.
    - bind_mem Hcfg as s1 m1 Hs1. apply ret_inl in Hcfg. destruct Hcfg as [_ ->].
      split; [|discriminate].
      destruct (PROBE_ENT_STRVAL filepath); try discriminate.
      apply ret_inl in Hs1. destruct Hs1 as [_ ->]. reflexivity. }
  destruct Lc as [Lc Hfn].
  bind_mem H as u0 mc' Hq0.
  apply when_segv_inl in Hq0. destruct Hq0 as [_ ->].
  bind_mem H as u1 md Hq1. bind_mem H as u2 me Hq2.
  apply acquire_inl in Hq1. apply acquire_inl in Hq2.
  assert (Le : live me = Res_path 0 :: Res_paths :: live m).
  { rewrite Hq2, Hq1. simpl. rewrite Lc, Lb, La. reflexivity. }
  bind_mem H as new mf Hnew. bind_mem H as o mg Ho.
  destruct new as [o'|]; [|discriminate].
  apply ret_inl in Ho. destruct Ho as [-> ->].
  pose proof (OVAL_FTS_new_inl _ _ _ _ Hnew eq_refl) as Hnew'.
  apply OVAL_FTS_new_live in Hnew.
  bind_mem H as re mh Hre.
  assert (Lh : live mh = (if is_set (snd re) then [Res_regex_extra] else [])
                         ++ (if is_set (fst re) then [Res_regex] else [])
                         ++ live mf).
  { destruct (path_op =? OVAL_OPERATION_PATTERN_MATCH).
    - apply (open_regex_live _ _ Hre).
    - apply ret_inl in Hre. destruct Hre as [-> ->]. reflexivity. }
  destruct (is_set path_ent) eqn:Epath.
  - bind_mem H as devs mi Hdevs. bind_mem H as u3 mj Hq3. bind_mem H as u4 mk Hq4.
    apply ret_inl in H. destruct H as [-> ->].
    apply acquire_inl in Hq3.
    assert (Li : live mi = (if is_set devs then [Res_localdevs] else []) ++ live mh).
    { destruct (p_filesystem b =? OVAL_RECURSE_FS_LOCAL).
      - destruct fsdev_init; [|discriminate].
        bind_mem Hdevs as u5 mx Hq5. apply ret_inl in Hdevs. destruct Hdevs as [-> ->].
        apply acquire_inl in Hq5. rewrite Hq5. reflexivity.
      - apply ret_inl in Hdevs. destruct Hdevs as [-> ->]. reflexivity. }
    unfold owned. cbn [ofts_sfilepath ofts_sfilename ofts_spath localdevs
                       ofts_path_regex_extra ofts_path_regex is_set].
    rewrite Epath.
    destruct nilfilename; simpl in Hq4.
    + apply ret_inl in Hq4. destruct Hq4 as [_ ->]. rewrite Hq3. cbn [live].
      rewrite Li, Lh, Hnew, Le. cbn [is_set app]. rewrite <- !app_assoc. reflexivity.
    + apply acquire_inl in Hq4. rewrite Hq4, Hq3. cbn [live].
      rewrite Li, Lh, Hnew, Le. rewrite (Hfn eq_refl eq_refl).
      cbn [app]. rewrite <- !app_assoc. reflexivity.
  - bind_mem H as u3 mi Hq3. apply ret_inl in H. destruct H as [-> ->].
    apply acquire_inl in Hq3. rewrite Hq3. cbn [live].
    assert (Hfp : is_set filepath = true).
    { apply when_inl in Hpre. destruct Hpre as [[Hpre _]|[_ Hpre]]; [|discriminate].
      simpl in Hpre.
      destruct (is_set filepath); [reflexivity|].
      rewrite andb_false_r in Hpre. discriminate. }
    unfold owned. cbn [ofts_sfilepath ofts_sfilename ofts_spath localdevs
                       ofts_path_regex_extra ofts_path_regex is_set].
    rewrite Hfp, Lh, Hnew, Le, Hnew'. cbn [localdevs is_set app].
    rewrite <- !app_assoc. reflexivity.
Qed.

(** [oval_fts_close] releases what the handle holds. *)
Lemma oval_fts_close_owned (ofts : OVAL_FTS) (l : list resource) (e : Z) :
  ofts_st_path_count ofts = 1 ->
  oval_fts_close ofts (mkMem (owned ofts ++ l) e) = (inl 0, mkMem l e).
Proof.
  intro Hc. unfold oval_fts_close, owned. rewrite Hc.
  destruct (ofts_sfilepath ofts), (ofts_sfilename ofts), (ofts_spath ofts),
    (localdevs ofts), (ofts_path_regex_extra ofts), (ofts_path_regex ofts);
    reflexivity.
Qed.

End Balance.

(** Open and close are balanced.  After a successful [oval_fts_open],
    [oval_fts_close] -- on the handle as it was returned or as an iteration
    has left it -- returns 0 and leaves allocated exactly what was allocated
    before the handle was opened. *)
Theorem open_close_balanced `{W : World}
        (path_ent filename filepath : option SEXP_ent) (behaviors : SEXP_behaviors)
        (m m' : mem) (ofts0 ofts : OVAL_FTS) :
  oval_fts_open path_ent filename filepath behaviors m = (inl ofts0, m') ->
  walked ofts0 ofts ->
  exists m'', oval_fts_close ofts m' = (inl 0, m'') /\ live m'' = live m.
Proof.
  intros Hopen Hw.
  pose proof (@oval_fts_open_live W _ _ _ _ _ _ _ Hopen) as Hlive.
  apply oval_fts_open_inl in Hopen.
  destruct Hopen as (literal & options & _ & _ & _ & Hcount & _).
  pose proof (@walked_config W _ _ Hw) as Hcfg. unfold same_config in Hcfg.
  assert (Hclose : oval_fts_close ofts = oval_fts_close ofts0).
  { rewrite Hcfg. reflexivity. }
  rewrite Hclose. exists (mkMem (live m) (errno m')). split; [|reflexivity].
  destruct m' as [l' e']. simpl in Hlive. subst l'.
  apply oval_fts_close_owned. exact Hcount.
Qed.

(** The law at work on the sample handle for [/a]. *)
Lemma open_close_balanced_witness :
  exists m'',
    oval_fts_close
      (sample_open (sample_ent None "/a") (sample_ent None "b.txt") None
                   (sample_behaviors "-1" "down" (Some "local")))
      (mkMem [Res_ref_filename; Res_ref_path; Res_localdevs; Res_fts; Res_ofts;
              Res_path 0; Res_paths] 0)
    = (inl 0, m'') /\ live m'' = live mem0.
Proof.
  apply (@open_close_balanced sample_world
           (sample_ent None "/a") (sample_ent None "b.txt") None
           (sample_behaviors "-1" "down" (Some "local")) mem0
           (mkMem [Res_ref_filename; Res_ref_path; Res_localdevs; Res_fts; Res_ofts;
                   Res_path 0; Res_paths] 0)
           (sample_open (sample_ent None "/a") (sample_ent None "b.txt") None
                        (sample_behaviors "-1" "down" (Some "local")))).
  - vm_compute. reflexivity.
  - apply walked_open.
Defined.

(* ================================================================== *)
(** * Where the walker does not go *)

(** A bound on the level, from a licence to enter only the directories
    above it. *)
Lemma walked_level_bound `{W : World}
      (path_ent filename filepath : option SEXP_ent) (behaviors : SEXP_behaviors)
      (m m' : mem) (ofts0 ofts ofts' : OVAL_FTS) (ofts_ent : OVAL_FTSENT) (b : Z) :
  oval_fts_open path_ent filename filepath behaviors m = (inl ofts0, m') ->
  0 <= b ->
  grants (fun e => 0 <= fts_level e <= b) (fun p => fts_level p < b) ofts0 ->
  walked ofts0 ofts ->
  oval_fts_read ofts = (Some ofts_ent, ofts') ->
  exists fts_ent,
    last_entry ofts' = Some fts_ent /\ 0 <= fts_level fts_ent <= b.
Proof.
  intros Hopen Hb Hg Hw Hr.
  apply oval_fts_open_inl in Hopen.
  destruct Hopen as (literal & options & _ & _ & _ & _ & Hfts & _).
  pose (P := fun e => 0 <= fts_level e <= b).
  pose (Q := fun p => fts_level p < b).
  assert (Hinv : fts_inv P Q (ofts_fts ofts0)).
  { rewrite Hfts. split; cbn; [|exact I]. constructor; [|constructor].
    unfold P.
    destruct (fts_root_path options (starting_root path_ent filepath literal)
                (fs_lookup (starting_root path_ent filepath literal))) as [_ Hl].
    rewrite Hl. lia. }
  assert (Hstat : forall p i st,
             P p -> P (mkFTSENT i (fts_path p) (fts_pathlen p) (fts_name p)
                                (fts_namelen p) (fts_level p) (Some st)
                                (fts_parent p)))
    by (intros p i st Hp; exact Hp).
  assert (Hinfo : forall p i, P p -> P (set_info i p))
    by (intros p i Hp; exact Hp).
  assert (Hchild : forall p name n,
             P p -> Q p -> fts_info p = FTS_D -> P (work_ent (fts_child p name n))).
  { intros p name n Hp Hq _.
    destruct (fts_child_ent p name n) as (i & st & ->). unfold P, Q in *. cbn. lia. }
  destruct (@walked_yield W P Q Hstat Hinfo Hchild ofts0 ofts ofts' ofts_ent
              Hg Hinv Hw Hr)
    as (e & Hl & _ & _ & Hp).
  exists e. split; [exact Hl|exact Hp].
Qed.

Lemma grants_up `{W : World} (ofts : OVAL_FTS) :
  direction ofts = OVAL_RECURSE_DIRECTION_UP ->
  ofts_path_regex ofts = None ->
  grants (fun e => 0 <= fts_level e <= 0) (fun p => fts_level p < 0) ofts.
Proof.
  intros Hd Hre e _ Hi Hs. exfalso. apply Hs.
  unfold turn_instr, oval_fts_prune, oval_fts_recurse.
  rewrite Hd, Hre, Hi. reflexivity.
Qed.

(** The direction [up] (lines 577-582).  Every entry that the driver
    returns is told to be skipped, so no directory is entered: with no
    regular expression kept for pruning, every entry returned is a starting
    root. *)
Theorem up_returns_roots_only `{W : World}
        (path_ent filename filepath : option SEXP_ent) (behaviors : SEXP_behaviors)
        (m m' : mem) (ofts0 ofts ofts' : OVAL_FTS) (ofts_ent : OVAL_FTSENT) :
  oval_fts_open path_ent filename filepath behaviors m = (inl ofts0, m') ->
  direction ofts0 = OVAL_RECURSE_DIRECTION_UP ->
  ofts_path_regex ofts0 = None ->
  walked ofts0 ofts ->
  oval_fts_read ofts = (Some ofts_ent, ofts') ->
  exists fts_ent,
    last_entry ofts' = Some fts_ent /\ fts_level fts_ent = 0.
Proof.
  intros Hopen Hd Hre Hw Hr.
  destruct (@walked_level_bound W path_ent filename filepath behaviors m m' ofts0
              ofts ofts' ofts_ent 0 Hopen (Z.le_refl 0)
              (@grants_up W ofts0 Hd Hre) Hw Hr)
    as (e & Hl & Hlev).
  exists e. split; [exact Hl|lia].
Qed.

(** The theorem at work on the file [passwd] of the working directory. *)
Lemma up_returns_roots_only_witness :
  exists fts_ent,
    last_entry (snd (@oval_fts_read sample_world
                       (sample_open (sample_ent None "passwd")
                                    (sample_ent None "passwd")
                                    None (sample_behaviors "-1" "up" None))))
    = Some fts_ent /\ fts_level fts_ent = 0.
Proof.
  apply (@up_returns_roots_only sample_world
           (sample_ent None "passwd") (sample_ent None "passwd") None
           (sample_behaviors "-1" "up" None) mem0
           (mkMem [Res_ref_filename; Res_ref_path; Res_fts; Res_ofts;
                   Res_path 0; Res_paths] 0)
           (sample_open (sample_ent None "passwd") (sample_ent None "passwd")
                        None (sample_behaviors "-1" "up" None))
           (sample_open (sample_ent None "passwd") (sample_ent None "passwd")
                        None (sample_behaviors "-1" "up" None))
           (snd (@oval_fts_read sample_world
                   (sample_open (sample_ent None "passwd") (sample_ent None "passwd")
                                None (sample_behaviors "-1" "up" None))))
           (mkOVAL_FTSENT "passwd" 6 (Some "passwd") 6)).
  - vm_compute. reflexivity.
  - vm_compute. reflexivity.
  - vm_compute. reflexivity.
  - apply walked_open.
  - vm_compute. reflexivity.
Defined.

Lemma grants_no_dirs `{W : World} (ofts : OVAL_FTS) :
  direction ofts = OVAL_RECURSE_DIRECTION_DOWN ->
  Z.land (recurse ofts) OVAL_RECURSE_DIRS = 0 ->
  ofts_path_regex ofts = None ->
  grants (fun e => 0 <= fts_level e <= root_reach ofts)
         (fun p => fts_level p < root_reach ofts) ofts.
Proof.
  intros Hd Hrec Hre e Hlev Hi Hs.
  unfold turn_instr, oval_fts_prune, oval_fts_recurse in Hs.
  rewrite Hd, Hre, Hi, Hrec in Hs. simpl in Hs.
  unfold root_reach in *.
  destruct (Z.eqb_spec (fts_level e) 0) as [E0|E0];
    destruct (is_set (ofts_sfilename ofts)); simpl in Hs.
  - lia.
  - exfalso. apply Hs.
    destruct ((fts_level e <=? max_depth ofts) || (max_depth ofts =? -1));
      reflexivity.
  - exfalso. apply Hs.
    destruct ((fts_level e <=? max_depth ofts) || (max_depth ofts =? -1));
      reflexivity.
  - exfalso. apply Hs.
    destruct ((fts_level e <=? max_depth ofts) || (max_depth ofts =? -1));
      reflexivity.
Qed.

(** Recursion through links alone (lines 520-533).  With the direction
    [down] and a [recurse] without the bit for directories (the value
    [symlinks]), every directory below the root is told to be skipped, also
    the one a followed link resolves to.  With no regular expression kept
    for pruning, the entries returned are the root, or, when a filename is
    given, lie directly in the root. *)
Theorem no_directory_bit_no_descent `{W : World}
        (path_ent filename filepath : option SEXP_ent) (behaviors : SEXP_behaviors)
        (m m' : mem) (ofts0 ofts ofts' : OVAL_FTS) (ofts_ent : OVAL_FTSENT) :
  oval_fts_open path_ent filename filepath behaviors m = (inl ofts0, m') ->
  direction ofts0 = OVAL_RECURSE_DIRECTION_DOWN ->
  Z.land (recurse ofts0) OVAL_RECURSE_DIRS = 0 ->
  ofts_path_regex ofts0 = None ->
  walked ofts0 ofts ->
  oval_fts_read ofts = (Some ofts_ent, ofts') ->
  exists fts_ent,
    last_entry ofts' = Some fts_ent /\
    0 <= fts_level fts_ent <= root_reach ofts0.
Proof.
  intros Hopen Hd Hrec Hre Hw Hr.
  assert (Hb : 0 <= root_reach ofts0)
    by (unfold root_reach; destruct (is_set (ofts_sfilename ofts0)); lia).
  exact (@walked_level_bound W path_ent filename filepath behaviors m m' ofts0
           ofts ofts' ofts_ent (root_reach ofts0) Hopen Hb
           (@grants_no_dirs W ofts0 Hd Hrec Hre) Hw Hr).
Qed.

(** The theorem at work on [/d], where [link] leads to a directory. *)
Lemma no_directory_bit_witness :
  exists fts_ent,
    last_entry (snd (@oval_fts_read sample_world
                       (sample_open (sample_ent None "/d")
                                    (sample_ent (Some 2) "none such") None
                                    (mkBehaviors (Some "-1") (Some "down")
                                                 (Some "symlinks") None))))
    = Some fts_ent /\
    0 <= fts_level fts_ent
      <= root_reach (sample_open (sample_ent None "/d")
                                 (sample_ent (Some 2) "none such") None
                                 (mkBehaviors (Some "-1") (Some "down")
                                              (Some "symlinks") None)).
Proof.
  apply (@no_directory_bit_no_descent sample_world
           (sample_ent None "/d") (sample_ent (Some 2) "none such") None
           (mkBehaviors (Some "-1") (Some "down") (Some "symlinks") None) mem0
           (mkMem [Res_ref_filename; Res_ref_path; Res_fts; Res_ofts;
                   Res_path 0; Res_paths] 0)
           (sample_open (sample_ent None "/d") (sample_ent (Some 2) "none such")
                        None
                        (mkBehaviors (Some "-1") (Some "down") (Some "symlinks") None))
           (sample_open (sample_ent None "/d") (sample_ent (Some 2) "none such")
                        None
                        (mkBehaviors (Some "-1") (Some "down") (Some "symlinks") None))
           (snd (@oval_fts_read sample_world
                   (sample_open (sample_ent None "/d")
                                (sample_ent (Some 2) "none such") None
                                (mkBehaviors (Some "-1") (Some "down")
                                             (Some "symlinks") None))))
           (mkOVAL_FTSENT "/d" 2 (Some "broken") 6)).
  - vm_compute. reflexivity.
  - vm_compute. reflexivity.
  - vm_compute. reflexivity.
  - vm_compute. reflexivity.
  - apply walked_open.
  - vm_compute. reflexivity.
Defined.

(* ================================================================== *)
(** * The paths and the lengths of the records *)

Lemma strn_of_nat (k : nat) (s : string) : strn (Z.of_nat k) s = substring 0 k s.
Proof. unfold strn. rewrite Nat2Z.id. reflexivity. Qed.

Lemma length_substring_le (k : nat) (s : string) :
  (k <= String.length s)%nat -> String.length (substring 0 k s) = k.
Proof.
  revert k. induction s as [|c s IH]; intros [|k] H; simpl in *; try reflexivity.
  - inversion H.
  - rewrite IH; [reflexivity|]. apply le_S_n. exact H.
Qed.

Lemma strlen_strn (n : Z) (s : string) :
  0 <= n <= strlen s -> strlen (strn n s) = n.
Proof.
  intros [H0 Hn]. unfold strlen, strn in *.
  rewrite length_substring_le; lia.
Qed.

Lemma pathlen_from_ftse_range (fts_pathlen fts_namelen : Z) :
  0 <= fts_pathlen -> 0 <= fts_namelen ->
  0 <= pathlen_from_ftse fts_pathlen fts_namelen <= fts_pathlen.
Proof.
  intros Hp Hn. unfold pathlen_from_ftse.
  destruct (Z.gtb_spec fts_pathlen fts_namelen);
    [destruct (Z.gtb_spec (fts_pathlen - fts_namelen) 1)|]; lia.
Qed.

Lemma last_char_split (s : string) (c : ascii) :
  last_char s = Some c ->
  s = (substring 0 (String.length s - 1) s ++ String c EmptyString)%string.
Proof.
  induction s as [|a r IH]; intro H; [discriminate|].
  destruct r as [|b r'].
  - simpl in H. inversion H. reflexivity.
  - change (last_char (String a (String b r'))) with (last_char (String b r')) in H.
    specialize (IH H).
    replace (String.length (String a (String b r')) - 1)%nat
      with (S (String.length (String b r') - 1)) by (simpl; lia).
    cbn [substring]. cbn [append]. f_equal. exact IH.
Qed.

Lemma strip_slash_cases (s : string) :
  strip_slash s = s \/ s = (strip_slash s ++ "/")%string.
Proof.
  unfold strip_slash. destruct (last_char s) as [c|] eqn:E; [|left; reflexivity].
  destruct (Ascii.eqb_spec c slash) as [->|]; [|left; reflexivity].
  right. apply last_char_split in E.
  replace (strlen s - 1) with (Z.of_nat (String.length s - 1)).
  - rewrite strn_of_nat. exact E.
  - unfold strlen. destruct s; [discriminate|]. simpl String.length. lia.
Qed.

Lemma append_assoc (a b c : string) : ((a ++ b) ++ c = a ++ (b ++ c))%string.
Proof. induction a as [|x a IH]; simpl; [reflexivity|]. rewrite IH. reflexivity. Qed.

Lemma under_root_child (root s name : string) :
  under_root root s ->
  under_root root (strip_slash s ++ "/" ++ name).
Proof.
  intros [->|(rest & ->)]; [right; exists name; reflexivity|].
  right.
  destruct (strip_slash_cases (strip_slash root ++ "/" ++ rest)) as [E|E].
  - rewrite E. exists (rest ++ "/" ++ name)%string.
    rewrite !append_assoc. reflexivity.
  - exists (rest ++ name)%string.
    change (strip_slash (strip_slash root ++ "/" ++ rest) ++ "/" ++ name)%string
      with (strip_slash (strip_slash root ++ "/" ++ rest)
            ++ (String "/" EmptyString ++ name))%string.
    rewrite <- append_assoc, <- E, !append_assoc. reflexivity.
Qed.

Lemma NAPPEND_strip (p : FTSENT) :
  fts_pathlen p = strlen (fts_path p) ->
  strn (NAPPEND p) (fts_path p) = strip_slash (fts_path p).
Proof.
  intro H. unfold NAPPEND, strip_slash. rewrite H.
  destruct (last_char (fts_path p)) as [c|]; [|apply strn_all].
  destruct (Ascii.eqb c slash); [reflexivity|apply strn_all].
Qed.

(** Containment.  Whatever the entities and the behaviours, the driver
    entry behind a record that [oval_fts_read] returns has a path that is the
    starting root or lies below it, and the record gives this path when the
    path is given alone. *)
Theorem returned_under_root `{W : World}
        (path_ent filename filepath : option SEXP_ent) (behaviors : SEXP_behaviors)
        (m m' : mem) (ofts0 ofts ofts' : OVAL_FTS) (ofts_ent : OVAL_FTSENT) :
  oval_fts_open path_ent filename filepath behaviors m = (inl ofts0, m') ->
  walked ofts0 ofts ->
  oval_fts_read ofts = (Some ofts_ent, ofts') ->
  exists fts_ent cstr_path,
    last_entry ofts' = Some fts_ent /\
    ent_string (open_entity path_ent filepath) = Some cstr_path /\
    under_root (starting_root path_ent filepath cstr_path) (fts_path fts_ent) /\
    (ofts_sfilename ofts0 = None -> ofts_sfilepath ofts0 = None ->
     path ofts_ent = fts_path fts_ent).
Proof.
  intros Hopen Hw Hr.
  apply oval_fts_open_inl in Hopen.
  destruct Hopen as (literal & options & Hstr & _ & _ & _ & Hfts & _).
  set (root := starting_root path_ent filepath literal) in *.
  pose (P := fun e => fts_pathlen e = strlen (fts_path e)
                      /\ under_root root (fts_path e)).
  assert (Hinv : fts_inv P (fun _ => True) (ofts_fts ofts0)).
  { rewrite Hfts. split; cbn; [|exact I]. constructor; [|constructor].
    unfold P, fts_root.
    destruct (fts_stat (isset options FTS_COMFOLLOW) (fs_lookup root)) as [[i st] obj].
    cbn. split; [reflexivity|left; reflexivity]. }
  assert (Hg : grants P (fun _ => True) ofts0) by (intros e _ _ _; exact I).
  assert (Hchild : forall p name n,
             P p -> True -> fts_info p = FTS_D -> P (work_ent (fts_child p name n))).
  { intros p name n [Hl Hu] _ _.
    destruct (fts_child_ent p name n) as (i & st & ->). unfold P. cbn.
    split; [reflexivity|]. rewrite (NAPPEND_strip _ Hl).
    apply under_root_child. exact Hu. }
  destruct (@walked_yield W P (fun _ => True)
              (fun p i st Hp => Hp) (fun p i Hp => Hp) Hchild
              ofts0 ofts ofts' ofts_ent Hg Hinv Hw Hr)
    as (e & Hl & He & _ & _ & Hu).
  exists e, literal. repeat (split; [assumption|]).
  intros Hfn Hfp. subst ofts_ent. unfold OVAL_FTSENT_new.
  rewrite Hfn, Hfp. reflexivity.
Qed.

(** The theorem at work on [/a/b.txt]. *)
Lemma returned_under_root_witness :
  exists fts_ent cstr_path,
    last_entry (snd (@oval_fts_read sample_world
                       (sample_open (sample_ent None "/a") (sample_ent None "b.txt")
                                    None (sample_behaviors "-1" "down" None))))
    = Some fts_ent /\
    ent_string (open_entity (sample_ent None "/a") None) = Some cstr_path /\
    under_root (starting_root (sample_ent None "/a") None cstr_path)
               (fts_path fts_ent) /\
    (ofts_sfilename (sample_open (sample_ent None "/a") (sample_ent None "b.txt")
                                 None (sample_behaviors "-1" "down" None)) = None ->
     ofts_sfilepath (sample_open (sample_ent None "/a") (sample_ent None "b.txt")
                                 None (sample_behaviors "-1" "down" None)) = None ->
     path (mkOVAL_FTSENT "/a" 2 (Some "b.txt") 5) = fts_path fts_ent).
Proof.
  apply (@returned_under_root sample_world
           (sample_ent None "/a") (sample_ent None "b.txt") None
           (sample_behaviors "-1" "down" None) mem0
           (mkMem [Res_ref_filename; Res_ref_path; Res_fts; Res_ofts;
                   Res_path 0; Res_paths] 0)
           (sample_open (sample_ent None "/a") (sample_ent None "b.txt")
                        None (sample_behaviors "-1" "down" None))
           (sample_open (sample_ent None "/a") (sample_ent None "b.txt")
                        None (sample_behaviors "-1" "down" None))
           (snd (@oval_fts_read sample_world
                   (sample_open (sample_ent None "/a") (sample_ent None "b.txt")
                                None (sample_behaviors "-1" "down" None))))
           (mkOVAL_FTSENT "/a" 2 (Some "b.txt") 5)).
  - vm_compute. reflexivity.
  - apply walked_open.
  - vm_compute. reflexivity.
Defined.

(** The lengths.  In every record that [oval_fts_read] returns, [path_len]
    is the length of [path], and [file_len] is the length of [file], or -1
    when there is no [file] (lines 117-131). *)
Theorem returned_lengths_agree `{W : World}
        (path_ent filename filepath : option SEXP_ent) (behaviors : SEXP_behaviors)
        (m m' : mem) (ofts0 ofts ofts' : OVAL_FTS) (ofts_ent : OVAL_FTSENT) :
  oval_fts_open path_ent filename filepath behaviors m = (inl ofts0, m') ->
  walked ofts0 ofts ->
  oval_fts_read ofts = (Some ofts_ent, ofts') ->
  lengths_agree ofts_ent.
Proof.
  intros Hopen Hw Hr.
  apply oval_fts_open_inl in Hopen.
  destruct Hopen as (literal & options & _ & _ & _ & _ & Hfts & _).
  assert (Hinv : fts_inv ent_wf (fun _ => True) (ofts_fts ofts0)).
  { rewrite Hfts. split; cbn; [|exact I].
    constructor; [apply fts_root_wf|constructor]. }
  assert (Hg : grants ent_wf (fun _ => True) ofts0) by (intros e _ _ _; exact I).
  destruct (@walked_yield W ent_wf (fun _ => True)
              (fun p i st Hp => Hp) (fun p i Hp => Hp)
              (fun p name n _ _ _ => fts_child_wf p name n)
              ofts0 ofts ofts' ofts_ent Hg Hinv Hw Hr)
    as (e & _ & He & _ & Hpl & Hnl & _).
  subst ofts_ent. unfold OVAL_FTSENT_new, lengths_agree.
  assert (H0p : 0 <= strlen (fts_path e)) by (unfold strlen; lia).
  assert (H0n : 0 <= strlen (fts_name e)) by (unfold strlen; lia).
  destruct (is_set (ofts_sfilename ofts0) || is_set (ofts_sfilepath ofts0));
    cbn [path_len path file file_len].
  - split; [|exact Hnl].
    symmetry. apply strlen_strn. rewrite Hpl, Hnl.
    apply pathlen_from_ftse_range; assumption.
  - split; [exact Hpl|reflexivity].
Qed.

(** The theorem at work on [/a/b.txt]. *)
Lemma returned_lengths_agree_witness :
  lengths_agree (mkOVAL_FTSENT "/a" 2 (Some "b.txt") 5).
Proof.
  apply (@returned_lengths_agree sample_world
           (sample_ent None "/a") (sample_ent None "b.txt") None
           (sample_behaviors "-1" "down" None) mem0
           (mkMem [Res_ref_filename; Res_ref_path; Res_fts; Res_ofts;
                   Res_path 0; Res_paths] 0)
           (sample_open (sample_ent None "/a") (sample_ent None "b.txt")
                        None (sample_behaviors "-1" "down" None))
           (sample_open (sample_ent None "/a") (sample_ent None "b.txt")
                        None (sample_behaviors "-1" "down" None))
           (snd (@oval_fts_read sample_world
                   (sample_open (sample_ent None "/a") (sample_ent None "b.txt")
                                None (sample_behaviors "-1" "down" None))))
           (mkOVAL_FTSENT "/a" 2 (Some "b.txt") 5)).
  - vm_compute. reflexivity.
  - apply walked_open.
  - vm_compute. reflexivity.
Defined.

(* ================================================================== *)
(** * What [oval_fts_open] reads in the behaviours *)

Lemma strtol_unfold (s : string) (m : mem) :
  strtol s m =
  if strtol_text s >? LONG_MAX then (inl LONG_MAX, mkMem (live m) ERANGE)
  else if strtol_text s <? LONG_MIN then (inl LONG_MIN, mkMem (live m) ERANGE)
  else (inl (strtol_text s), m).
Proof.
  unfold strtol, strtol_text.
  destruct (_ >? LONG_MAX); [reflexivity|].
  destruct (_ <? LONG_MIN); reflexivity.
Qed.

Section Decode.
Context `{W : World}.

Lemma parse_behaviors_decode (behaviors : SEXP_behaviors) (m m' : mem)
      (b : parsed_behaviors) :
  parse_behaviors behaviors (Z.lor FTS_PHYSICAL FTS_COMFOLLOW) m = (inl b, m') ->
  (exists s, bh_max_depth behaviors = Some s /\
             LONG_MIN <= strtol_text s <= LONG_MAX /\
             p_max_depth b = int_of_long (strtol_text s)) /\
  decoded_direction (bh_recurse_direction behaviors) (p_direction b) /\
  decoded_recurse (bh_recurse behaviors) (p_recurse b) /\
  decoded_filesystem (bh_recurse_file_system behaviors) (p_filesystem b)
                     (p_fts_options b).
Proof.
  unfold parse_behaviors. intro H.
  bind_mem H as buff m1 Hmd. bind_mem H as l m2 Hl. bind_mem H as e m3 He.
  bind_mem H as u1 m4 Hchk. bind_mem H as u2 m5 Hrel.
  bind_mem H as dbuff m6 Hdb. bind_mem H as dir m7 Hdir. bind_mem H as u3 m8 Hrel2.
  bind_mem H as rec m9 Hrec. bind_mem H as fs m10 Hfs.
  apply ret_inl in H. destruct H as [-> _]. cbn [p_max_depth p_direction p_recurse
                                                p_filesystem p_fts_options].
  split; [|split; [|split]].
  - destruct (bh_max_depth behaviors) as [s|]; [|discriminate].
    bind_mem Hmd as u m0 Ha. apply ret_inl in Hmd. destruct Hmd as [Hb Hm].
    subst buff m1. exists s. split; [reflexivity|].
    rewrite strtol_unfold in Hl.
    unfold get_errno in He. inversion He; subst e m3. clear He.
    apply when_inl in Hchk.
    destruct (Z.gtb_spec (strtol_text s) LONG_MAX).
    { inversion Hl; subst. cbn [errno] in Hchk.
      destruct Hchk as [[Hc _]|[_ Hc]]; [discriminate|].
      bind_mem Hc as u' mx Hx. discriminate. }
    destruct (Z.ltb_spec (strtol_text s) LONG_MIN).
    { inversion Hl; subst. cbn [errno] in Hchk.
      destruct Hchk as [[Hc _]|[_ Hc]]; [discriminate|].
      bind_mem Hc as u' mx Hx. discriminate. }
    inversion Hl; subst. split; [lia|reflexivity].
  - clear - Hdb Hdir. unfold decoded_direction.
    destruct (bh_recurse_direction behaviors) as [s|]; [|discriminate].
    bind_mem Hdb as u m0 Ha. apply ret_inl in Hdb. destruct Hdb as [Hb _].
    subst dbuff. rename s into dbuff.
    destruct (String.eqb_spec dbuff "none") as [->|];
      [apply ret_inl in Hdir; destruct Hdir as [-> _]; auto|].
    destruct (String.eqb_spec dbuff "down") as [->|];
      [apply ret_inl in Hdir; destruct Hdir as [-> _]; auto|].
    destruct (String.eqb_spec dbuff "up") as [->|];
      [apply ret_inl in Hdir; destruct Hdir as [-> _]; auto|].
    bind_mem Hdir as u' mx Hx. discriminate.
  - clear - Hrec. unfold decoded_recurse.
    destruct (bh_recurse behaviors) as [s|];
      [|apply ret_inl in Hrec; destruct Hrec as [-> _]; auto].
    bind_mem Hrec as u m0 Ha. bind_mem Hrec as r m1 Hr. bind_mem Hrec as u' m2 Hx.
    apply ret_inl in Hrec. destruct Hrec as [-> _].
    destruct (String.eqb_spec s "symlinks and directories") as [->|];
      [apply ret_inl in Hr; destruct Hr as [-> _]; auto|].
    destruct (String.eqb_spec s "files and directories") as [->|];
      [apply ret_inl in Hr; destruct Hr as [-> _]; auto|].
    destruct (String.eqb_spec s "symlinks") as [->|];
      [apply ret_inl in Hr; destruct Hr as [-> _]; auto 6|].
    destruct (String.eqb_spec s "directories") as [->|];
      [apply ret_inl in Hr; destruct Hr as [-> _]; auto 6|].
    bind_mem Hr as u'' mx Hy. discriminate.
  - clear - Hfs. unfold decoded_filesystem.
    destruct (bh_recurse_file_system behaviors) as [s|];
      [|apply ret_inl in Hfs; destruct Hfs as [-> _]; auto].
    bind_mem Hfs as u m0 Ha. bind_mem Hfs as r m1 Hr. bind_mem Hfs as u' m2 Hx.
    apply ret_inl in Hfs. destruct Hfs as [-> _].
    destruct (String.eqb_spec s "local") as [->|];
      [apply ret_inl in Hr; destruct Hr as [-> _]; auto|].
    destruct (String.eqb_spec s "all") as [->|];
      [apply ret_inl in Hr; destruct Hr as [-> _]; auto 6|].
    destruct (String.eqb_spec s "defined") as [->|];
      [apply ret_inl in Hr; destruct Hr as [-> _]; auto 6|].
    bind_mem Hr as u'' mx Hy. discriminate.
Qed.

(** The behaviours that a handle opened on a path carries are the ones
    [parse_behaviors] has read. *)
Lemma oval_fts_open_parsed (pe : SEXP_ent) (filename filepath : option SEXP_ent)
      (behaviors : SEXP_behaviors) (m m' : mem) (ofts : OVAL_FTS) :
  oval_fts_open (Some pe) filename filepath behaviors m = (inl ofts, m') ->
  exists b m1 m2,
    parse_behaviors behaviors (Z.lor FTS_PHYSICAL FTS_COMFOLLOW) m1 = (inl b, m2) /\
    max_depth ofts = p_max_depth b /\ direction ofts = p_direction b /\
    recurse ofts = p_recurse b /\ filesystem ofts = p_filesystem b /\
    fts_options (ofts_fts ofts) = p_fts_options b.
Proof.
  unfold oval_fts_open. intro H.
  bind_inv H as u Hpre. bind_inv H as path_op Hop. bind_inv H as cfg Hcfg.
  destruct cfg as [[cstr_path nilfilename] b].
  bind_inv H as u0 Hq0.
  bind_inv H as u1 Hq1. bind_inv H as u2 Hq2. bind_inv H as new Hnew.
  bind_inv H as o Ho. bind_inv H as re Hre.
  destruct new as [o'|]; [|discriminate].
  apply ret_inl in Ho. destruct Ho as [-> _].
  pose proof (OVAL_FTS_new_inl _ _ _ _ Hnew eq_refl) as Ho.
  simpl is_set in *. cbv iota in *.
  bind_mem Hcfg as s1 ma Hs1. bind_mem Hcfg as nf mb Hnf. bind_mem Hcfg as pb mc Hpb.
  apply ret_inl in Hcfg. destruct Hcfg as [Hcfg _].
  inversion Hcfg; subst s1 nf pb. clear Hcfg.
  bind_inv H as devs Hdevs. bind_inv H as u3 Hq3. bind_inv H as u4 Hq4.
  apply ret_inl in H. destruct H as [-> _].
  exists b, mb, mc. split; [exact Hpb|].
  cbn [max_depth direction recurse filesystem ofts_fts].
  repeat (split; [reflexivity|]). rewrite Ho. reflexivity.
Qed.

End Decode.

(** The behaviours are validated and decoded (lines 209-293, 368-371).  A
    handle that [oval_fts_open] returns for a path entity carries, as
    [max_depth], the number read in the text of [max_depth], which lies in
    the range of [long], cut down to an [int]; as [direction] the code of
    [none], [down] or [up]; as [recurse] the code of one of the four values
    of [recurse], or the one of [symlinks and directories] when there is
    none; and as [filesystem] the code of [local], [all] or [defined], or the
    one of [all] when there is none.  The driver is opened physical and
    following the links given as roots, and without crossing devices exactly
    for [defined]. *)
Theorem open_decodes_behaviors `{W : World}
        (pe : SEXP_ent) (filename filepath : option SEXP_ent)
        (behaviors : SEXP_behaviors) (m m' : mem) (ofts : OVAL_FTS) :
  oval_fts_open (Some pe) filename filepath behaviors m = (inl ofts, m') ->
  (exists s, bh_max_depth behaviors = Some s /\
             LONG_MIN <= strtol_text s <= LONG_MAX /\
             max_depth ofts = int_of_long (strtol_text s)) /\
  decoded_direction (bh_recurse_direction behaviors) (direction ofts) /\
  decoded_recurse (bh_recurse behaviors) (recurse ofts) /\
  decoded_filesystem (bh_recurse_file_system behaviors) (filesystem ofts)
                     (fts_options (ofts_fts ofts)).
Proof.
  intro H. destruct (oval_fts_open_parsed _ _ _ _ _ H)
    as (b & m1 & m2 & Hp & -> & -> & -> & -> & ->).
  exact (parse_behaviors_decode _ _ Hp).
Qed.

(** The theorem at work: [defined] and a depth of 3. *)
Lemma open_decodes_behaviors_witness :
  (exists s, bh_max_depth (sample_behaviors "3" "down" (Some "defined")) = Some s /\
             LONG_MIN <= strtol_text s <= LONG_MAX /\
             max_depth (sample_open (sample_ent None "/a") (sample_ent None "b.txt")
                                    None
                                    (sample_behaviors "3" "down" (Some "defined")))
             = int_of_long (strtol_text s)) /\
  decoded_direction
    (bh_recurse_direction (sample_behaviors "3" "down" (Some "defined")))
    (direction (sample_open (sample_ent None "/a") (sample_ent None "b.txt") None
                            (sample_behaviors "3" "down" (Some "defined")))) /\
  decoded_recurse
    (bh_recurse (sample_behaviors "3" "down" (Some "defined")))
    (recurse (sample_open (sample_ent None "/a") (sample_ent None "b.txt") None
                          (sample_behaviors "3" "down" (Some "defined")))) /\
  decoded_filesystem
    (bh_recurse_file_system (sample_behaviors "3" "down" (Some "defined")))
    (filesystem (sample_open (sample_ent None "/a") (sample_ent None "b.txt") None
                             (sample_behaviors "3" "down" (Some "defined"))))
    (fts_options
       (ofts_fts (sample_open (sample_ent None "/a") (sample_ent None "b.txt") None
                              (sample_behaviors "3" "down" (Some "defined"))))).
Proof.
  apply (@open_decodes_behaviors sample_world
           (mkEnt None (Some (SEXP_string "/a"))) (sample_ent None "b.txt") None
           (sample_behaviors "3" "down" (Some "defined")) mem0
           (mkMem [Res_ref_filename; Res_ref_path; Res_fts; Res_ofts;
                   Res_path 0; Res_paths] 0)).
  vm_compute. reflexivity.
Defined.

(* ================================================================== *)
(** * Decimal text, written and read *)

Lemma digit_of_char (d : Z) : 0 <= d < 10 -> digit_of (digit_char d) = Some d.
Proof.
  intro H. assert (Hd : d = 0 \/ d = 1 \/ d = 2 \/ d = 3 \/ d = 4 \/ d = 5 \/ d = 6
                        \/ d = 7 \/ d = 8 \/ d = 9) by lia.
  destruct Hd as [->|[->|[->|[->|[->|[->|[->|[->|[->| ->]]]]]]]]]; reflexivity.
Qed.

Lemma strlen_String (c : ascii) (s : string) : strlen (String c s) = strlen s + 1.
Proof. unfold strlen. simpl String.length. lia. Qed.

Lemma strlen_nonneg (s : string) : 0 <= strlen s.
Proof. unfold strlen. lia. Qed.

Lemma print_digits_app (fuel : nat) (n : Z) (acc : string) :
  print_digits fuel n acc = (print_digits fuel n "" ++ acc)%string.
Proof.
  revert n acc. induction fuel as [|f IH]; intros n acc; cbn [print_digits].
  - reflexivity.
  - destruct (n <? 10); [reflexivity|].
    rewrite IH. rewrite (IH _ (String _ "")).
    rewrite append_assoc. reflexivity.
Qed.

Lemma print_digits_S (f : nat) (n : Z) :
  10 <= n ->
  print_digits (S f) n ""
  = (print_digits f (n / 10) "" ++ String (digit_char (n mod 10)) "")%string.
Proof.
  intro H. cbn [print_digits]. destruct (Z.ltb_spec n 10); [lia|].
  apply print_digits_app.
Qed.

Lemma strlen_print_S (f : nat) (n : Z) :
  10 <= n ->
  strlen (print_digits (S f) n "") = strlen (print_digits f (n / 10) "") + 1.
Proof.
  intro H. rewrite print_digits_S by exact H.
  rewrite strlen_append, strlen_String. reflexivity.
Qed.

Lemma div10_fuel (f : nat) (n : Z) :
  10 <= n -> n < 10 ^ (Z.of_nat (S f) + 1) ->
  0 <= n / 10 < 10 ^ (Z.of_nat f + 1).
Proof.
  intros Hge Hn. split; [apply Z.div_pos; lia|].
  apply Z.div_lt_upper_bound; [lia|].
  replace (Z.of_nat (S f) + 1) with (Z.succ (Z.of_nat f + 1)) in Hn by lia.
  rewrite Z.pow_succ_r in Hn by lia. lia.
Qed.

(** Reading what was written. *)
Lemma read_print_digits (f : nat) :
  forall n a acc,
    0 <= n < 10 ^ (Z.of_nat f + 1) ->
    read_digits a (print_digits f n acc)
    = read_digits (a * 10 ^ strlen (print_digits f n "") + n) acc.
Proof.
  induction f as [|f IH]; intros n a acc Hn.
  - change (Z.of_nat 0 + 1) with 1 in Hn. change (10 ^ 1) with 10 in Hn.
    cbn [print_digits read_digits]. rewrite Z.mod_small by lia.
    rewrite digit_of_char by lia.
    f_equal. rewrite strlen_String. change (strlen "") with 0. lia.
  - destruct (Z.ltb_spec n 10) as [Hlt|Hge].
    + cbn [print_digits]. destruct (Z.ltb_spec n 10); [|lia].
      rewrite Z.mod_small by lia. cbn [read_digits]. rewrite digit_of_char by lia.
      f_equal. rewrite strlen_String. change (strlen "") with 0. lia.
    + rewrite strlen_print_S by lia.
      cbn [print_digits]. destruct (Z.ltb_spec n 10); [lia|].
      rewrite (IH _ a _ (div10_fuel _ Hge (proj2 Hn))). cbn [read_digits].
      rewrite digit_of_char by (apply Z.mod_pos_bound; lia).
      f_equal.
      pose proof (strlen_nonneg (print_digits f (n / 10) "")).
      rewrite Z.pow_add_r by lia. change (10 ^ 1) with 10.
      pose proof (Z.div_mod n 10). lia.
Qed.

(** The number of digits written. *)
Lemma strlen_print_digits (f : nat) :
  forall n,
    0 <= n < 10 ^ (Z.of_nat f + 1) ->
    1 <= strlen (print_digits f n "") /\
    n < 10 ^ strlen (print_digits f n "") /\
    (10 <= n -> 10 ^ (strlen (print_digits f n "") - 1) <= n).
Proof.
  induction f as [|f IH]; intros n Hn.
  - change (Z.of_nat 0 + 1) with 1 in Hn. change (10 ^ 1) with 10 in Hn.
    cbn [print_digits]. rewrite strlen_String. change (strlen "") with 0.
    change (10 ^ (0 + 1)) with 10. lia.
  - destruct (Z.ltb_spec n 10) as [Hlt|Hge].
    + cbn [print_digits]. destruct (Z.ltb_spec n 10); [|lia].
      rewrite strlen_String. change (strlen "") with 0.
      change (10 ^ (0 + 1)) with 10. lia.
    + rewrite strlen_print_S by lia.
      destruct (IH _ (div10_fuel _ Hge (proj2 Hn))) as (H1 & Hlt & Hlow).
      set (k := strlen (print_digits f (n / 10) "")) in *.
      split; [lia|].
      pose proof (Z.div_mod n 10). pose proof (Z.mod_pos_bound n 10).
      split.
      * rewrite Z.pow_add_r by lia. change (10 ^ 1) with 10. lia.
      * intros _. replace (k + 1 - 1) with k by lia.
        destruct (Z.ltb_spec (n / 10) 10) as [Hs|Hs].
        -- assert (k = 1).
           { unfold k. destruct f; cbn [print_digits].
             - rewrite strlen_String. reflexivity.
             - destruct (Z.ltb_spec (n / 10) 10); [|lia].
               rewrite strlen_String. reflexivity. }
           subst. replace k with 1 by lia. change (10 ^ 1) with 10. lia.
        -- specialize (Hlow Hs).
           replace k with (Z.succ (k - 1)) by lia.
           rewrite Z.pow_succ_r by lia. lia.
Qed.

(** Fuel beyond what is needed changes nothing. *)
Lemma print_digits_fuel (f : nat) :
  forall n acc,
    0 <= n < 10 ^ (Z.of_nat f + 1) ->
    print_digits (S f) n acc = print_digits f n acc.
Proof.
  induction f as [|f IH]; intros n acc Hn.
  - change (Z.of_nat 0 + 1) with 1 in Hn. change (10 ^ 1) with 10 in Hn.
    cbn [print_digits]. destruct (Z.ltb_spec n 10); [reflexivity|lia].
  - change (print_digits (S (S f)) n acc)
      with (if n <? 10 then String (digit_char (n mod 10)) acc
            else print_digits (S f) (n / 10) (String (digit_char (n mod 10)) acc)).
    change (print_digits (S f) n acc)
      with (if n <? 10 then String (digit_char (n mod 10)) acc
            else print_digits f (n / 10) (String (digit_char (n mod 10)) acc)).
    destruct (Z.ltb_spec n 10) as [|Hge]; [reflexivity|].
    apply IH. exact (div10_fuel _ Hge (proj2 Hn)).
Qed.

Lemma print_digits_more (f g : nat) (n : Z) (acc : string) :
  0 <= n < 10 ^ (Z.of_nat f + 1) ->
  print_digits (g + f) n acc = print_digits f n acc.
Proof.
  intro Hn. induction g as [|g IH]; [reflexivity|].
  change (S g + f)%nat with (S (g + f)). rewrite print_digits_fuel; [exact IH|].
  split; [lia|]. eapply Z.lt_le_trans; [exact (proj2 Hn)|].
  apply Z.pow_le_mono_r; lia.
Qed.

Lemma log2_fuel (n : Z) :
  0 <= n -> 0 <= n < 10 ^ (Z.of_nat (Z.to_nat (Z.log2 n)) + 1).
Proof.
  intro H. split; [exact H|].
  pose proof (Z.log2_nonneg n) as Hl. rewrite Z2Nat.id by assumption.
  destruct (Z.eq_dec n 0) as [->|Hne]; [reflexivity|].
  destruct (Z.log2_spec n) as [_ Hlt]; [lia|].
  eapply Z.lt_le_trans; [exact Hlt|].
  replace (Z.succ (Z.log2 n)) with (Z.log2 n + 1) by lia.
  apply Z.pow_le_mono_l. lia.
Qed.

Lemma decimal_nonneg (n : Z) (f : nat) :
  0 <= n < 10 ^ (Z.of_nat f + 1) -> decimal n = print_digits f n "".
Proof.
  intro Hn. unfold decimal. destruct (Z.ltb_spec n 0); [lia|].
  destruct (Nat.le_ge_cases f (Z.to_nat (Z.log2 n))) as [Hle|Hle].
  - replace (Z.to_nat (Z.log2 n)) with ((Z.to_nat (Z.log2 n) - f) + f)%nat by lia.
    apply print_digits_more. exact Hn.
  - replace f with ((f - Z.to_nat (Z.log2 n)) + Z.to_nat (Z.log2 n))%nat at 1 by lia.
    symmetry. apply print_digits_more. apply log2_fuel. lia.
Qed.

(** The last digit. *)
Lemma decimal_last_digit (n : Z) :
  10 <= n ->
  decimal n = (decimal (n / 10) ++ String (digit_char (n mod 10)) "")%string.
Proof.
  intro Hge.
  assert (Hn : 0 <= n) by lia.
  pose proof (log2_fuel Hn) as Hf.
  assert (Hl : (1 <= Z.to_nat (Z.log2 n))%nat).
  { assert (1 <= Z.log2 n); [|lia].
    apply Z.log2_le_pow2; [lia|]. change (2 ^ 1) with 2. lia. }
  destruct (Z.to_nat (Z.log2 n)) as [|f] eqn:Ef; [lia|].
  rewrite (decimal_nonneg (S f) Hf).
  rewrite print_digits_S by exact Hge.
  rewrite (decimal_nonneg f (div10_fuel _ Hge (proj2 Hf))). reflexivity.
Qed.

Lemma strlen_decimal (n : Z) :
  0 <= n ->
  1 <= strlen (decimal n) /\ n < 10 ^ strlen (decimal n) /\
  (10 <= n -> 10 ^ (strlen (decimal n) - 1) <= n).
Proof.
  intro Hn. rewrite (decimal_nonneg _ (log2_fuel Hn)).
  apply strlen_print_digits. apply log2_fuel. exact Hn.
Qed.

Lemma strlen_decimal_le (n k : Z) :
  0 <= n < 10 ^ k -> 1 <= k -> strlen (decimal n) <= k.
Proof.
  intros [H0 Hk] H1. destruct (strlen_decimal H0) as (Hl & _ & Hlow).
  destruct (Z.ltb_spec n 10) as [Hs|Hs].
  - rewrite (@decimal_nonneg n 0) by (change (10 ^ (Z.of_nat 0 + 1)) with 10; lia).
    cbn [print_digits]. rewrite strlen_String. change (strlen "") with 0. lia.
  - specialize (Hlow Hs).
    destruct (Z.le_gt_cases (strlen (decimal n)) k) as [|Hgt]; [assumption|].
    exfalso.
    assert (10 ^ k <= 10 ^ (strlen (decimal n) - 1))
      by (apply Z.pow_le_mono_r; lia).
    lia.
Qed.

Lemma first_digit (f : nat) :
  forall n acc, exists d r,
    0 <= d < 10 /\ print_digits f n acc = String (digit_char d) r.
Proof.
  induction f as [|f IH]; intros n acc; cbn [print_digits].
  - exists (n mod 10), acc. split; [apply Z.mod_pos_bound; lia|reflexivity].
  - destruct (n <? 10); [|apply IH].
    exists (n mod 10), acc. split; [apply Z.mod_pos_bound; lia|reflexivity].
Qed.

Lemma strtol_text_digits (f : nat) (n : Z) :
  0 <= n < 10 ^ (Z.of_nat f + 1) -> strtol_text (print_digits f n "") = n.
Proof.
  intro Hn. unfold strtol_text.
  destruct (first_digit f n "") as (d & r & Hd & E).
  assert (Hr : read_digits 0 (print_digits f n "") = n).
  { rewrite read_print_digits by exact Hn. cbn [read_digits]. lia. }
  rewrite E in *.
  assert (Hcases : d = 0 \/ d = 1 \/ d = 2 \/ d = 3 \/ d = 4 \/ d = 5 \/ d = 6
                   \/ d = 7 \/ d = 8 \/ d = 9) by lia.
  destruct Hcases as [->|[->|[->|[->|[->|[->|[->|[->|[->| ->]]]]]]]]]; exact Hr.
Qed.

(** ["%d"] and [strtol] in base 10 are inverse to each other. *)
Lemma strtol_text_decimal (z : Z) : strtol_text (decimal z) = z.
Proof.
  destruct (Z.ltb_spec z 0) as [Hneg|Hpos].
  - unfold decimal. destruct (Z.ltb_spec z 0); [|lia].
    assert (Hn : 0 <= - z) by lia.
    unfold strtol_text.
    change (skip_spaces (String "-" ?s)) with (String "-" s).
    cbv zeta iota beta.
    rewrite read_print_digits by (apply log2_fuel; exact Hn).
    cbn [read_digits]. lia.
  - rewrite (decimal_nonneg _ (log2_fuel Hpos)).
    apply strtol_text_digits. apply log2_fuel. exact Hpos.
Qed.

Lemma int_of_long_small (z : Z) : - 2 ^ 31 <= z < 2 ^ 31 -> int_of_long z = z.
Proof.
  intro H. unfold int_of_long. rewrite Z.mod_small; lia.
Qed.

(* ================================================================== *)
(** * How [oval_fts_open] fails *)

Lemma bind_inr {A B : Type} (c : M A) (k : A -> M B) (m m2 : mem) (x : exit_t) :
  bind c k m = (inr x, m2) ->
  c m = (inr x, m2) \/ exists a m1, c m = (inl a, m1) /\ k a m1 = (inr x, m2).
Proof.
  unfold bind. destruct (c m) as [[a|e] m1]; intro H.
  - right. exists a, m1. split; [reflexivity|exact H].
  - left. inversion H. reflexivity.
Qed.

Tactic Notation "bind_fail" hyp(H) "as" ident(a) ident(m) ident(Hc) :=
  apply bind_inr in H; destruct H as [H|(a & m & Hc & H)].

(** Taking the innermost test of a hypothesis apart. *)
Ltac break_inner H :=
  match type of H with
  | context [match ?c with _ => _ end] =>
      lazymatch c with
      | context [match _ with _ => _ end] => fail
      | _ => destruct c eqn:?
      end
  end.

Section Failures.
Context `{W : World}.

(** [parse_behaviors] leaves allocated what was allocated, and gives up
    with [NULL] when it gives up; it gives up when [errno] holds [EINVAL] or
    [ERANGE] from before the call. *)
Lemma parse_behaviors_outcome (behaviors : SEXP_behaviors) (fts_options : Z)
      (m m' : mem) (r : parsed_behaviors + exit_t) :
  parse_behaviors behaviors fts_options m = (r, m') ->
  live m' = live m /\
  (forall x, r = inr x -> x = Exit_null) /\
  (errno m = EINVAL \/ errno m = ERANGE -> r = inr Exit_null).
Proof.
  unfold parse_behaviors. intro H.
  unfold bind in H.
  cbv beta iota delta [acquire release ret return_null when get_errno set_errno] in H.
  repeat (first [rewrite strtol_unfold in H | break_inner H];
          cbn [live errno remove1 resource_eqb fst snd] in H).
  all: try match goal with
           | Hb : (ERANGE =? EINVAL) || _ = false |- _ =>
               vm_compute in Hb; discriminate Hb
           end.
  all: inversion H; subst; cbn [live errno]; split; [reflexivity|];
    (split; [intros x Hx; congruence|]); intros [He|He]; try reflexivity;
    exfalso;
    match goal with
    | Hb : (errno _ =? EINVAL) || _ = false |- _ =>
        rewrite He in Hb; vm_compute in Hb; discriminate Hb
    end.
Qed.

Lemma OVAL_FTS_new_outcome (paths : list string) (count options : Z) (m m' : mem)
      (r : option OVAL_FTS + exit_t) :
  OVAL_FTS_new paths count options m = (r, m') ->
  (exists ofts, r = inl (Some ofts) /\ live m' = Res_fts :: Res_ofts :: live m) \/
  (r = inl None /\ live m' = live m /\ fts_open paths options = None) \/
  (r = inr Exit_segv /\ oscap_talloc_fails = true /\
   exists held, live m' = held ++ live m).
Proof.
  unfold OVAL_FTS_new. destruct oscap_talloc_fails;
    destruct (fts_open paths options) as [sp|]; intro H;
    inversion H; cbn [live remove1 resource_eqb].
  - right; right. repeat split. exists [Res_fts]. reflexivity.
  - right; right. repeat split. exists []. reflexivity.
  - left. eexists. split; reflexivity.
  - right; left. repeat split; reflexivity.
Qed.

Lemma open_regex_outcome (cstr_path : string) (m m' : mem) (x : exit_t) :
  open_regex cstr_path m = (inr x, m') ->
  x = Exit_null /\ m' = m /\ pcre_compile cstr_path = None.
Proof.
  unfold open_regex. destruct (pcre_compile cstr_path) as [regex|].
  - intro H. exfalso. unfold bind, acquire, release, when, ret in H.
    destruct (pcre_study regex); cbn [is_set] in H;
      destruct (prunable _ _); discriminate.
  - intro H. inversion H. repeat split; reflexivity.
Qed.

Lemma path_op_outcome (e : SEXP_ent) (m m' : mem) (r : Z + exit_t) :
  match ent_operation e with
  | Some n => acquire Res_sexp ;;; release Res_sexp ;;; ret n
  | None => ret OVAL_OPERATION_EQUALS
  end m = (r, m') ->
  r = inl (ent_op (Some e)) /\ live m' = live m /\ errno m' = errno m.
Proof.
  unfold ent_op. destruct (ent_operation e); intro H; inversion H;
    cbn [live errno remove1 resource_eqb]; repeat split; reflexivity.
Qed.

Lemma strval_outcome (ent : option SEXP_ent) (m m' : mem) (r : string + exit_t) :
  match PROBE_ENT_STRVAL ent with
  | Strval s => ret s
  | _ => return_null
  end m = (r, m') ->
  m' = m /\
  match r with
  | inl s => ent_string ent = Some s
  | inr x => x = Exit_null
  end.
Proof.
  unfold ent_string. destruct (PROBE_ENT_STRVAL ent); intro H; inversion H;
    split; reflexivity.
Qed.

Lemma nilfilename_outcome (ent : option SEXP_ent) (m m' : mem) (r : bool + exit_t) :
  match PROBE_ENT_STRVAL ent with
  | Strval _ => ret false
  | Strval_zerolen => ret true
  | Strval_invalid => return_null
  end m = (r, m') ->
  m' = m /\ forall x, r = inr x -> x = Exit_null.
Proof.
  destruct (PROBE_ENT_STRVAL ent); intro H; inversion H;
    (split; [reflexivity|intros x Hx; congruence]).
Qed.

Lemma ent_string_nonempty (ent : option SEXP_ent) (s : string) :
  ent_string ent = Some s -> String.eqb s "" = false.
Proof.
  unfold ent_string, PROBE_ENT_STRVAL.
  destruct ent as [e|]; [|discriminate].
  destruct (ent_val e) as [[v|n]|]; try discriminate.
  destruct (String.eqb v "") eqn:E; [discriminate|].
  intro H. inversion H. subst. exact E.
Qed.

(** The failures of [oval_fts_open] (lines 180-360).  When [oval_fts_open]
    does not return a handle, then either it returns [NULL] and leaves
    allocated exactly what was allocated before the call -- so it is for
    every failure in reading the entities and the behaviours --, or it is one
    of five failures that leave something behind.  Three of them dereference
    a [NULL] pointer: [oscap_alloc] has given no vector for the starting
    paths, with the copy of the root allocated; [oscap_talloc] has given no
    structure, with the starting paths (and the stream, when it was opened)
    allocated; [fts_open] has failed, with the starting paths allocated.  Two
    return [NULL]: the pattern does not compile, with the stream, the
    structure and the starting paths allocated; or no device set can be made
    for [local], with all of these and what was compiled of the pattern
    allocated. *)
Theorem open_failures_classified
        (path_ent filename filepath : option SEXP_ent)
      (behaviors : SEXP_behaviors) (m m' : mem) (x : exit_t) :
  oval_fts_open path_ent filename filepath behaviors m = (inr x, m') ->
  (x = Exit_null /\ live m' = live m)
  \/ (x = Exit_segv /\ oscap_alloc_fails = true /\
      live m' = [Res_path 0] ++ live m)
  \/ (x = Exit_segv /\ oscap_talloc_fails = true /\
      exists held, live m' = held ++ [Res_path 0; Res_paths] ++ live m)
  \/ (x = Exit_segv /\ fts_open_fails = true /\
      live m' = [Res_path 0; Res_paths] ++ live m)
  \/ (x = Exit_null /\
      ent_op (open_entity path_ent filepath) = OVAL_OPERATION_PATTERN_MATCH /\
      (exists s, ent_string (open_entity path_ent filepath) = Some s /\
                 pcre_compile s = None) /\
      live m' = [Res_fts; Res_ofts; Res_path 0; Res_paths] ++ live m)
  \/ (x = Exit_null /\ fsdev_init = None /\
      bh_recurse_file_system behaviors = Some "local" /\
      exists held,
        live m' = held ++ [Res_fts; Res_ofts; Res_path 0; Res_paths] ++ live m).
Proof.
  unfold oval_fts_open. intro H.
  bind_fail H as u ma Hpre.
  { left. unfold when in H. destruct (negb _); inversion H. split; reflexivity. }
  assert (Hargs : (negb (is_set path_ent) && negb (is_set filename) && is_set filepath
                   || is_set path_ent && negb (is_set filepath)) = true /\ ma = m).
  { unfold when in Hpre. destruct (_ || _); inversion Hpre. split; reflexivity. }
  destruct Hargs as [Hargs ->]. clear Hpre.
  assert (Hent : exists e, open_entity path_ent filepath = Some e /\
                           e = match path_ent, filepath with
                               | Some e0, _ => e0
                               | None, Some e0 => e0
                               | None, None => mkEnt None None
                               end).
  { unfold open_entity. destruct path_ent as [pe|]; [eexists; split; reflexivity|].
    destruct filepath as [fe|]; [eexists; split; reflexivity|].
    destruct filename; discriminate. }
  destruct Hent as (e & Hoe & He). rewrite <- He in H. clear He.
  bind_fail H as path_op mb Hop.
  { apply path_op_outcome in H. destruct H as [H _]. discriminate. }
  apply path_op_outcome in Hop. destruct Hop as (Hop & Lb & _).
  assert (Epo : path_op = ent_op (open_entity path_ent filepath))
    by (rewrite Hoe; congruence).
  subst path_op. clear Hop.
  bind_fail H as cfg mc Hcfg.
  { (* the entities and the behaviours *)
    left. destruct path_ent as [pe|]; cbn [is_set] in H.
    - bind_fail H as s1 m1 Hs1.
      { apply strval_outcome in H. destruct H as [-> ->]. split; [reflexivity|exact Lb]. }
      apply strval_outcome in Hs1. destruct Hs1 as [-> _].
      bind_fail H as nf m2 Hnf.
      { apply nilfilename_outcome in H. destruct H as [-> Hx].
        split; [apply Hx; reflexivity|exact Lb]. }
      apply nilfilename_outcome in Hnf. destruct Hnf as [-> _].
      bind_fail H as pb m3 Hpb.
      { apply parse_behaviors_outcome in H. destruct H as (L & Hx & _).
        split; [apply Hx; reflexivity|congruence]. }
      discriminate.
    - bind_fail H as s1 m1 Hs1.
      { apply strval_outcome in H. destruct H as [-> ->]. split; [reflexivity|exact Lb]. }
      discriminate. }
  destruct cfg as [[cstr_path nilfilename] b].
  assert (Hc : live mc = live m /\
               ent_string (open_entity path_ent filepath) = Some cstr_path /\
               (is_set path_ent = true ->
                p_filesystem b = OVAL_RECURSE_FS_LOCAL ->
                bh_recurse_file_system behaviors = Some "local")).
  { destruct path_ent as [pe|]; cbn [is_set] in Hcfg.
    - bind_mem Hcfg as s1 m1 Hs1. bind_mem Hcfg as nf m2 Hnf.
      bind_mem Hcfg as pb m3 Hpb. apply ret_inl in Hcfg. destruct Hcfg as [Hcfg ->].
      inversion Hcfg; subst s1 nf pb. clear Hcfg.
      apply strval_outcome in Hs1. destruct Hs1 as [-> Hs1].
      apply nilfilename_outcome in Hnf. destruct Hnf as [-> _].
      pose proof (parse_behaviors_outcome _ _ _ Hpb) as (L & _).
      destruct (parse_behaviors_inl _ _ _ Hpb) as (_ & _ & Hfs).
      split; [congruence|]. split; [exact Hs1|]. intros _. apply Hfs.
    - bind_mem Hcfg as s1 m1 Hs1. apply ret_inl in Hcfg. destruct Hcfg as [Hcfg ->].
      inversion Hcfg; subst s1 nilfilename b. clear Hcfg.
      apply strval_outcome in Hs1. destruct Hs1 as [-> Hs1].
      split; [exact Lb|]. split; [exact Hs1|]. discriminate. }
  destruct Hc as (Lc & Hstr & Hlocal). clear Hcfg.
  bind_fail H as u0 mc' Hq0.
  { (* no vector for the starting paths *)
    right; left. unfold when in H.
    destruct oscap_alloc_fails; [|discriminate].
    unfold bind, acquire, segv in H. inversion H. subst x m'. cbn [live app].
    split; [reflexivity|]. split; [reflexivity|]. rewrite Lc. reflexivity. }
  apply when_segv_inl in Hq0. destruct Hq0 as [_ ->].
  bind_fail H as u1 md Hq1; [discriminate|].
  bind_fail H as u2 me Hq2; [discriminate|].
  apply acquire_inl in Hq1. apply acquire_inl in Hq2.
  assert (Le : live me = [Res_path 0; Res_paths] ++ live m).
  { rewrite Hq2, Hq1. cbn [live app]. rewrite Lc. reflexivity. }
  clear Hq1 Hq2.
  bind_fail H as new mf Hnew.
  { (* no structure *)
    apply OVAL_FTS_new_outcome in H.
    destruct H as [(o & H & _)|[(H & _)|(H & Et & held & Lf)]]; try discriminate.
    right; right; left. injection H as ->.
    split; [reflexivity|]. split; [exact Et|].
    exists held. rewrite Lf, Le. reflexivity. }
  apply OVAL_FTS_new_outcome in Hnew.
  destruct Hnew as [(o & Hn & Lf)|[(Hn & Lf & Hfail)|(Hn & _)]];
    [| |discriminate]; injection Hn as Hn; subst new.
  2:{ (* fts_open has failed *)
    right; right; right; left.
    bind_fail H as o mg Ho; [|discriminate].
    inversion H. subst x mf. clear H.
    split; [reflexivity|]. split; [|rewrite Lf; exact Le].
    unfold fts_open in Hfail. cbn [existsb] in Hfail.
    destruct fts_open_fails; [reflexivity|]. exfalso.
    cbn [orb] in Hfail. rewrite orb_false_r in Hfail.
    destruct (ent_op (open_entity path_ent filepath) =? OVAL_OPERATION_EQUALS).
    - rewrite String.eqb_sym, (ent_string_nonempty _ Hstr) in Hfail. discriminate.
    - discriminate. }
  bind_fail H as o' mg Ho; [discriminate|].
  apply ret_inl in Ho. destruct Ho as [-> ->].
  assert (Lf' : live mf = [Res_fts; Res_ofts; Res_path 0; Res_paths] ++ live m).
  { rewrite Lf, Le. reflexivity. }
  clear Lf Le.
  bind_fail H as re mh Hre.
  { (* the pattern does not compile *)
    right; right; right; right; left.
    destruct (Z.eqb_spec (ent_op (open_entity path_ent filepath))
                         OVAL_OPERATION_PATTERN_MATCH) as [Eop|]; [|discriminate].
    apply open_regex_outcome in H. destruct H as (-> & -> & Hcomp).
    split; [reflexivity|]. split; [exact Eop|].
    split; [exists cstr_path; split; assumption|exact Lf']. }
  assert (Lh : live mh = (if is_set (snd re) then [Res_regex_extra] else [])
                         ++ (if is_set (fst re) then [Res_regex] else [])
                         ++ live mf).
  { destruct (ent_op (open_entity path_ent filepath) =? OVAL_OPERATION_PATTERN_MATCH).
    - apply (open_regex_live _ _ Hre).
    - apply ret_inl in Hre. destruct Hre as [-> ->]. reflexivity. }
  clear Hre.
  destruct (is_set path_ent) eqn:Epath.
  - bind_fail H as devs mi Hdevs.
    + (* no device set *)
      right; right; right; right; right.
      destruct (Z.eqb_spec (p_filesystem b) OVAL_RECURSE_FS_LOCAL) as [Efs|];
        [|discriminate].
      destruct fsdev_init as [lfs|] eqn:Einit.
      { bind_fail H as u5 mx Hq5; discriminate. }
      inversion H. subst x mh. clear H.
      split; [reflexivity|]. split; [reflexivity|].
      split; [apply Hlocal; [reflexivity|exact Efs]|].
      eexists. rewrite Lh, Lf'. rewrite app_assoc. reflexivity.
    + bind_fail H as u3 mj Hq3; [discriminate|].
      bind_fail H as u4 mk Hq4.
      { destruct nilfilename; discriminate. }
      discriminate.
  - bind_fail H as u3 mi Hq3; discriminate.
Qed.

(** [errno] is not cleared before [strtol] (lines 212-213).  Called on a
    path entity while [errno] holds [EINVAL] or [ERANGE] from an earlier
    failure, [oval_fts_open] returns [NULL] whatever its arguments are, and
    leaves allocated what was allocated. *)
Theorem stale_errno_refused
        (pe : SEXP_ent) (filename filepath : option SEXP_ent)
        (behaviors : SEXP_behaviors) (m : mem) :
  errno m = EINVAL \/ errno m = ERANGE ->
  exists m', oval_fts_open (Some pe) filename filepath behaviors m
             = (inr Exit_null, m') /\ live m' = live m.
Proof.
  intro Herr. unfold oval_fts_open.
  unfold bind at 1. unfold when at 1.
  destruct (negb _); [exists m; split; reflexivity|]. cbn [ret].
  unfold bind at 1.
  destruct (match ent_operation pe with
            | Some n => acquire Res_sexp ;;; release Res_sexp ;;; ret n
            | None => ret OVAL_OPERATION_EQUALS
            end m) as [r mb] eqn:Hop.
  apply path_op_outcome in Hop. destruct Hop as (-> & Lb & Eb).
  unfold bind at 1. cbn [is_set].
  unfold bind at 1.
  destruct (match PROBE_ENT_STRVAL (Some pe) with
            | Strval s => ret s
            | _ => return_null
            end mb) as [r1 m1] eqn:Hs1.
  apply strval_outcome in Hs1. destruct Hs1 as [-> Hs1].
  destruct r1 as [cstr_path|x]; [|subst x; exists mb; split; [reflexivity|exact Lb]].
  unfold bind at 1.
  destruct (match PROBE_ENT_STRVAL filename with
            | Strval_invalid => return_null
            | Strval_zerolen => ret true
            | Strval _ => ret false
            end mb) as [r2 m2] eqn:Hnf.
  apply nilfilename_outcome in Hnf. destruct Hnf as [-> Hnf].
  destruct r2 as [nilfilename|x];
    [|rewrite (Hnf x eq_refl); exists mb; split; [reflexivity|exact Lb]].
  unfold bind at 1.
  destruct (parse_behaviors behaviors (Z.lor FTS_PHYSICAL FTS_COMFOLLOW) mb)
    as [r3 m3] eqn:Hpb.
  apply parse_behaviors_outcome in Hpb. destruct Hpb as (L & _ & Hstale).
  rewrite Hstale by (rewrite Eb; exact Herr).
  exists m3. split; [reflexivity|congruence].
Qed.

End Failures.

(** The classification at work on a pattern that does not compile. *)
Lemma open_failures_classified_witness :
  (Exit_null = Exit_null /\
   [Res_fts; Res_ofts; Res_path 0; Res_paths] = live mem0)
  \/ (Exit_null = Exit_segv /\ @oscap_alloc_fails sample_world = true /\
      [Res_fts; Res_ofts; Res_path 0; Res_paths] = [Res_path 0] ++ live mem0)
  \/ (Exit_null = Exit_segv /\ @oscap_talloc_fails sample_world = true /\
      exists held,
        [Res_fts; Res_ofts; Res_path 0; Res_paths]
        = held ++ [Res_path 0; Res_paths] ++ live mem0)
  \/ (Exit_null = Exit_segv /\ @fts_open_fails sample_world = true /\
      [Res_fts; Res_ofts; Res_path 0; Res_paths]
      = [Res_path 0; Res_paths] ++ live mem0)
  \/ (Exit_null = Exit_null /\
      ent_op (open_entity (sample_ent (Some 11) "(") None)
      = OVAL_OPERATION_PATTERN_MATCH /\
      (exists s, ent_string (open_entity (sample_ent (Some 11) "(") None) = Some s /\
                 @pcre_compile sample_world s = None) /\
      [Res_fts; Res_ofts; Res_path 0; Res_paths]
      = [Res_fts; Res_ofts; Res_path 0; Res_paths] ++ live mem0)
  \/ (Exit_null = Exit_null /\ @fsdev_init sample_world = None /\
      bh_recurse_file_system (sample_behaviors "-1" "down" None) = Some "local" /\
      exists held,
        [Res_fts; Res_ofts; Res_path 0; Res_paths]
        = held ++ [Res_fts; Res_ofts; Res_path 0; Res_paths] ++ live mem0).
Proof.
  apply (@open_failures_classified sample_world
           (sample_ent (Some 11) "(") (sample_ent None "b.txt") None
           (sample_behaviors "-1" "down" None) mem0
           (mkMem [Res_fts; Res_ofts; Res_path 0; Res_paths] 0) Exit_null).
  vm_compute. reflexivity.
Defined.

(** The refusal at work: [errno] holds [ERANGE]. *)
Lemma stale_errno_witness :
  exists m', @oval_fts_open sample_world (sample_ent None "/a")
                            (sample_ent None "b.txt") None
                            (sample_behaviors "-1" "down" None) (mkMem [] ERANGE)
             = (inr Exit_null, m') /\ live m' = live (mkMem [] ERANGE).
Proof.
  apply (@stale_errno_refused sample_world
           (mkEnt None (Some (SEXP_string "/a"))) (sample_ent None "b.txt") None
           (sample_behaviors "-1" "down" None) (mkMem [] ERANGE)).
  right. reflexivity.
Defined.

(* ================================================================== *)
(** * The depth limit, from text to number *)

(** The depth limit is read back (lines 210-212, 368).  When the text of
    [max_depth] is a number of the range of [int] in decimal digits, the
    handle carries that number. *)
Theorem max_depth_read_back `{W : World}
        (pe : SEXP_ent) (filename filepath : option SEXP_ent)
        (behaviors : SEXP_behaviors) (m m' : mem) (ofts : OVAL_FTS) (k : Z) :
  oval_fts_open (Some pe) filename filepath behaviors m = (inl ofts, m') ->
  bh_max_depth behaviors = Some (decimal k) ->
  - 2 ^ 31 <= k < 2 ^ 31 ->
  max_depth ofts = k.
Proof.
  intros H Hmd Hk.
  destruct (oval_fts_open_parsed _ _ _ _ _ H) as (b & m1 & m2 & Hp & -> & _).
  destruct (parse_behaviors_decode _ _ Hp) as ((s & Hs & _ & ->) & _).
  rewrite Hmd in Hs. inversion Hs. subst s.
  rewrite strtol_text_decimal. apply int_of_long_small. exact Hk.
Qed.

(** The theorem at work on a limit of 12 levels. *)
Lemma max_depth_read_back_witness :
  max_depth (sample_open (sample_ent None "/a") (sample_ent None "b.txt") None
                         (sample_behaviors (decimal 12) "down" None)) = 12.
Proof.
  apply (@max_depth_read_back sample_world
           (mkEnt None (Some (SEXP_string "/a"))) (sample_ent None "b.txt") None
           (sample_behaviors (decimal 12) "down" None) mem0
           (mkMem [Res_ref_filename; Res_ref_path; Res_fts; Res_ofts;
                   Res_path 0; Res_paths] 0)).
  - vm_compute. reflexivity.
  - reflexivity.
  - lia.
Defined.

(* ================================================================== *)
(** * The iteration as a whole *)

Section Walk.
Variables options dev : Z.
Variable steer : FTSENT -> fts_instr_t.
Hypothesis steer_follow : forall e, steer e = FTS_FOLLOW -> fts_info e = FTS_SL.

Lemma fts_expand_weight (e : FTSENT) (n : node) :
  work_ok (Visit e n) ->
  Forall (fun c => (work_weight c < work_weight (Visit e n))%nat /\ work_ok c)
         (fts_expand options dev (steer e) e n).
Proof.
  intro Hok. unfold fts_expand.
  destruct (steer e) eqn:Es.
  - destruct (fts_info e) eqn:Ei; try constructor.
    destruct (isset options FTS_XDEV && negb (ent_dev e =? dev)).
    { constructor; [|constructor]. cbn [work_weight]. unfold pending_weight.
      rewrite Ei. split; [lia|exact I]. }
    destruct n as [|st|st ens|st t|st];
      try (constructor; [|constructor]; cbn [work_weight]; unfold pending_weight;
           rewrite Ei; split; [lia|exact I]).
    destruct ens as [|en ens];
      [constructor; [|constructor]; cbn [work_weight]; unfold pending_weight;
       rewrite Ei; split; [lia|exact I]|].
    apply Forall_app. split.
    + pose proof (fts_build_weight e (en :: ens) st) as Hw.
      pose proof (fts_build_ok e (en :: ens)) as Hb.
      cbn [work_weight]. unfold pending_weight. rewrite Ei.
      revert Hw Hb. generalize (fts_build e (en :: ens)) as l.
      generalize (node_weight (Dir st (en :: ens))) as k.
      intros k l. induction l as [|c l IH]; intros Hw Hb; constructor.
      * inversion Hb; subst. cbn [map list_sum] in Hw. unfold list_sum in Hw.
        cbn [fold_right] in Hw. split; [lia|assumption].
      * inversion Hb; subst. apply IH; [|assumption].
        cbn [map] in Hw. unfold list_sum in *. cbn [fold_right] in Hw. lia.
    + constructor; [|constructor]. cbn [work_weight]. unfold pending_weight.
      rewrite Ei. split; [lia|exact I].
  - pose proof (steer_follow Es) as Ei. rewrite Ei.
    cbn [work_ok] in Hok. specialize (Hok Ei).
    destruct n as [|st|st ens|st t|st]; try discriminate.
    destruct (fts_stat true (Symlink st t)) as [[i s] obj] eqn:Est.
    constructor; [|constructor]. split.
    + pose proof (fts_stat_follow_weight _ _ Est) as Hw.
      cbn [work_weight]. unfold pending_weight. cbn [fts_info]. rewrite Ei.
      cbn [node_weight]. destruct i; lia.
    + cbn [work_ok fts_info]. apply (fts_stat_ok _ _ Est).
  - destruct (fts_info e) eqn:Ei; try constructor; [|constructor].
    cbn [work_weight]. unfold pending_weight. rewrite Ei. split; [lia|exact I].
Qed.

Lemma drains_walk (fuel : nat) :
  forall w rest l,
    (work_weight w < fuel)%nat -> work_ok w ->
    drains options dev steer rest l ->
    drains options dev steer (w :: rest) (fts_walk options dev steer fuel w ++ l).
Proof.
  induction fuel as [|f IH]; intros w rest l Hw Hok Hd; [lia|].
  destruct w as [e n|d n]; cbn [fts_walk].
  - cbn [app]. apply drains_visit.
    pose proof (fts_expand_weight Hok) as Hx.
    revert Hx. generalize (fts_expand options dev (steer e) e n) as ws.
    induction ws as [|c ws IHws]; intro Hx; cbn [flat_map app]; [exact Hd|].
    inversion Hx as [|? ? [Hc Hcok] Hrest]; subst.
    rewrite <- app_assoc. apply IH; [lia|exact Hcok|].
    apply IHws. exact Hrest.
  - cbn [app]. apply drains_leave. exact Hd.
Qed.

Lemma drains_walk_list (fuel : nat) (ws rest : list fts_work) (l : list FTSENT) :
  Forall (fun c => (work_weight c < fuel)%nat /\ work_ok c) ws ->
  drains options dev steer rest l ->
  drains options dev steer (ws ++ rest)
         (flat_map (fts_walk options dev steer fuel) ws ++ l).
Proof.
  intros Hx Hd. induction ws as [|c ws IH]; cbn [flat_map app]; [exact Hd|].
  inversion Hx as [|? ? [Hc Hcok] Hrest]; subst.
  rewrite <- app_assoc. apply drains_walk; [exact Hc|exact Hcok|].
  apply IH. exact Hrest.
Qed.

End Walk.

Lemma fts_next_ext (sp sp2 : FTS) :
  fts_options sp2 = fts_options sp -> fts_dev sp2 = fts_dev sp ->
  fts_todo sp2 = fts_todo sp ->
  fts_next sp2 = fts_next sp.
Proof.
  intros Ho Hd Ht. unfold fts_next. rewrite Ho, Hd, Ht. reflexivity.
Qed.

(** [fts_read] takes the next piece of the work in front of the driver. *)
Lemma fts_read_pending (sp : FTS) :
  (forall o, fts_cur sp = Some o -> fts_instr sp = FTS_FOLLOW ->
             0 < fts_level (obj_ent o)) ->
  fts_read sp
  = fts_next (mkFTS (fts_options sp) (fts_dev sp) None FTS_NOINSTR (pending sp)).
Proof.
  intro Hlev. unfold fts_read, pending.
  destruct (fts_cur sp) as [[p n]|] eqn:Ecur; [|apply fts_next_ext; reflexivity].
  specialize (Hlev _ eq_refl). cbn [obj_ent] in Hlev.
  unfold fts_expand.
  assert (Hfollow :
    fts_instr sp = FTS_FOLLOW ->
    (let '(info, st, obj) := fts_stat true n in
     (Some (mkFTSENT info (fts_path p) (fts_pathlen p) (fts_name p)
                     (fts_namelen p) (fts_level p) (Some st) (fts_parent p)),
      mkFTS (fts_options sp) (fts_dev sp)
            (Some (mkObj (mkFTSENT info (fts_path p) (fts_pathlen p) (fts_name p)
                                   (fts_namelen p) (fts_level p) (Some st)
                                   (fts_parent p)) obj))
            FTS_NOINSTR (fts_todo sp)))
    = fts_next (mkFTS (fts_options sp) (fts_dev sp) None FTS_NOINSTR
                      ((let '(info, st, obj) := fts_stat true n in
                        [Visit (mkFTSENT info (fts_path p) (fts_pathlen p)
                                         (fts_name p) (fts_namelen p) (fts_level p)
                                         (Some st) (fts_parent p)) obj])
                       ++ fts_todo sp))).
  { intro Hf. specialize (Hlev Hf).
    destruct (fts_stat true n) as [[i st] obj]. unfold fts_next.
    cbn [fts_todo app fts_level fts_options fts_dev].
    destruct (Z.eqb_spec (fts_level p) 0); [lia|]. reflexivity. }
  assert (Hleave :
    (Some (set_info FTS_DP p),
     mkFTS (fts_options sp) (fts_dev sp) (Some (mkObj (set_info FTS_DP p) n))
           FTS_NOINSTR (fts_todo sp))
    = fts_next (mkFTS (fts_options sp) (fts_dev sp) None FTS_NOINSTR
                      ([Leave p n] ++ fts_todo sp))) by reflexivity.
  destruct (fts_instr sp) eqn:Ei; destruct (fts_info p) eqn:Einfo;
    try (apply fts_next_ext; reflexivity);
    try (apply Hfollow; reflexivity);
    try exact Hleave.
  - destruct (isset (fts_options sp) FTS_XDEV && negb (ent_dev p =? fts_dev sp));
      [exact Hleave|].
    destruct n as [|st|st ens|st t|st]; try exact Hleave.
    destruct ens as [|en ens]; [exact Hleave|].
    apply fts_next_ext; try reflexivity.
    cbn [fts_todo]. rewrite <- app_assoc. reflexivity.
  - destruct (isset (fts_options sp) FTS_XDEV && negb (ent_dev p =? fts_dev sp));
      [exact Hleave|].
    destruct n as [|st|st ens|st t|st]; try exact Hleave.
    destruct ens as [|en ens]; [exact Hleave|].
    apply fts_next_ext; try reflexivity.
    cbn [fts_todo]. rewrite <- app_assoc. reflexivity.
Qed.

Lemma fts_expand_below (options dev : Z) (instr : fts_instr_t) (e : FTSENT) (n : node) :
  0 <= fts_level e ->
  (instr = FTS_FOLLOW -> 0 < fts_level e) ->
  Forall visit_below (fts_expand options dev instr e n).
Proof.
  intros Hl0 Hl. unfold fts_expand.
  assert (Hb : forall ens, Forall visit_below (fts_build e ens ++ [Leave e n])).
  { intro ens. apply Forall_app. split; [|constructor; [exact I|constructor]].
    unfold fts_build. apply Forall_forall. intros w Hin.
    apply in_map_iff in Hin. destruct Hin as (en & <- & _).
    destruct (fts_child_ent e (fst en) (snd en)) as (i & st & Hc).
    unfold fts_child in *. destruct (fts_stat false (snd en)) as [[i' st'] obj].
    cbn [work_ent] in Hc. cbn [visit_below]. rewrite Hc. cbn [fts_level]. lia. }
  destruct instr; destruct (fts_info e);
    first [ solve [constructor]
          | solve [constructor; [exact I|constructor]]
          | solve [destruct (fts_stat true n) as [[i st] obj];
                   constructor; [exact (Hl eq_refl)|constructor]]
          | destruct (isset options FTS_XDEV && negb (ent_dev e =? dev));
            [constructor; [exact I|constructor]|];
            destruct n as [|st|st ens|st t|st];
            try (constructor; [exact I|constructor]);
            destruct ens as [|en ens]; [constructor; [exact I|constructor]|];
            apply Hb ].
Qed.

Section Run.
Variable steer : FTSENT -> fts_instr_t.
Hypothesis steer_dp : forall e, fts_info e = FTS_DP -> steer e <> FTS_FOLLOW.

Lemma run_drains (options dev : Z) (ws : list fts_work) (l : list FTSENT) :
  drains options dev steer ws l ->
  forall sp,
    fts_options sp = options -> fts_dev sp = dev ->
    pending sp = ws ->
    Forall visit_below ws ->
    (forall o, fts_cur sp = Some o -> fts_instr sp = FTS_FOLLOW ->
               0 < fts_level (obj_ent o)) ->
    fts_run steer sp l.
Proof.
  induction 1 as [|e n rest l Hd IH|d n rest l Hd IH];
    intros sp Ho Hdev Hp Hb Hlev.
  - eapply fts_run_end. rewrite (fts_read_pending _ Hlev), Hp. reflexivity.
  - inversion Hb as [|? ? Hbe Hbr]; subst. cbn [visit_below] in Hbe.
    eapply fts_run_step.
    + rewrite (fts_read_pending _ Hlev), Hp. unfold fts_next. cbn [fts_todo].
      destruct (Z.eqb_spec (fts_level e) 0); [lia|]. reflexivity.
    + apply IH; try reflexivity.
      * apply Forall_app. split; [apply fts_expand_below; lia|exact Hbr].
      * cbn [fts_set fts_cur fts_instr]. intros o Ho _. inversion Ho. subst o.
        exact Hbe.
  - inversion Hb as [|? ? Hbe Hbr]; subst.
    eapply fts_run_step.
    + rewrite (fts_read_pending _ Hlev), Hp. reflexivity.
    + apply IH; try reflexivity.
      * unfold pending, fts_set. cbn [fts_cur fts_instr fts_options fts_dev fts_todo].
        unfold fts_expand. cbn [set_info fts_info].
        destruct (steer (set_info FTS_DP d)); reflexivity.
      * exact Hbr.
      * cbn [fts_set fts_cur fts_instr]. intros o Ho Hf. exfalso.
        apply (@steer_dp (set_info FTS_DP d)); [reflexivity|exact Hf].
Qed.

End Run.

Section Whole.
Context `{W : World}.

Lemma oval_fts_read_loop_mono (f : nat) :
  forall f' ofts r,
    oval_fts_read_loop f ofts = Some r -> (f <= f')%nat ->
    oval_fts_read_loop f' ofts = Some r.
Proof.
  induction f as [|f IH]; intros f' ofts r H Hle; [discriminate|].
  destruct f' as [|f']; [lia|]. cbn [oval_fts_read_loop] in *.
  destruct (oval_fts_turn ofts); try exact H.
  apply IH; [exact H|lia].
Qed.

Lemma oval_fts_read_of_loop (f : nat) (ofts : OVAL_FTS)
      (r : option OVAL_FTSENT * OVAL_FTS) :
  fts_wf (ofts_fts ofts) ->
  oval_fts_read_loop f ofts = Some r -> oval_fts_read ofts = r.
Proof.
  intros Hwf H. unfold oval_fts_read.
  destruct (@oval_fts_read_loop_total W (S (fts_weight (ofts_fts ofts))) ofts Hwf
              (Nat.lt_succ_diag_r _)) as (r1 & o1 & E).
  rewrite E.
  destruct (Nat.le_ge_cases f (S (fts_weight (ofts_fts ofts)))) as [Hle|Hle].
  - rewrite (@oval_fts_read_loop_mono f _ _ _ H Hle) in E. congruence.
  - rewrite (@oval_fts_read_loop_mono _ _ _ _ E Hle) in H. congruence.
Qed.

(** A turn on an entry: it is reported, or the loop goes on. *)
Lemma oval_fts_turn_reported (ofts : OVAL_FTS) (e : FTSENT) (sp : FTS) :
  fts_read (ofts_fts ofts) = (Some e, sp) ->
  oval_fts_prune ofts e <> Prune_error ->
  oval_fts_turn ofts
  = if reported ofts e
    then Turn_break (OVAL_FTSENT_new ofts e) (after_turn ofts e sp)
    else Turn_continue (after_turn ofts e sp).
Proof.
  intros Hr Hne. unfold oval_fts_turn, after_turn, turn_instr, reported. rewrite Hr.
  destruct (fts_read_some _ Hr) as (Hi & _ & _).
  assert (Hsp : sp = mkFTS (fts_options sp) (fts_dev sp) (fts_cur sp)
                           FTS_NOINSTR (fts_todo sp))
    by (destruct sp; simpl in *; subst; reflexivity).
  destruct (fts_info e) eqn:Ei;
    try (rewrite Hsp at 1; reflexivity);
    (destruct (oval_fts_prune ofts e) eqn:Ep;
     [ rewrite fts_set_all_spec, Hi; fold (final_instr (oval_fts_recurse ofts e));
       destruct (oval_fts_match ofts e); reflexivity
     | reflexivity
     | simpl fts_info_eqb; cbv iota; try reflexivity; rewrite Hsp at 1; reflexivity
     | congruence ]).
Qed.

Lemma reported_config (a b : OVAL_FTS) (e : FTSENT) :
  same_config a b -> reported b e = reported a e.
Proof.
  intro H. unfold reported.
  rewrite (oval_fts_prune_config e H), (oval_fts_match_config e H). reflexivity.
Qed.

Lemma after_turn_set_fts (ofts : OVAL_FTS) (sp sp' : FTS) (e : FTSENT) :
  after_turn (set_fts ofts sp) e sp'
  = set_fts ofts (fts_set sp' e (turn_instr ofts e)).
Proof.
  unfold after_turn, fts_set. rewrite set_fts_set_fts.
  rewrite (@turn_instr_config W ofts (set_fts ofts sp) e); [reflexivity|].
  unfold same_config. rewrite set_fts_fts. reflexivity.
Qed.

(** The records of an iteration are the reported entries of the run of the
    driver. *)
Lemma read_all_run (ofts : OVAL_FTS) (sp : FTS) (l : list FTSENT) :
  fts_run (turn_instr ofts) sp l ->
  fts_wf sp ->
  (forall e, oval_fts_prune ofts e <> Prune_error) ->
  forall n,
    (List.length (filter (reported ofts) l) < n)%nat ->
    oval_fts_read_all n (set_fts ofts sp)
    = map (fun e => (OVAL_FTSENT_new ofts e, Some e)) (filter (reported ofts) l).
Proof.
  intros Hrun. induction Hrun as [sp sp' Hr|sp sp' e l Hr Hrun IH];
    intros Hwf Hne n Hn.
  - destruct n as [|n]; [cbn in Hn; lia|]. cbn [oval_fts_read_all filter map].
    assert (Hread : oval_fts_read (set_fts ofts sp) = (None, set_fts ofts sp')).
    { apply (@oval_fts_read_of_loop 1); [rewrite set_fts_fts; exact Hwf|].
      cbn [oval_fts_read_loop]. rewrite oval_fts_turn_end with (sp := sp').
      - rewrite set_fts_set_fts. reflexivity.
      - rewrite set_fts_fts. exact Hr. }
    rewrite Hread. reflexivity.
  - assert (Hcfg : same_config ofts (set_fts ofts sp))
      by (unfold same_config; rewrite set_fts_fts; reflexivity).
    assert (Hr' : fts_read (ofts_fts (set_fts ofts sp)) = (Some e, sp'))
      by (rewrite set_fts_fts; exact Hr).
    assert (Hwf0 : fts_wf (ofts_fts (set_fts ofts sp)))
      by (rewrite set_fts_fts; exact Hwf).
    pose proof (oval_fts_turn_reported _ Hr'
                  (eq_ind_r (fun p => p <> Prune_error) (Hne e)
                            (oval_fts_prune_config e Hcfg))) as Ht.
    rewrite (reported_config e Hcfg), after_turn_set_fts,
      (OVAL_FTSENT_new_config e Hcfg) in Ht.
    pose proof (@oval_fts_turn_decreases W _ Hwf0) as Hdec. rewrite Ht in Hdec.
    assert (Hwf1 : fts_wf (fts_set sp' e (turn_instr ofts e))).
    { destruct (reported ofts e); destruct Hdec as [Hdec _];
        rewrite set_fts_fts in Hdec; exact Hdec. }
    specialize (IH Hwf1 Hne).
    cbn [filter] in Hn |- *. destruct (reported ofts e) eqn:Erep.
    + destruct n as [|n]; [cbn in Hn; lia|].
      cbn [List.length] in Hn. cbn [oval_fts_read_all map].
      assert (Hread : oval_fts_read (set_fts ofts sp)
                      = (Some (OVAL_FTSENT_new ofts e),
                         set_fts ofts (fts_set sp' e (turn_instr ofts e)))).
      { apply (@oval_fts_read_of_loop 1); [exact Hwf0|].
        cbn [oval_fts_read_loop]. rewrite Ht. reflexivity. }
      rewrite Hread. rewrite IH by lia.
      f_equal. f_equal. unfold last_entry. rewrite set_fts_fts.
      destruct (fts_read_some _ Hr) as (_ & _ & nd & Hc).
      cbn [fts_set fts_cur]. rewrite Hc. reflexivity.
    + destruct n as [|n]; [lia|].
      rewrite <- (IH (S n) Hn). cbn [oval_fts_read_all].
      assert (Hread : oval_fts_read (set_fts ofts sp)
                      = oval_fts_read (set_fts ofts (fts_set sp' e (turn_instr ofts e)))).
      { destruct (@oval_fts_read_loop_total W
                    (S (fts_weight (fts_set sp' e (turn_instr ofts e))))
                    (set_fts ofts (fts_set sp' e (turn_instr ofts e))))
          as (r1 & o1 & E).
        - rewrite set_fts_fts. exact Hwf1.
        - rewrite set_fts_fts. lia.
        - rewrite (@oval_fts_read_of_loop _ _ _ ltac:(rewrite set_fts_fts; exact Hwf1) E).
          apply (@oval_fts_read_of_loop
                   (S (S (fts_weight (fts_set sp' e (turn_instr ofts e))))));
            [exact Hwf0|].
          cbn [oval_fts_read_loop]. rewrite Ht.
          cbn [oval_fts_read_loop] in E. exact E. }
      rewrite Hread. reflexivity.
Qed.

Lemma fts_root_not_SL (options : Z) (p : string) (n : node) :
  isset options FTS_COMFOLLOW = true ->
  fts_info (work_ent (fts_root options p n)) <> FTS_SL.
Proof.
  intro Hc. unfold fts_root. rewrite Hc.
  destruct (fts_stat true n) as [[i st] obj] eqn:E. cbn.
  intro Hi. subst i.
  unfold fts_stat in E. destruct n as [|s|s ens|s t|s]; cbn in E; try discriminate E.
  pose proof (resolve_not_symlink t) as Hr.
  destruct (resolve t) as [|s'|s' ens|s' t'|s']; cbn in E, Hr;
    try discriminate E; discriminate Hr.
Qed.

End Whole.

(** The records of an iteration are the ones expected. *)
Lemma oval_fts_read_all_expected `{W : World}
        (path_ent filename filepath : option SEXP_ent) (behaviors : SEXP_behaviors)
        (m m' : mem) (ofts0 : OVAL_FTS) (n : nat) :
  oval_fts_open path_ent filename filepath behaviors m = (inl ofts0, m') ->
  (forall e, oval_fts_prune ofts0 e <> Prune_error) ->
  (List.length (oval_fts_expected ofts0) < n)%nat ->
  oval_fts_read_all n ofts0 = oval_fts_expected ofts0.
Proof.
  intros Hopen Hne Hn.
  apply oval_fts_open_inl in Hopen.
  destruct Hopen as (literal & options & _ & _ & _ & _ & Hfts & Hcom & _).
  set (root := starting_root path_ent filepath literal) in *.
  pose proof (@fts_root_not_SL options root (fs_lookup root) Hcom) as Hnsl.
  pose proof (fts_root_path options root (fs_lookup root)) as [_ Hlev].
  pose proof (fts_root_ok options root (fs_lookup root)) as Hok.
  destruct (fts_root options root (fs_lookup root)) as [e0 n0|d n0] eqn:Eroot.
  2:{ unfold fts_root in Eroot.
      destruct (fts_stat (isset options FTS_COMFOLLOW) (fs_lookup root)) as [[? ?] ?].
      discriminate. }
  cbn [work_ent] in Hnsl, Hlev.
  assert (Hsteer : forall e, turn_instr ofts0 e = FTS_FOLLOW -> fts_info e = FTS_SL)
    by (intros e; apply turn_instr_follow).
  assert (Hwalk : oval_fts_walk ofts0
                  = e0 :: flat_map (fts_walk options (ent_dev e0) (turn_instr ofts0)
                                             (work_weight (Visit e0 n0)))
                                   (fts_expand options (ent_dev e0)
                                               (turn_instr ofts0 e0) e0 n0)).
  { unfold oval_fts_walk. rewrite Hfts. cbn [fts_todo fts_options flat_map work_ent].
    rewrite app_nil_r. reflexivity. }
  unfold oval_fts_expected in *. rewrite Hwalk in *.
  rewrite <- (set_fts_self ofts0) at 1.
  rewrite length_map in Hn.
  apply read_all_run; [| |exact Hne|exact Hn].
  2:{ rewrite Hfts. split; cbn [fts_todo fts_cur]; [|exact I].
      constructor; [exact Hok|constructor]. }
  rewrite Hfts.
  eapply fts_run_step.
  { unfold fts_read, fts_next. cbn [fts_cur fts_todo fts_options fts_dev].
    rewrite Hlev. cbn [Z.eqb]. reflexivity. }
  eapply run_drains with (options := options) (dev := ent_dev e0);
    try reflexivity.
  - intros e Hi Hf. apply Hsteer in Hf. congruence.
  - unfold pending, fts_set. cbn [fts_cur fts_instr fts_options fts_dev fts_todo].
    rewrite <- (app_nil_r (flat_map _ _)).
    exact (@drains_walk_list options (ent_dev e0) (turn_instr ofts0) Hsteer
             (work_weight (Visit e0 n0)) _ [] []
             (@fts_expand_weight options (ent_dev e0) (turn_instr ofts0) Hsteer
                                 e0 n0 Hok)
             (drains_nil _ _ _)).
  - unfold pending, fts_set. cbn [fts_cur fts_instr fts_options fts_dev fts_todo].
    rewrite app_nil_r. apply fts_expand_below; [lia|].
    intro Hf. apply Hsteer in Hf. congruence.
  - cbn [fts_set fts_cur fts_instr]. intros o Ho Hf. apply Hsteer in Hf.
    inversion Ho. subst o. cbn [obj_ent]. congruence.
Qed.

(** The iteration as a whole.  On a handle that [oval_fts_open] has
    returned, and with a regular expression engine that reports no error in
    the partial match, the loop of the probes -- [oval_fts_read] until it
    returns [NULL] -- gives, in this order, exactly the records of the
    entries that a turn of the loop reports among the entries that the driver
    hands out in the depth-first traversal steered by the turns: nothing is
    left out, nothing comes twice, and the loop ends. *)
Theorem iteration_is_walk `{W : World}
        (path_ent filename filepath : option SEXP_ent) (behaviors : SEXP_behaviors)
        (m m' : mem) (ofts0 : OVAL_FTS) (n : nat) :
  oval_fts_open path_ent filename filepath behaviors m = (inl ofts0, m') ->
  (forall e, oval_fts_prune ofts0 e <> Prune_error) ->
  (List.length (oval_fts_expected ofts0) < n)%nat ->
  oval_fts_read_all n ofts0 = oval_fts_expected ofts0.
Proof.
  intros Hopen Hne Hn.
  exact (@oval_fts_read_all_expected W path_ent filename filepath behaviors m m'
           ofts0 n Hopen Hne Hn).
Qed.

(** The theorem at work on [/r], with a depth limit of 1. *)
Lemma iteration_is_walk_witness :
  @oval_fts_read_all sample_world 3
    (sample_open (sample_ent None "/r") (sample_ent (Some 2) "none such") None
                 (sample_behaviors "1" "down" None))
  = @oval_fts_expected sample_world
      (sample_open (sample_ent None "/r") (sample_ent (Some 2) "none such") None
                   (sample_behaviors "1" "down" None)).
Proof.
  apply (@iteration_is_walk sample_world
           (sample_ent None "/r") (sample_ent (Some 2) "none such") None
           (sample_behaviors "1" "down" None) mem0
           (mkMem [Res_ref_filename; Res_ref_path; Res_fts; Res_ofts;
                   Res_path 0; Res_paths] 0)).
  - vm_compute. reflexivity.
  - intro e. vm_compute. discriminate.
  - vm_compute. lia.
Defined.

(* ================================================================== *)
(** * Objects of the definition model: properties *)

Lemma strn_ge (n : Z) (s : string) : strlen s <= n -> strn n s = s.
Proof.
  intro H. unfold strn, strlen in *.
  assert (Hn : (String.length s <= Z.to_nat n)%nat) by lia.
  revert Hn. generalize (Z.to_nat n) as k. clear H.
  induction s as [|c s IH]; intros k Hk.
  - destruct k; reflexivity.
  - destruct k as [|k]; [cbn in Hk; lia|]. cbn [substring]. f_equal.
    apply IH. cbn in Hk. lia.
Qed.

Lemma strlen_decimal_exact (n k : Z) :
  1 <= k -> 10 ^ (k - 1) <= n < 10 ^ k -> 10 <= n -> strlen (decimal n) = k.
Proof.
  intros Hk [Hlo Hhi] H10.
  assert (H0 : 0 <= n) by lia.
  destruct (strlen_decimal H0) as (H1 & Hlt & Hge). specialize (Hge H10).
  assert (Hle : strlen (decimal n) <= k) by (apply strlen_decimal_le; lia).
  destruct (Z.le_gt_cases k (strlen (decimal n))) as [|Hgt]; [lia|].
  exfalso.
  assert (10 ^ strlen (decimal n) <= 10 ^ (k - 1)) by (apply Z.pow_le_mono_r; lia).
  lia.
Qed.

Lemma strlen_decimal_neg (z k : Z) :
  1 <= k -> - 10 ^ k < z < 0 -> strlen (decimal z) <= k + 1.
Proof.
  intros Hk Hz. unfold decimal. destruct (Z.ltb_spec z 0); [|lia].
  rewrite strlen_String.
  assert (Hn : 0 <= - z) by lia.
  rewrite <- (decimal_nonneg _ (log2_fuel Hn)).
  pose proof (@strlen_decimal_le (- z) k). lia.
Qed.

Lemma atoi_decimal (v : Z) (m : mem) :
  - 2 ^ 31 <= v < 2 ^ 31 -> atoi (decimal v) m = (inl v, m).
Proof.
  intro Hv. unfold atoi, bind. rewrite strtol_unfold, strtol_text_decimal.
  unfold LONG_MAX, LONG_MIN.
  destruct (Z.gtb_spec v (2 ^ 63 - 1)); [lia|].
  destruct (Z.ltb_spec v (- 2 ^ 63)); [lia|].
  unfold ret. rewrite int_of_long_small by exact Hv. reflexivity.
Qed.

Section ObjectProperties.
Context `{E : Object.Env}.
Variable oval_definition_model_get_object :
  option Object.oval_definition_model -> option string -> option Object.oval_object.
Variable oval_object_content_to_dom : Object.oval_object_content -> Object.xmlNode.

Lemma to_dom_node (object : Object.oval_object) :
  exists children,
    Object.oval_object_to_dom oval_object_content_to_dom object
    = Some (Object.mkNode
              (Object.oval_subtype_get_text (Object.subtype object) ++ "_object")
              (Some (Object.OVAL_DEFINITIONS_NAMESPACE ++ "#"
                     ++ Object.oval_family_get_text
                          (Object.oval_object_get_family object))%string)
              ([("id", Object.prop_text (Object.id object));
                ("version", snprintf 10 (decimal (Object.version object)))]
               ++ match Object.comment object with
                  | Some comm => [("comment", comm)]
                  | None => []
                  end
               ++ (if Object.oval_object_get_deprecated object
                   then [("deprecated", "true")] else []))
              None children).
Proof.
  unfold Object.oval_object_to_dom, Object.strcat,
    Object.oval_object_get_subtype, Object.oval_object_get_version,
    Object.oval_object_get_id, Object.oval_object_get_comment.
  set (st := Object.oval_subtype_get_text (Object.subtype object)).
  set (ft := Object.oval_family_get_text (Object.oval_object_get_family object)).
  set (ns := Object.OVAL_DEFINITIONS_NAMESPACE).
  pose proof (strlen_nonneg st). pose proof (strlen_nonneg ft).
  pose proof (strlen_nonneg ns).
  change (strlen "") with 0. cbn [append].
  destruct (Z.leb_spec (0 + strlen st + 1) (strlen st + 8)); [|lia].
  change (strlen "_object") with 7.
  destruct (Z.leb_spec (strlen st + 7 + 1) (strlen st + 8)); [|lia].
  destruct (Z.leb_spec (0 + strlen ns + 1) (strlen ns + strlen ft + 2)); [|lia].
  change (strlen "#") with 1.
  destruct (Z.leb_spec (strlen ns + 1 + 1) (strlen ns + strlen ft + 2)); [|lia].
  rewrite strlen_append. change (strlen "#") with 1.
  destruct (Z.leb_spec (strlen ns + 1 + strlen ft + 1) (strlen ns + strlen ft + 2));
    [|lia].
  rewrite append_assoc. eexists. reflexivity.
Qed.

Lemma validate_Forall {A : Type} (f : A -> bool) (l : list A) :
  Object.validate f l = true <-> Forall (fun a => f a = true) l.
Proof.
  induction l as [|a l IH]; cbn [Object.validate].
  - split; [constructor|reflexivity].
  - destruct (f a) eqn:Ea; cbn [negb].
    + rewrite IH. split; [intro H; constructor; assumption|].
      intro H. inversion H. assumption.
    + split; [discriminate|]. intro H. inversion H. congruence.
Qed.

Lemma fold_call_none (us : list Object.update) :
  fold_left Object.call us None = None.
Proof.
  induction us as [|u us IH]; [reflexivity|].
  cbn [fold_left]. destruct u; exact IH.
Qed.

Lemma fold_add_none {A : Type} (f : option Object.oval_object -> A -> option Object.oval_object)
      (l : list A) :
  (forall a, f None a = None) -> fold_left f l None = None.
Proof.
  intro Hf. induction l as [|a l IH]; [reflexivity|].
  cbn [fold_left]. rewrite Hf. exact IH.
Qed.

Lemma fold_add_behavior (mdl : option Object.oval_definition_model)
      (l : list Object.oval_behavior) :
  forall o,
    Object.oval_definition_model_is_locked (Object.model o) = false ->
    fold_left (fun o behavior =>
                 Object.oval_object_add_behavior
                   o (Object.oval_behavior_clone mdl behavior)) l (Some o)
    = Some (Object.mkObject (Object.model o) (Object.subtype o) (Object.notes o)
                            (Object.comment o) (Object.id o) (Object.deprecated o)
                            (Object.version o) (Object.object_content o)
                            (Object.behaviors o
                             ++ map (Object.oval_behavior_clone mdl) l)).
Proof.
  induction l as [|b l IH]; intros o Hl; cbn [fold_left map].
  - rewrite app_nil_r. destruct o; reflexivity.
  - unfold Object.oval_object_add_behavior at 2, Object.oval_object_is_locked.
    rewrite Hl. cbn [negb]. rewrite IH by exact Hl.
    cbn. rewrite <- app_assoc. reflexivity.
Qed.

Lemma fold_add_note (l : list string) :
  forall o,
    Object.oval_definition_model_is_locked (Object.model o) = false ->
    fold_left Object.oval_object_add_note l (Some o)
    = Some (Object.mkObject (Object.model o) (Object.subtype o) (Object.notes o ++ l)
                            (Object.comment o) (Object.id o) (Object.deprecated o)
                            (Object.version o) (Object.object_content o)
                            (Object.behaviors o)).
Proof.
  induction l as [|b l IH]; intros o Hl; cbn [fold_left].
  - rewrite app_nil_r. destruct o; reflexivity.
  - unfold Object.oval_object_add_note at 2, Object.oval_object_is_locked.
    rewrite Hl. cbn [negb]. rewrite IH by exact Hl.
    cbn. rewrite <- app_assoc. reflexivity.
Qed.

Lemma fold_add_content (mdl : option Object.oval_definition_model)
      (l : list Object.oval_object_content) :
  forall o,
    Object.oval_definition_model_is_locked (Object.model o) = false ->
    fold_left (fun o content =>
                 Object.oval_object_add_object_content
                   o (Object.oval_object_content_clone mdl content)) l (Some o)
    = Some (Object.mkObject (Object.model o) (Object.subtype o) (Object.notes o)
                            (Object.comment o) (Object.id o) (Object.deprecated o)
                            (Object.version o)
                            (Object.object_content o
                             ++ map (Object.oval_object_content_clone mdl) l)
                            (Object.behaviors o)).
Proof.
  induction l as [|b l IH]; intros o Hl; cbn [fold_left map].
  - rewrite app_nil_r. destruct o; reflexivity.
  - unfold Object.oval_object_add_object_content at 2, Object.oval_object_is_locked.
    rewrite Hl. cbn [negb]. rewrite IH by exact Hl.
    cbn. rewrite <- app_assoc. reflexivity.
Qed.

(** The arrays of [oval_object_to_dom] suffice (lines 457-466).  Whatever
    the texts of the subtype and of the family are, no [strcat] writes past
    the end of [object_name] or of [family_uri]: the node is made, named by
    the subtype followed by [_object], in the name space of the definitions
    followed by [#] and the family. *)
Theorem to_dom_arrays_suffice (object : Object.oval_object) :
  exists node,
    Object.oval_object_to_dom oval_object_content_to_dom object = Some node /\
    Object.node_name node
    = (Object.oval_subtype_get_text (Object.subtype object) ++ "_object")%string /\
    Object.node_ns node
    = Some (Object.OVAL_DEFINITIONS_NAMESPACE ++ "#"
            ++ Object.oval_family_get_text
                 (Object.oval_object_get_family object))%string.
Proof.
  destruct (to_dom_node object) as (children & ->).
  eexists. split; [reflexivity|]. split; reflexivity.
Qed.

(** The version is read back (lines 474-477 and 406-407).  For a version
    above -10^8 and below 10^9, the [version] attribute that
    [oval_object_to_dom] writes is the text that [atoi], by which
    [oval_object_parse_tag] reads the attribute, turns into the version
    again. *)
Theorem version_attribute_read_back (object : Object.oval_object) :
  - 10 ^ 8 < Object.version object < 10 ^ 9 ->
  exists node text,
    Object.oval_object_to_dom oval_object_content_to_dom object = Some node /\
    Object.get_attribute "version" (Object.node_props node) = Some text /\
    forall m, atoi text m = (inl (Object.version object), m).
Proof.
  intro Hv. destruct (to_dom_node object) as (children & ->).
  eexists. eexists. split; [reflexivity|]. split; [reflexivity|].
  intro m. unfold snprintf. change (10 - 1) with 9.
  rewrite strn_ge; [apply atoi_decimal; lia|].
  destruct (Z.ltb_spec (Object.version object) 0).
  - apply (@strlen_decimal_neg _ 8); lia.
  - apply strlen_decimal_le; lia.
Qed.

(** The array of the version is short (line 474).  A version from 10^9 on
    has ten digits, of which [char version[10]] holds nine: the attribute
    written is read back as the version without its last digit. *)
Theorem version_attribute_loses_digit (object : Object.oval_object) :
  10 ^ 9 <= Object.version object < 2 ^ 31 ->
  exists node text,
    Object.oval_object_to_dom oval_object_content_to_dom object = Some node /\
    Object.get_attribute "version" (Object.node_props node) = Some text /\
    forall m, atoi text m = (inl (Object.version object / 10), m).
Proof.
  intro Hv. destruct (to_dom_node object) as (children & ->).
  eexists. eexists. split; [reflexivity|]. split; [reflexivity|].
  intro m. unfold snprintf. change (10 - 1) with 9.
  set (v := Object.version object) in *.
  assert (Hq : 10 ^ 8 <= v / 10 < 10 ^ 9).
  { split; [apply Z.div_le_lower_bound; lia|apply Z.div_lt_upper_bound; lia]. }
  rewrite decimal_last_digit by lia.
  rewrite <- (@strlen_decimal_exact (v / 10) 9) by lia.
  rewrite strn_append. apply atoi_decimal. lia.
Qed.

(** The prefix of the printed lines fits (lines 419-427).  For an index
    that is not negative, [nxtindent] holds the whole prefix: the indent, or
    four dots in place of an indent of more than 80 bytes, and the tag with
    the index. *)
Theorem nxtindent_fits (indent : string) (idx : Z) :
  0 <= idx < 2 ^ 31 ->
  Object.nxtindent indent idx
  = ((if (strlen indent >? 80)%Z then "...." else indent)
     ++ (if (idx =? 0)%Z then "OBJECT." else "OBJECT[" ++ decimal idx ++ "]."))%string.
Proof.
  intro Hi. unfold Object.nxtindent, snprintf. change (100 - 1) with 99.
  set (ind := if strlen indent >? 80 then "...." else indent).
  assert (Hind : 0 <= strlen ind <= 80).
  { unfold ind. destruct (Z.gtb_spec (strlen indent) 80).
    - change (strlen "....") with 4. lia.
    - pose proof (strlen_nonneg indent). lia. }
  destruct (idx =? 0).
  - apply strn_ge. rewrite strlen_append. change (strlen "OBJECT.") with 7. lia.
  - apply strn_ge. rewrite !strlen_append.
    change (strlen "OBJECT[") with 7. change (strlen "].") with 2.
    assert (strlen (decimal idx) <= 10) by (apply strlen_decimal_le; lia).
    lia.
Qed.

(** The family of an object (line 73).  For a subtype that is not
    negative, the family is the multiple of 1000 next below the subtype. *)
Theorem family_is_thousands (object : Object.oval_object) :
  0 <= Object.subtype object ->
  exists k,
    Object.oval_object_get_family object = 1000 * k /\
    1000 * k <= Object.subtype object < 1000 * k + 1000.
Proof.
  intro H. unfold Object.oval_object_get_family.
  exists (Object.subtype object / 1000).
  rewrite Z.quot_div_nonneg by lia.
  pose proof (Z.div_mod (Object.subtype object) 1000).
  pose proof (Z.mod_pos_bound (Object.subtype object) 1000). lia.
Qed.

(** Locked content is not changed (lines 283-339).  Whatever calls of the
    setters are made on an object whose model is locked, the object stays
    as it is; and on no object, there is none afterwards. *)
Theorem locked_object_unchanged (object : Object.oval_object)
        (calls : list Object.update) :
  Object.oval_object_is_locked object = true ->
  fold_left Object.call calls (Some object) = Some object /\
  fold_left Object.call calls None = None.
Proof.
  intro Hl. split; [|apply fold_call_none].
  induction calls as [|u us IH]; [reflexivity|].
  cbn [fold_left]. destruct u; cbn [Object.call];
    unfold Object.oval_object_set_subtype, Object.oval_object_add_note,
      Object.oval_object_set_comment, Object.oval_object_set_deprecated,
      Object.oval_object_set_version, Object.oval_object_add_object_content,
      Object.oval_object_add_behavior;
    rewrite Hl; exact IH.
Qed.

(** Which objects are valid (lines 172-219).  [oval_object_is_valid]
    accepts an object exactly when it is there, its subtype is known, and
    all its contents and all its behaviours are valid; an object as
    [oval_object_new] returns it is not accepted. *)
Theorem valid_objects (object : option Object.oval_object)
        (mdl : option Object.oval_definition_model) (an_id : option string) :
  (Object.oval_object_is_valid object = true <->
   exists o, object = Some o /\
             Object.subtype o <> Object.OVAL_SUBTYPE_UNKNOWN /\
             Forall (fun c => Object.oval_object_content_is_valid c = true)
                    (Object.object_content o) /\
             Forall (fun b => Object.oval_behavior_is_valid b = true)
                    (Object.behaviors o)) /\
  Object.oval_object_is_valid (Object.oval_object_new mdl an_id) = false.
Proof.
  split.
  - unfold Object.oval_object_is_valid, Object.oval_object_get_subtype,
      Object.oval_object_get_object_contents, Object.oval_object_get_behaviors.
    destruct object as [o|].
    + destruct (Z.eqb_spec (Object.subtype o) Object.OVAL_SUBTYPE_UNKNOWN) as [Es|Es].
      { split; [discriminate|]. intros (o' & Ho & Hs & _). inversion Ho. subst.
        contradiction. }
      destruct (Object.validate Object.oval_object_content_is_valid
                                (Object.object_content o)) eqn:Ec; cbn [negb].
      * destruct (Object.validate Object.oval_behavior_is_valid
                                  (Object.behaviors o)) eqn:Eb; cbn [negb].
        -- split; [|reflexivity]. intros _. exists o.
           apply validate_Forall in Ec. apply validate_Forall in Eb. auto.
        -- split; [discriminate|]. intros (o' & Ho & _ & _ & Hb).
           inversion Ho. subst. apply validate_Forall in Hb. congruence.
      * split; [discriminate|]. intros (o' & Ho & _ & Hc & _).
        inversion Ho. subst. apply validate_Forall in Hc. congruence.
    + split; [discriminate|]. intros (o' & Ho & _). discriminate.
  - unfold Object.oval_object_new.
    destruct (is_set mdl && Object.oval_definition_model_is_locked mdl);
      [reflexivity|].
    destruct Object.oscap_alloc_fails; reflexivity.
Qed.

(** What [oval_object_clone] returns for a new model that is there (lines
    228-260).  It is the object
    that the new model holds under the id of the old one, when there is one.
    Otherwise it is nothing when the new model is locked or no memory is
    left; and else a new object of the new model with the id of the old
    one, that has the comment, the subtype, the version and the notes of the
    old one, is deprecated when the old one is, and has the clones of its
    behaviours and of its contents, in their order. *)
Theorem clone_outcome (mdl : Object.oval_definition_model)
        (old_object : Object.oval_object) :
  Object.oval_object_clone oval_definition_model_get_object (Some mdl) old_object
  = match oval_definition_model_get_object (Some mdl) (Object.id old_object) with
    | Some new_object => Some new_object
    | None =>
        if Object.oval_definition_model_is_locked (Some mdl)
           || Object.oscap_alloc_fails
        then None
        else Some (Object.mkObject
                     (Some mdl) (Object.subtype old_object) (Object.notes old_object)
                     (Object.comment old_object) (Object.id old_object)
                     (if Object.deprecated old_object =? 0 then 0 else 1)
                     (Object.version old_object)
                     (map (Object.oval_object_content_clone (Some mdl))
                          (Object.object_content old_object))
                     (map (Object.oval_behavior_clone (Some mdl))
                          (Object.behaviors old_object)))
    end.
Proof.
  unfold Object.oval_object_clone.
  destruct (oval_definition_model_get_object (Some mdl) (Object.id old_object));
    [reflexivity|].
  unfold Object.oval_object_new. cbn [is_set andb].
  destruct (Object.oval_definition_model_is_locked (Some mdl)) eqn:Hl; cbn [orb].
  { cbn. rewrite !fold_add_none by reflexivity. reflexivity. }
  destruct Object.oscap_alloc_fails.
  { cbn. rewrite !fold_add_none by reflexivity. reflexivity. }
  unfold Object.oval_object_set_comment, Object.oval_object_set_subtype,
    Object.oval_object_set_deprecated, Object.oval_object_set_version,
    Object.oval_object_is_locked.
  repeat (cbn [negb Object.model Object.subtype Object.notes
                Object.comment Object.id Object.deprecated Object.version
                Object.object_content Object.behaviors];
          rewrite Hl).
  cbn [negb Object.model Object.subtype Object.notes
       Object.comment Object.id Object.deprecated Object.version
       Object.object_content Object.behaviors].
  unfold Object.oval_object_get_behaviors, Object.oval_object_get_notes,
    Object.oval_object_get_object_contents.
  rewrite fold_add_behavior by exact Hl. cbn [Object.model Object.subtype Object.notes
    Object.comment Object.id Object.deprecated Object.version Object.object_content
    Object.behaviors app].
  rewrite fold_add_note by exact Hl. cbn [Object.model Object.subtype Object.notes
    Object.comment Object.id Object.deprecated Object.version Object.object_content
    Object.behaviors app].
  rewrite fold_add_content by exact Hl. cbn [Object.model Object.subtype Object.notes
    Object.comment Object.id Object.deprecated Object.version Object.object_content
    Object.behaviors app].
  destruct (Object.deprecated old_object =? 0); reflexivity.
Qed.

End ObjectProperties.

(** The theorems at work on the sample object. *)
Lemma version_attribute_read_back_witness :
  exists node text,
    @Object.oval_object_to_dom Object.sample_env Object.sample_content_to_dom
                               Object.sample_object = Some node /\
    Object.get_attribute "version" (Object.node_props node) = Some text /\
    forall m, atoi text m = (inl (Object.version Object.sample_object), m).
Proof.
  apply (@version_attribute_read_back Object.sample_env Object.sample_content_to_dom
           Object.sample_object).
  vm_compute. split; reflexivity.
Defined.

Lemma version_attribute_loses_digit_witness :
  exists node text,
    @Object.oval_object_to_dom
      Object.sample_env Object.sample_content_to_dom
      (@Object.mkObject Object.sample_env (Some 1) 7006 [] None (Some "oval:x:obj:2")
                        0 2000000001 [] []) = Some node /\
    Object.get_attribute "version" (Object.node_props node) = Some text /\
    forall m,
      atoi text m
      = (inl (Object.version
                (@Object.mkObject Object.sample_env (Some 1) 7006 [] None
                                  (Some "oval:x:obj:2") 0 2000000001 [] []) / 10), m).
Proof.
  apply (@version_attribute_loses_digit
           Object.sample_env Object.sample_content_to_dom
           (@Object.mkObject Object.sample_env (Some 1) 7006 [] None
                             (Some "oval:x:obj:2") 0 2000000001 [] [])).
  vm_compute. split; [discriminate|reflexivity].
Defined.

Lemma nxtindent_fits_witness :
  Object.nxtindent "  " 3
  = ((if (strlen "  " >? 80)%Z then "...." else "  ")
     ++ (if (3 =? 0)%Z then "OBJECT." else "OBJECT[" ++ decimal 3 ++ "]."))%string.
Proof.
  apply (@nxtindent_fits "  " 3). lia.
Defined.

Lemma family_is_thousands_witness :
  exists k,
    Object.oval_object_get_family Object.sample_object = 1000 * k /\
    1000 * k <= Object.subtype Object.sample_object < 1000 * k + 1000.
Proof.
  apply (@family_is_thousands Object.sample_env Object.sample_object).
  vm_compute. discriminate.
Defined.

Lemma locked_object_witness :
  fold_left Object.call
            [Object.Set_version 4; Object.Add_note "more"]
            (Some (@Object.mkObject Object.sample_env (Some 2) 7006 [] None
                                    (Some "oval:x:obj:3") 0 3 [] []))
  = Some (@Object.mkObject Object.sample_env (Some 2) 7006 [] None
                           (Some "oval:x:obj:3") 0 3 [] []) /\
  fold_left (@Object.call Object.sample_env)
            [Object.Set_version 4; Object.Add_note "more"] None = None.
Proof.
  apply (@locked_object_unchanged
           Object.sample_env
           (@Object.mkObject Object.sample_env (Some 2) 7006 [] None
                             (Some "oval:x:obj:3") 0 3 [] [])
           [Object.Set_version 4; Object.Add_note "more"]).
  reflexivity.
Defined.

(* ================================================================== *)
(** * Nothing is left out *)

Section Complete.
Variables options dev : Z.
Variable steer : FTSENT -> fts_instr_t.
Hypothesis steer_follow : forall e, steer e = FTS_FOLLOW -> fts_info e = FTS_SL.

Lemma fts_child_visit (p : FTSENT) (name : string) (c : node) :
  fts_child p name c = Visit (work_ent (fts_child p name c)) c.
Proof.
  unfold fts_child. destruct (fts_stat false c) as [[i st] obj] eqn:E.
  destruct (fts_stat_physical _ E) as [-> _]. reflexivity.
Qed.

Lemma comes_to_walk (e0 : FTSENT) (n0 : node) (fuel : nat) (e : FTSENT) (n : node) :
  comes_to options dev steer e0 n0 e n ->
  (work_weight (Visit e0 n0) < fuel)%nat ->
  work_ok (Visit e0 n0) ->
  exists f,
    (work_weight (Visit e n) < f)%nat /\ work_ok (Visit e n) /\
    incl (fts_walk options dev steer f (Visit e n))
         (fts_walk options dev steer fuel (Visit e0 n0)).
Proof.
  intros Hc Hfuel Hok0.
  induction Hc as [|p st ens name c Hc IH Hi Hs Hx Hin
                   |p l info st obj Hc IH Hi Hs Hst].
  - exists fuel. split; [exact Hfuel|]. split; [exact Hok0|]. apply incl_refl.
  - destruct IH as (f & Hf & Hokp & Hincl).
    destruct f as [|f]; [lia|].
    pose proof (@fts_expand_weight options dev steer steer_follow p (Dir st ens) Hokp)
      as Hw.
    assert (Hin' : In (fts_child p name c)
                      (fts_expand options dev (steer p) p (Dir st ens))).
    { unfold fts_expand. rewrite Hi.
      destruct ens as [|en ens]; [contradiction|].
      assert (Hb : In (fts_child p name c) (fts_build p (en :: ens) ++ [Leave p (Dir st (en :: ens))])).
      { apply in_or_app. left. unfold fts_build.
        apply in_map_iff. exists (name, c). split; [reflexivity|exact Hin]. }
      destruct (steer p); try contradiction; rewrite Hx; exact Hb. }
    rewrite Forall_forall in Hw. destruct (Hw _ Hin') as [Hcw Hcok].
    rewrite fts_child_visit in Hcw, Hcok, Hin'.
    exists f. split; [lia|]. split; [exact Hcok|].
    intros x Hx'. apply Hincl. cbn [fts_walk]. right.
    apply in_flat_map. eexists. split; [exact Hin'|exact Hx'].
  - destruct IH as (f & Hf & Hokp & Hincl).
    destruct f as [|f]; [lia|].
    pose proof (@fts_expand_weight options dev steer steer_follow p l Hokp) as Hw.
    assert (Hin' : In (Visit (mkFTSENT info (fts_path p) (fts_pathlen p) (fts_name p)
                                       (fts_namelen p) (fts_level p) (Some st)
                                       (fts_parent p)) obj)
                      (fts_expand options dev (steer p) p l)).
    { unfold fts_expand. rewrite Hs, Hi, Hst. left. reflexivity. }
    rewrite Forall_forall in Hw. destruct (Hw _ Hin') as [Hcw Hcok].
    exists f. split; [lia|]. split; [exact Hcok|].
    intros x Hx'. apply Hincl. cbn [fts_walk]. right.
    apply in_flat_map. eexists. split; [exact Hin'|exact Hx'].
Qed.

Lemma comes_to_in_walk (e0 : FTSENT) (n0 : node) (e : FTSENT) (n : node) :
  comes_to options dev steer e0 n0 e n ->
  work_ok (Visit e0 n0) ->
  In e (fts_walk options dev steer (S (work_weight (Visit e0 n0))) (Visit e0 n0)).
Proof.
  intros Hc Hok.
  destruct (comes_to_walk Hc (Nat.lt_succ_diag_r _) Hok) as (f & Hf & _ & Hincl).
  apply Hincl. destruct f as [|f]; [lia|]. left. reflexivity.
Qed.

End Complete.

(** Nothing is left out.  On a handle that [oval_fts_open] has returned,
    and with a regular expression engine that reports no error in the partial
    match, every entry that the driver comes to below the starting root under
    the instructions of the turns, and that a turn of the loop reports, is the
    entry of a record of the iteration. *)
Theorem nothing_left_out `{W : World}
        (path_ent filename filepath : option SEXP_ent) (behaviors : SEXP_behaviors)
        (m m' : mem) (ofts0 : OVAL_FTS) (e0 e : FTSENT) (n0 n : node) (k : nat) :
  oval_fts_open path_ent filename filepath behaviors m = (inl ofts0, m') ->
  (forall e, oval_fts_prune ofts0 e <> Prune_error) ->
  In (Visit e0 n0) (fts_todo (ofts_fts ofts0)) ->
  comes_to (fts_options (ofts_fts ofts0)) (ent_dev e0) (turn_instr ofts0) e0 n0 e n ->
  reported ofts0 e = true ->
  (List.length (oval_fts_expected ofts0) < k)%nat ->
  In (OVAL_FTSENT_new ofts0 e, Some e) (oval_fts_read_all k ofts0).
Proof.
  intros Hopen Hne Hroot Hc Hrep Hk.
  rewrite (@oval_fts_read_all_expected W path_ent filename filepath behaviors m m'
             ofts0 k Hopen Hne Hk).
  unfold oval_fts_expected.
  apply (in_map (fun e => (OVAL_FTSENT_new ofts0 e, Some e))).
  apply filter_In. split; [|exact Hrep].
  unfold oval_fts_walk. apply in_flat_map. exists (Visit e0 n0).
  split; [exact Hroot|]. cbn [work_ent].
  apply (@comes_to_in_walk _ _ (turn_instr ofts0)
           (fun x => @turn_instr_follow W ofts0 x) e0 n0 e n Hc).
  apply oval_fts_open_inl in Hopen.
  destruct Hopen as (literal & options & _ & _ & _ & _ & Hfts & _).
  rewrite Hfts in Hroot. cbn [fts_todo] in Hroot.
  destruct Hroot as [Hroot|[]]. rewrite <- Hroot. apply fts_root_ok.
Qed.

(** The theorem at work: [/r/s/y] is come to and reported. *)
Lemma nothing_left_out_witness :
  In (mkOVAL_FTSENT "/r/s" 4 (Some "y") 1,
      Some (mkFTSENT FTS_F "/r/s/y" 6 "y" 1 2 (Some dev_local)
                     (Some (mkFTSENT FTS_D "/r/s" 4 "s" 1 1 (Some dev_local)
                                     (Some (mkFTSENT FTS_D "/r" 2 "r" 1 0
                                                     (Some dev_local) None))))))
     (@oval_fts_read_all sample_world 3
        (sample_open (sample_ent None "/r") (sample_ent (Some 2) "none such") None
                     (sample_behaviors "1" "down" None))).
Proof.
  apply (@nothing_left_out sample_world
           (sample_ent None "/r") (sample_ent (Some 2) "none such") None
           (sample_behaviors "1" "down" None) mem0
           (mkMem [Res_ref_filename; Res_ref_path; Res_fts; Res_ofts;
                   Res_path 0; Res_paths] 0)
           (sample_open (sample_ent None "/r") (sample_ent (Some 2) "none such") None
                        (sample_behaviors "1" "down" None))
           (mkFTSENT FTS_D "/r" 2 "r" 1 0 (Some dev_local) None)
           (mkFTSENT FTS_F "/r/s/y" 6 "y" 1 2 (Some dev_local)
                     (Some (mkFTSENT FTS_D "/r/s" 4 "s" 1 1 (Some dev_local)
                                     (Some (mkFTSENT FTS_D "/r" 2 "r" 1 0
                                                     (Some dev_local) None)))))
           (sample_fs "/r") (File dev_local) 3).
  - vm_compute. reflexivity.
  - intro e. vm_compute. discriminate.
  - vm_compute. left. reflexivity.
  - apply (@comes_to_entry _ _ _ _ _
             (mkFTSENT FTS_D "/r/s" 4 "s" 1 1 (Some dev_local)
                       (Some (mkFTSENT FTS_D "/r" 2 "r" 1 0 (Some dev_local) None)))
             dev_local [("y", File dev_local);
                        ("t", Dir dev_local [("z", File dev_local)])]
             "y" (File dev_local)).
    + apply (@comes_to_entry _ _ _ _ _
               (mkFTSENT FTS_D "/r" 2 "r" 1 0 (Some dev_local) None)
               dev_local [("x", File dev_local);
                          ("s", Dir dev_local
                                  [("y", File dev_local);
                                   ("t", Dir dev_local [("z", File dev_local)])])]
               "s" (Dir dev_local [("y", File dev_local);
                                   ("t", Dir dev_local [("z", File dev_local)])])).
      * apply comes_to_root.
      * reflexivity.
      * vm_compute. discriminate.
      * vm_compute. reflexivity.
      * right. left. reflexivity.
    + reflexivity.
    + vm_compute. discriminate.
    + vm_compute. reflexivity.
    + left. reflexivity.
  - vm_compute. reflexivity.
  - vm_compute. lia.
Defined.

Section Sound.
Variables options dev : Z.
Variable steer : FTSENT -> fts_instr_t.
Hypothesis steer_follow : forall e, steer e = FTS_FOLLOW -> fts_info e = FTS_SL.

Lemma fts_expand_comes_to (e0 : FTSENT) (n0 : node) (p : FTSENT) (l : node)
      (w : fts_work) :
  comes_to options dev steer e0 n0 p l ->
  In w (fts_expand options dev (steer p) p l) ->
  match w with
  | Visit e n => comes_to options dev steer e0 n0 e n
  | Leave _ _ => True
  end.
Proof.
  intros Hc Hin. unfold fts_expand in Hin.
  assert (Hleave : In w [Leave p l] ->
                   match w with
                   | Visit e n => comes_to options dev steer e0 n0 e n
                   | Leave _ _ => True
                   end).
  { intros [<-|[]]. exact I. }
  assert (Hdesc : fts_info p = FTS_D -> steer p <> FTS_SKIP ->
                  In w (if isset options FTS_XDEV && negb (ent_dev p =? dev)
                        then [Leave p l]
                        else match l with
                             | Dir _ (en :: ens) => fts_build p (en :: ens) ++ [Leave p l]
                             | _ => [Leave p l]
                             end) ->
                  match w with
                  | Visit e n => comes_to options dev steer e0 n0 e n
                  | Leave _ _ => True
                  end).
  { intros Hi Hs Hw.
    destruct (isset options FTS_XDEV && negb (ent_dev p =? dev)) eqn:Hx;
      [exact (Hleave Hw)|].
    destruct l as [|st|st ens|st t|st]; try exact (Hleave Hw).
    destruct ens as [|en ens]; [exact (Hleave Hw)|].
    apply in_app_or in Hw. destruct Hw as [Hw|Hw]; [|exact (Hleave Hw)].
    unfold fts_build in Hw. apply in_map_iff in Hw.
    destruct Hw as ([name c] & <- & Hen). cbn [fst snd].
    rewrite fts_child_visit.
    eapply comes_to_entry; eassumption. }
  destruct (steer p) eqn:Es.
  - destruct (fts_info p) eqn:Ei; try contradiction.
    apply Hdesc; [reflexivity|discriminate|exact Hin].
  - pose proof (steer_follow Es) as Ei. rewrite Ei in Hin.
    destruct (fts_stat true l) as [[i st] obj] eqn:Est.
    destruct Hin as [<-|[]].
    eapply comes_to_target; eassumption.
  - destruct (fts_info p) eqn:Ei; try contradiction. exact (Hleave Hin).
Qed.

Lemma walk_comes_to (e0 : FTSENT) (n0 : node) (fuel : nat) :
  forall w e,
    In e (fts_walk options dev steer fuel w) ->
    match w with
    | Visit e1 n1 => comes_to options dev steer e0 n0 e1 n1
    | Leave _ _ => True
    end ->
    fts_info e = FTS_DP \/ exists n, comes_to options dev steer e0 n0 e n.
Proof.
  induction fuel as [|f IH]; intros w e Hin Hw; [contradiction|].
  destruct w as [e1 n1|d n1]; cbn [fts_walk] in Hin.
  - destruct Hin as [<-|Hin]; [right; exists n1; exact Hw|].
    apply in_flat_map in Hin. destruct Hin as (c & Hc & Hin).
    apply (IH c e Hin). eapply fts_expand_comes_to; eassumption.
  - destruct Hin as [<-|[]]. left. reflexivity.
Qed.

End Sound.

(** Where the records of an iteration come from. *)
Lemma oval_fts_read_all_comes_to `{W : World}
        (path_ent filename filepath : option SEXP_ent) (behaviors : SEXP_behaviors)
        (m m' : mem) (ofts0 : OVAL_FTS) (k : nat)
        (ofts_ent : OVAL_FTSENT) (fts_ent : option FTSENT) :
  oval_fts_open path_ent filename filepath behaviors m = (inl ofts0, m') ->
  (forall e, oval_fts_prune ofts0 e <> Prune_error) ->
  (List.length (oval_fts_expected ofts0) < k)%nat ->
  In (ofts_ent, fts_ent) (oval_fts_read_all k ofts0) ->
  exists e0 n0 e n,
    In (Visit e0 n0) (fts_todo (ofts_fts ofts0)) /\
    comes_to (fts_options (ofts_fts ofts0)) (ent_dev e0) (turn_instr ofts0) e0 n0 e n /\
    reported ofts0 e = true /\
    fts_ent = Some e /\ ofts_ent = OVAL_FTSENT_new ofts0 e.
Proof.
  intros Hopen Hne Hk Hin.
  rewrite (@oval_fts_read_all_expected W path_ent filename filepath behaviors m m'
             ofts0 k Hopen Hne Hk) in Hin.
  unfold oval_fts_expected in Hin. apply in_map_iff in Hin.
  destruct Hin as (e & He & Hin). inversion He. subst ofts_ent fts_ent. clear He.
  apply filter_In in Hin. destruct Hin as [Hin Hrep].
  unfold oval_fts_walk in Hin. apply in_flat_map in Hin.
  destruct Hin as (w & Hw & Hin).
  assert (Hv : exists e0 n0, w = Visit e0 n0).
  { apply oval_fts_open_inl in Hopen.
    destruct Hopen as (literal & options & _ & _ & _ & _ & Hfts & _).
    rewrite Hfts in Hw. cbn [fts_todo] in Hw. destruct Hw as [<-|[]].
    unfold fts_root.
    destruct (fts_stat (isset options FTS_COMFOLLOW) _) as [[i st] obj].
    eexists. eexists. reflexivity. }
  destruct Hv as (e0 & n0 & ->). cbn [work_ent] in Hin.
  destruct (@walk_comes_to (fts_options (ofts_fts ofts0)) (ent_dev e0)
              (turn_instr ofts0) (fun x => @turn_instr_follow W ofts0 x)
              e0 n0 _ _ _ Hin (comes_to_root _ _ _ _ _)) as [Hdp|(n & Hc)].
  - unfold reported in Hrep. rewrite Hdp in Hrep. discriminate.
  - exists e0, n0, e, n. repeat (split; [assumption|]). split; reflexivity.
Qed.

(** Nothing else is returned.  Every record of the iteration is the record
    of an entry that the driver comes to below the starting root under the
    instructions of the turns, and that a turn of the loop reports. *)
Theorem nothing_else_returned `{W : World}
        (path_ent filename filepath : option SEXP_ent) (behaviors : SEXP_behaviors)
        (m m' : mem) (ofts0 : OVAL_FTS) (k : nat)
        (ofts_ent : OVAL_FTSENT) (fts_ent : option FTSENT) :
  oval_fts_open path_ent filename filepath behaviors m = (inl ofts0, m') ->
  (forall e, oval_fts_prune ofts0 e <> Prune_error) ->
  (List.length (oval_fts_expected ofts0) < k)%nat ->
  In (ofts_ent, fts_ent) (oval_fts_read_all k ofts0) ->
  exists e0 n0 e n,
    In (Visit e0 n0) (fts_todo (ofts_fts ofts0)) /\
    comes_to (fts_options (ofts_fts ofts0)) (ent_dev e0) (turn_instr ofts0) e0 n0 e n /\
    reported ofts0 e = true /\
    fts_ent = Some e /\ ofts_ent = OVAL_FTSENT_new ofts0 e.
Proof.
  intros Hopen Hne Hk Hin.
  exact (@oval_fts_read_all_comes_to W path_ent filename filepath behaviors m m'
           ofts0 k ofts_ent fts_ent Hopen Hne Hk Hin).
Qed.

(** The theorem at work on the first record for [/r]. *)
Lemma nothing_else_returned_witness :
  exists e0 n0 e n,
    In (Visit e0 n0)
       (fts_todo (ofts_fts (sample_open (sample_ent None "/r")
                                        (sample_ent (Some 2) "none such") None
                                        (sample_behaviors "1" "down" None)))) /\
    comes_to (fts_options
                (ofts_fts (sample_open (sample_ent None "/r")
                                       (sample_ent (Some 2) "none such") None
                                       (sample_behaviors "1" "down" None))))
             (ent_dev e0)
             (@turn_instr sample_world
                (sample_open (sample_ent None "/r") (sample_ent (Some 2) "none such")
                             None (sample_behaviors "1" "down" None)))
             e0 n0 e n /\
    @reported sample_world
      (sample_open (sample_ent None "/r") (sample_ent (Some 2) "none such") None
                   (sample_behaviors "1" "down" None)) e = true /\
    Some (mkFTSENT FTS_F "/r/x" 4 "x" 1 1 (Some dev_local)
                   (Some (mkFTSENT FTS_D "/r" 2 "r" 1 0 (Some dev_local) None)))
    = Some e /\
    mkOVAL_FTSENT "/r" 2 (Some "x") 1
    = OVAL_FTSENT_new (sample_open (sample_ent None "/r")
                                   (sample_ent (Some 2) "none such") None
                                   (sample_behaviors "1" "down" None)) e.
Proof.
  apply (@nothing_else_returned sample_world
           (sample_ent None "/r") (sample_ent (Some 2) "none such") None
           (sample_behaviors "1" "down" None) mem0
           (mkMem [Res_ref_filename; Res_ref_path; Res_fts; Res_ofts;
                   Res_path 0; Res_paths] 0)
           (sample_open (sample_ent None "/r") (sample_ent (Some 2) "none such") None
                        (sample_behaviors "1" "down" None))
           3 (mkOVAL_FTSENT "/r" 2 (Some "x") 1)
           (Some (mkFTSENT FTS_F "/r/x" 4 "x" 1 1 (Some dev_local)
                           (Some (mkFTSENT FTS_D "/r" 2 "r" 1 0
                                           (Some dev_local) None))))).
  - vm_compute. reflexivity.
  - intro e. vm_compute. discriminate.
  - vm_compute. lia.
  - vm_compute. left. reflexivity.
Defined.


(* ================================================================== *)
(** * Devices are not crossed for [defined] *)

Lemma comes_to_same_device (options dev : Z) (steer : FTSENT -> fts_instr_t)
      (e0 : FTSENT) (n0 : node) (e : FTSENT) (n : node) :
  isset options FTS_XDEV = true ->
  fts_level e0 = 0 ->
  comes_to options dev steer e0 n0 e n ->
  fts_level e = 0
  \/ exists p, fts_parent e = Some p /\ fts_info p = FTS_D /\ ent_dev p = dev.
Proof.
  intros Hx H0 Hc.
  induction Hc as [|p st ens name c Hc IH Hi Hs Hxd Hin
                   |p l info st obj Hc IH Hi Hs Hst].
  - left. exact H0.
  - right. exists p. destruct (fts_child_ent p name c) as (i & s & ->).
    cbn [fts_parent]. split; [reflexivity|]. split; [exact Hi|].
    rewrite Hx in Hxd. cbn [andb] in Hxd.
    apply negb_false_iff in Hxd. apply Z.eqb_eq in Hxd. exact Hxd.
  - exact IH.
Qed.

(** The file systems [defined] (lines 279-281 and 514-519).  With
    [recurse_file_system] [defined], and a regular expression engine that
    reports no error in the partial match, every record of the iteration is
    the record of a starting root or of an entry that was read from a
    directory on the device of the starting root: the driver does not cross
    devices, and the walker leaves that to it. *)
Theorem defined_stays_on_device `{W : World}
        (path_ent filename filepath : option SEXP_ent) (behaviors : SEXP_behaviors)
        (m m' : mem) (ofts0 : OVAL_FTS) (k : nat)
        (ofts_ent : OVAL_FTSENT) (fts_ent : option FTSENT) :
  oval_fts_open path_ent filename filepath behaviors m = (inl ofts0, m') ->
  filesystem ofts0 = OVAL_RECURSE_FS_DEFINED ->
  (forall e, oval_fts_prune ofts0 e <> Prune_error) ->
  (List.length (oval_fts_expected ofts0) < k)%nat ->
  In (ofts_ent, fts_ent) (oval_fts_read_all k ofts0) ->
  exists e0 n0 e,
    In (Visit e0 n0) (fts_todo (ofts_fts ofts0)) /\
    fts_ent = Some e /\
    (fts_level e = 0
     \/ exists p, fts_parent e = Some p /\ fts_info p = FTS_D
                  /\ ent_dev p = ent_dev e0).
Proof.
  intros Hopen Hfs Hne Hk Hin.
  destruct (@oval_fts_read_all_comes_to W path_ent filename filepath behaviors m m'
              ofts0 k ofts_ent fts_ent Hopen Hne Hk Hin)
    as (e0 & n0 & e & n & Hroot & Hc & _ & He & _).
  exists e0, n0, e. split; [exact Hroot|]. split; [exact He|].
  assert (Hx : isset (fts_options (ofts_fts ofts0)) FTS_XDEV = true).
  { destruct path_ent as [pe|].
    - destruct (oval_fts_open_parsed _ _ _ _ _ Hopen)
        as (b & m1 & m2 & Hp & _ & _ & _ & Hf & Ho).
      destruct (parse_behaviors_decode _ _ Hp) as (_ & _ & _ & Hd).
      rewrite Ho. rewrite Hf in Hfs.
      destruct Hd as [(_ & Hcode & _)|[(_ & Hcode & _)|[(_ & Hcode & _)
                                                       |(_ & _ & ->)]]];
        try (rewrite Hcode in Hfs; discriminate Hfs).
      reflexivity.
    - apply oval_fts_open_inl in Hopen.
      destruct Hopen as (literal & options & _ & _ & _ & _ & _ & _ & _ & _ & Hnone).
      destruct Hnone as (_ & _ & _ & _ & _ & _ & _ & Hf & _).
      rewrite Hf in Hfs. discriminate Hfs. }
  eapply comes_to_same_device; [exact Hx| |exact Hc].
  apply oval_fts_open_inl in Hopen.
  destruct Hopen as (literal & options & _ & _ & _ & _ & Hfts & _).
  rewrite Hfts in Hroot. cbn [fts_todo] in Hroot. destruct Hroot as [Hroot|[]].
  pose proof (fts_root_path options (starting_root path_ent filepath literal)
                (fs_lookup (starting_root path_ent filepath literal))) as [_ Hl].
  rewrite Hroot in Hl. exact Hl.
Qed.

(** The theorem at work on [/mnt], where [remote] is on another device. *)
Lemma defined_stays_on_device_witness :
  exists e0 n0 e,
    In (Visit e0 n0)
       (fts_todo (ofts_fts (sample_open (sample_ent None "/mnt") (sample_ent None "f")
                                        None
                                        (sample_behaviors "-1" "down"
                                                          (Some "defined"))))) /\
    Some (mkFTSENT FTS_F "/mnt/local/f" 12 "f" 1 2 (Some dev_local)
                   (Some (mkFTSENT FTS_D "/mnt/local" 10 "local" 5 1 (Some dev_local)
                                   (Some (mkFTSENT FTS_D "/mnt" 4 "mnt" 3 0
                                                   (Some dev_local) None)))))
    = Some e /\
    (fts_level e = 0
     \/ exists p, fts_parent e = Some p /\ fts_info p = FTS_D
                  /\ ent_dev p = ent_dev e0).
Proof.
  apply (@defined_stays_on_device sample_world
           (sample_ent None "/mnt") (sample_ent None "f") None
           (sample_behaviors "-1" "down" (Some "defined")) mem0
           (mkMem [Res_ref_filename; Res_ref_path; Res_fts; Res_ofts;
                   Res_path 0; Res_paths] 0)
           (sample_open (sample_ent None "/mnt") (sample_ent None "f") None
                        (sample_behaviors "-1" "down" (Some "defined")))
           2 (mkOVAL_FTSENT "/mnt/local" 10 (Some "f") 1)).
  - vm_compute. reflexivity.
  - vm_compute. reflexivity.
  - intro e. vm_compute. discriminate.
  - vm_compute. lia.
  - vm_compute. left. reflexivity.
Defined.
(* ================================================================== *)
(** * C7: when [oval_fts_open] returns a handle, and on which root *)

Section Accepts.
Context `{W : World}.







(** A handle has been returned: memory was there. *)
Lemma oval_fts_open_memory (path filename filepath : option SEXP_ent)
      (behaviors : SEXP_behaviors) (m m' : mem) (ofts : OVAL_FTS) :
  oval_fts_open path filename filepath behaviors m = (inl ofts, m') ->
  oscap_alloc_fails = false /\ oscap_talloc_fails = false /\ fts_open_fails = false.
Proof.
  unfold oval_fts_open. intro H.
  bind_inv H as u Hpre. bind_inv H as path_op Hop. bind_inv H as cfg Hcfg.
  destruct cfg as [[cstr_path nilfilename] b].
  bind_inv H as u0 Hq0. apply when_segv_inl in Hq0. destruct Hq0 as [Ha _].
  bind_inv H as u1 Hq1. bind_inv H as u2 Hq2. bind_inv H as new Hnew.
  bind_inv H as o Ho. destruct new as [o'|]; [|discriminate].
  clear - Ha Hnew. split; [exact Ha|].
  unfold OVAL_FTS_new in Hnew.
  bind_inv Hnew as v0 Hv0. apply when_segv_inl in Hv0. destruct Hv0 as [Ht _].
  split; [exact Ht|].
  bind_inv Hnew as v1 Hv1. unfold fts_open in Hnew.
  destruct fts_open_fails; [|reflexivity].
  cbn [orb] in Hnew. bind_inv Hnew as v2 Hv2. discriminate.
Qed.

(** A handle has been returned for a path: [errno] held neither [EINVAL]
    nor [ERANGE], and the behaviours were as they must be. *)
Lemma oval_fts_open_behaviors (pe : SEXP_ent) (filename filepath : option SEXP_ent)
      (behaviors : SEXP_behaviors) (m m' : mem) (ofts : OVAL_FTS) :
  oval_fts_open (Some pe) filename filepath behaviors m = (inl ofts, m') ->
  errno m <> EINVAL /\ errno m <> ERANGE /\ behaviors_accepted behaviors.
Proof.
  unfold oval_fts_open. intro H.
  bind_mem H as u ma Hpre.
  apply when_inl in Hpre. destruct Hpre as [[_ ->]|[_ Hpre]]; [|discriminate].
  bind_mem H as path_op mb Hop.
  apply path_op_outcome in Hop. destruct Hop as (_ & _ & Eb).
  bind_mem H as cfg mc Hcfg. clear H.
  cbn [is_set] in Hcfg.
  bind_mem Hcfg as s1 m1 Hs1. bind_mem Hcfg as nf m2 Hnf. bind_mem Hcfg as pb m3 Hpb.
  apply strval_outcome in Hs1. destruct Hs1 as [-> _].
  apply nilfilename_outcome in Hnf. destruct Hnf as [-> _].
  pose proof (parse_behaviors_outcome _ _ _ Hpb) as (_ & _ & Hstale).
  destruct (parse_behaviors_decode _ _ Hpb) as ((s & Hs & Hr & _) & Hd & Hrec & Hfs).
  rewrite <- Eb.
  split; [intro E; specialize (Hstale (or_introl E)); discriminate|].
  split; [intro E; specialize (Hstale (or_intror E)); discriminate|].
  split; [exists s; split; assumption|].
  split; [eexists; exact Hd|]. split; [eexists; exact Hrec|].
  do 2 eexists; exact Hfs.
Qed.

(** No other call is taken: the calls described by [open_accepts] are all
    the calls for which a handle is returned. *)
Lemma oval_fts_open_accepted (path filename filepath : option SEXP_ent)
      (behaviors : SEXP_behaviors) (m m' : mem) (ofts : OVAL_FTS) :
  oval_fts_open path filename filepath behaviors m = (inl ofts, m') ->
  open_accepts path filename filepath behaviors m.
Proof.
  intro H. pose proof (oval_fts_open_memory _ _ _ _ _ H) as Hmem.
  pose proof (oval_fts_open_inl _ _ _ _ _ H)
    as (literal & options & Hs & Hop & _ & _ & _ & _ & _ & Hre & Hmode).
  split; [|split; [|exact Hmem]].
  - destruct path as [pe|].
    + destruct Hmode as (-> & _ & _ & Hfn & _ & Hl & Hdev).
      destruct (oval_fts_open_behaviors _ _ _ _ _ H) as (He1 & He2 & Hb).
      split; [|split; [exact He1|split; [exact He2|split; [exact Hb|]]]].
      * destruct Hfn as [[_ Hz]|[_ Hn]]; [rewrite Hz; discriminate|].
        unfold ent_string in Hn. destruct (PROBE_ENT_STRVAL filename);
          congruence.
      * intro Hloc. apply Hl in Hloc. rewrite Hloc in Hdev.
        rewrite Z.eqb_refl in Hdev. destruct Hdev as (lfs & -> & _). discriminate.
    + destruct Hmode as (-> & Hfp & _). destruct filepath; [reflexivity|congruence].
  - exists literal. split; [exact Hs|]. intro Ep. rewrite <- Hop in Ep.
    destruct (Hre Ep) as (regex & -> & _). discriminate.
Qed.

End Accepts.


